(** * PAN-OS upgrade tooling: version model, XML normalizer, job poller, HA extractor

    A shallow embedding of [library/module_utils/panos_common.py] and of the
    version filters of [filter_plugins/panos_filters.py], with the properties
    the design document states about them.

    Modelling conventions.
    - A Python [str] is a [string]: a sequence of code points below 256
      (Latin-1).  On that range the regular expression class [\d] is exactly
      [0-9] and [str.strip] removes the code points 9-13, 28-32, 133 and 160.
    - A Python [int] produced by [int(group)] is an [N]; [str(int)] and the
      f-string rendering of an [int] is stdpp's decimal [pretty].  The
      interpreter's optional limit on the number of digits [int] accepts is
      not modelled.
    - A [dict] with string keys is a [gmap string _]; a key that may be
      missing from a fixed-shape dict is an [option] field.
    - Code that may raise returns a [result]: [Ok v] or [Raise e]. *)

From Stdlib Require Import ZArith NArith QArith Ascii String List Lia.
From stdpp Require Import gmap strings list pretty.

Local Open Scope string_scope.

(** ** Exceptions and the error monad *)

(** Values stored under [details] of a [PanosException]. *)
Inductive detail :=
  | DStr (s : string)
  | DNum (q : Q).

(** [class PanosException(Exception)]: message, error code, details. *)
Record PanosException := mkPanosException {
  exc_message : string;
  error_code : option string;
  details : list (string * detail)
}.

(** What a call can raise: the module's own exception, or the interpreter's
    [AttributeError] for a method looked up on a value that lacks it. *)
Inductive exn :=
  | Panos (e : PanosException)
  | AttributeError (what : string).

Inductive result (A : Type) :=
  | Ok (a : A)
  | Raise (e : exn).
Arguments Ok {A} a.
Arguments Raise {A} e.

Definition bind {A B} (m : result A) (k : A → result B) : result B :=
  match m with
  | Ok a => k a
  | Raise e => Raise e
  end.

Notation "x ←! m ; k" := (bind m (λ x, k))
  (at level 20, m at level 100, k at level 200, only parsing).

Definition raises_code {A} (r : result A) (code : string) : Prop :=
  ∃ e, r = Raise (Panos e) ∧ error_code e = Some code.

(** ** Strings *)

Definition is_digit (c : ascii) : bool :=
  let n := N_of_ascii c in ((48 <=? n) && (n <=? 57))%N.

(** [str.isspace] on code points below 256. *)
Definition is_space (c : ascii) : bool :=
  let n := N_of_ascii c in
  (((9 <=? n) && (n <=? 13)) || ((28 <=? n) && (n <=? 32))
   || (n =? 133) || (n =? 160))%N.

Fixpoint lstrip (s : string) : string :=
  match s with
  | String c s' => if is_space c then lstrip s' else s
  | EmptyString => EmptyString
  end.

(** Drops the trailing white space: a character is kept when it is not
    white space or when something is kept after it. *)
Fixpoint rstrip (s : string) : string :=
  match s with
  | String c s' =>
      match rstrip s' with
      | EmptyString => if is_space c then EmptyString else String c EmptyString
      | r => String c r
      end
  | EmptyString => EmptyString
  end.

(** [s.strip()] *)
Definition strip (s : string) : string := rstrip (lstrip s).

(** [int(digits)] for a string of decimal digits. *)
Definition digit_value (c : ascii) : N := (N_of_ascii c - 48)%N.

Fixpoint int_of_digits_from (acc : N) (s : string) : N :=
  match s with
  | String c s' => int_of_digits_from (acc * 10 + digit_value c)%N s'
  | EmptyString => acc
  end.

Definition int_of_digits (s : string) : N := int_of_digits_from 0 s.

(** [str(n)] *)
Definition str_of_int (n : N) : string := pretty n.

(** ** The version pattern

    [^(\d+)\.(\d+)\.(\d+)(?:-h(\d+))?(?:-c(\d+))?$], matched from the start
    of an already stripped string. *)

(** The longest prefix of digits and what follows it. *)
Fixpoint span_digits (s : string) : string * string :=
  match s with
  | String c s' =>
      if is_digit c then let '(d, r) := span_digits s' in (String c d, r)
      else (EmptyString, s)
  | EmptyString => (EmptyString, EmptyString)
  end.

(** [(\d+)]: at least one digit, greedy. *)
Definition re_digits (s : string) : option (string * string) :=
  match span_digits s with
  | (EmptyString, _) => None
  | (d, r) => Some (d, r)
  end.

(** A literal character. *)
Definition re_char (c : ascii) (s : string) : option string :=
  match s with
  | String c' s' => if Ascii.eqb c c' then Some s' else None
  | EmptyString => None
  end.

(** [(?:-x(\d+))?]: the group when the suffix is there, no group and the
    input untouched otherwise. *)
Definition re_opt_suffix (x : ascii) (s : string) : option string * string :=
  match re_char "-" s with
  | Some s1 =>
      match re_char x s1 with
      | Some s2 =>
          match re_digits s2 with
          | Some (d, r) => (Some d, r)
          | None => (None, s)
          end
      | None => (None, s)
      end
  | None => (None, s)
  end.

(** The match object: groups 1 to 5. *)
Record version_match := mkMatch {
  group1 : string;
  group2 : string;
  group3 : string;
  group4 : option string;
  group5 : option string
}.

Definition re_match_version (s : string) : option version_match :=
  match re_digits s with
  | Some (g1, s1) =>
    match re_char "." s1 with
    | Some s2 =>
      match re_digits s2 with
      | Some (g2, s3) =>
        match re_char "." s3 with
        | Some s4 =>
          match re_digits s4 with
          | Some (g3, s5) =>
              let '(g4, s6) := re_opt_suffix "h" s5 in
              let '(g5, s7) := re_opt_suffix "c" s6 in
              match s7 with
              | EmptyString => Some (mkMatch g1 g2 g3 g4 g5)
              | _ => None
              end
          | None => None
          end
        | None => None
        end
      | None => None
      end
    | None => None
    end
  | None => None
  end.

(** The language of the pattern, spelled out: three non-empty runs of
    digits separated by dots, then an optional [-h] run and an optional
    [-c] run, and nothing else. *)
Fixpoint digits_only (s : string) : bool :=
  match s with
  | String c s' => is_digit c && digits_only s'
  | EmptyString => true
  end.

Definition is_number (s : string) : Prop :=
  s ≠ EmptyString ∧ digits_only s = true.

Definition no_digit_head (s : string) : Prop :=
  match s with
  | String c _ => is_digit c = false
  | EmptyString => True
  end.

Definition suffix_text (x : ascii) (g : option string) : string :=
  match g with
  | Some d => String "-" (String x d)
  | None => EmptyString
  end.

Definition version_text (m : version_match) : string :=
  group1 m +:+ "." +:+ group2 m +:+ "." +:+ group3 m
  +:+ suffix_text "h" (group4 m) +:+ suffix_text "c" (group5 m).

Definition group_is_number (g : option string) : Prop :=
  match g with
  | Some d => is_number d
  | None => True
  end.

Definition well_formed_match (m : version_match) : Prop :=
  is_number (group1 m) ∧ is_number (group2 m) ∧ is_number (group3 m)
  ∧ group_is_number (group4 m) ∧ group_is_number (group5 m).

(** ** VersionModel: [parse_panos_version] *)

Record ParsedVersion := mkVersion {
  major : N;
  minor : N;
  patch : N;
  hotfix : N;
  candidate : N;
  raw : string
}.

(** [int(match.group(i)) if match.group(i) else 0] *)
Definition int_of_group (g : option string) : N :=
  match g with
  | Some d => int_of_digits d
  | None => 0%N
  end.

Definition parse_panos_version (version_string : string)
  : option ParsedVersion :=
  match version_string with
  | EmptyString => None
  | _ =>
      match re_match_version (strip version_string) with
      | None => None
      | Some m =>
          Some {| major := int_of_digits (group1 m);
                  minor := int_of_digits (group2 m);
                  patch := int_of_digits (group3 m);
                  hotfix := int_of_group (group4 m);
                  candidate := int_of_group (group5 m);
                  raw := strip version_string |}
      end
  end.

(** ** Comparison *)

(** The loop [for key in ['major', 'minor', 'patch', 'hotfix']] of both
    comparators, over the list of field readers. *)
Definition compared_keys : list (ParsedVersion → N) :=
  [major; minor; patch; hotfix].

Fixpoint compare_keys (keys : list (ParsedVersion → N))
    (v1 v2 : ParsedVersion) : Z :=
  match keys with
  | key :: keys' =>
      if (key v1 <? key v2)%N then (-1)%Z
      else if (key v2 <? key v1)%N then 1%Z
      else compare_keys keys' v1 v2
  | [] => 0%Z
  end.

(** [panos_filters.panos_version_compare]: [None] when a version does not
    parse. *)
Definition panos_version_compare (version1 version2 : string) : option Z :=
  match parse_panos_version version1, parse_panos_version version2 with
  | Some v1, Some v2 => Some (compare_keys compared_keys v1 v2)
  | _, _ => None
  end.

Definition invalid_version (version1 version2 : string) : PanosException :=
  {| exc_message := "Invalid version format";
     error_code := Some "INVALID_VERSION";
     details := [("version1", DStr version1); ("version2", DStr version2)] |}.

(** [panos_common.compare_versions]: raises when a version does not parse. *)
Definition compare_versions (version1 version2 : string) : result Z :=
  match parse_panos_version version1, parse_panos_version version2 with
  | Some v1, Some v2 => Ok (compare_keys compared_keys v1 v2)
  | _, _ => Raise (Panos (invalid_version version1 version2))
  end.

(** The predicate family: [result is not None and result >= 0], ... *)
Definition panos_version_gte (version1 version2 : string) : bool :=
  match panos_version_compare version1 version2 with
  | Some r => (0 <=? r)%Z
  | None => false
  end.

Definition panos_version_lte (version1 version2 : string) : bool :=
  match panos_version_compare version1 version2 with
  | Some r => (r <=? 0)%Z
  | None => false
  end.

Definition panos_version_gt (version1 version2 : string) : bool :=
  match panos_version_compare version1 version2 with
  | Some r => (0 <? r)%Z
  | None => false
  end.

Definition panos_version_lt (version1 version2 : string) : bool :=
  match panos_version_compare version1 version2 with
  | Some r => (r <? 0)%Z
  | None => false
  end.

Definition panos_version_eq (version1 version2 : string) : bool :=
  match panos_version_compare version1 version2 with
  | Some r => (r =? 0)%Z
  | None => false
  end.

(** [panos_major_minor] *)
Definition major_minor_key (v : ParsedVersion) : string :=
  str_of_int (major v) +:+ "." +:+ str_of_int (minor v).

Definition panos_major_minor (version : string) : option string :=
  match parse_panos_version version with
  | Some parsed => Some (major_minor_key parsed)
  | None => None
  end.

(** [panos_is_hotfix] *)
Definition panos_is_hotfix (version : string) : bool :=
  match parse_panos_version version with
  | Some parsed => (0 <? hotfix parsed)%N
  | None => false
  end.

(** [panos_normalize_version] *)
Definition panos_normalize_version (version : string) : string :=
  match parse_panos_version version with
  | None => version
  | Some parsed =>
      let base := str_of_int (major parsed) +:+ "." +:+ str_of_int (minor parsed)
                  +:+ "." +:+ str_of_int (patch parsed) in
      if (0 <? hotfix parsed)%N then base +:+ "-h" +:+ str_of_int (hotfix parsed)
      else base
  end.

(** ** The order named by the design document *)

(** The order the design document names: lexicographic on
    (major, minor, patch, hotfix). *)
Definition version_key (v : ParsedVersion) : N * N * N * N :=
  (major v, minor v, patch v, hotfix v).

Definition lex_compare (k1 k2 : N * N * N * N) : comparison :=
  let '(a1, b1, c1, d1) := k1 in
  let '(a2, b2, c2, d2) := k2 in
  match (a1 ?= a2)%N with
  | Eq => match (b1 ?= b2)%N with
          | Eq => match (c1 ?= c2)%N with
                  | Eq => (d1 ?= d2)%N
                  | o => o
                  end
          | o => o
          end
  | o => o
  end.

(** LESS = -1, EQUAL = 0, GREATER = 1. *)
Definition Z_of_comparison (c : comparison) : Z :=
  match c with
  | Lt => (-1)%Z
  | Eq => 0%Z
  | Gt => 1%Z
  end.


(** ** VersionMatrixValidator: [is_upgrade_path_valid] *)

(** One entry of the caller's matrix: a dict read with
    [.get('direct_upgrade_to', [])] and [.get('intermediate_required', {})],
    so either key may be missing. *)
Record MatrixEntry := mkEntry {
  direct_upgrade_to : option (list string);
  intermediate_required : option (gmap string (list string))
}.

Definition is_upgrade_path_valid (current_version target_version : string)
    (version_matrix : gmap string MatrixEntry) : result (bool * list string) :=
  match parse_panos_version current_version,
        parse_panos_version target_version with
  | Some current, Some target =>
      (* Same version check *)
      c ←! compare_versions current_version target_version;
      if (c =? 0)%Z then Ok (true, [])
      else
        (* Downgrade check *)
        c' ←! compare_versions current_version target_version;
        if (0 <? c')%Z then Ok (false, [])
        else
          let current_major_minor := major_minor_key current in
          let target_major_minor := major_minor_key target in
          match version_matrix !! current_major_minor with
          | Some entry =>
              let valid_targets := default [] (direct_upgrade_to entry) in
              if bool_decide (target_major_minor ∈ valid_targets)
              then Ok (true, [])
              else
                let intermediate := default ∅ (intermediate_required entry) in
                match intermediate !! target_major_minor with
                | Some required => Ok (true, required)
                | None => Ok (false, [])
                end
          | None => Ok (false, [])
          end
  | _, _ => Ok (false, [])
  end.

(** The matrix of the design document's example:
    {"10.1": {direct_upgrade_to: ["10.2"],
              intermediate_required: {"11.0": ["10.2"]}}}. *)
Definition example_matrix : gmap string MatrixEntry :=
  {[ "10.1" := {| direct_upgrade_to := Some ["10.2"];
                  intermediate_required := Some {[ "11.0" := ["10.2"] ]} |} ]}.

(** ** Structured values

    What the normalizer produces and the extractors read: [None], a [str],
    a [list] or a [dict] with string keys. *)
Local Unset Elimination Schemes.

Inductive pyvalue :=
  | PyNone
  | PyStr (s : string)
  | PyList (l : list pyvalue)
  | PyDict (d : gmap string pyvalue).

(** [bool(v)] *)
Definition truthy (v : pyvalue) : bool :=
  match v with
  | PyNone => false
  | PyStr s => negb (String.eqb s "")
  | PyList l => match l with [] => false | _ => true end
  | PyDict d => negb (bool_decide (d = ∅))
  end.

(** [v == 'literal'] *)
Definition is_str (v : pyvalue) (literal : string) : bool :=
  match v with
  | PyStr s => String.eqb s literal
  | _ => false
  end.

(** [v.get(key, default)]: only a dict has the method. *)
Definition py_get (v : pyvalue) (key : string) (dflt : pyvalue)
  : result pyvalue :=
  match v with
  | PyDict d => Ok (default dflt (d !! key))
  | PyNone => Raise (AttributeError "'NoneType' object has no attribute 'get'")
  | PyStr _ => Raise (AttributeError "'str' object has no attribute 'get'")
  | PyList _ => Raise (AttributeError "'list' object has no attribute 'get'")
  end.

(** ** XmlNormalizer *)

(** An [xml.etree.ElementTree.Element]: tag, attributes, text before the
    first child, children in document order. *)
Inductive Element :=
  mkElement (tag : string) (attrib : gmap string string)
            (text : option string) (children : list Element).

Local Set Elimination Schemes.

Definition tag (e : Element) : string :=
  match e with mkElement t _ _ _ => t end.
Definition attrib (e : Element) : gmap string string :=
  match e with mkElement _ a _ _ => a end.
Definition text (e : Element) : option string :=
  match e with mkElement _ _ x _ => x end.
Definition children (e : Element) : list Element :=
  match e with mkElement _ _ _ cs => cs end.

(** The body of the loop over the children: a tag seen again turns its
    entry into a list, or extends the list. *)
Definition add_child (child_dict : gmap string pyvalue) (child_tag : string)
    (child_data : pyvalue) : gmap string pyvalue :=
  match child_dict !! child_tag with
  | Some (PyList l) => <[child_tag := PyList (l ++ [child_data])]> child_dict
  | Some v => <[child_tag := PyList [v; child_data]]> child_dict
  | None => <[child_tag := child_data]> child_dict
  end.

(** [element.text and element.text.strip()]: the stripped text when the test
    holds. *)
Definition stripped_text (x : option string) : option string :=
  match x with
  | Some t => match strip t with
              | EmptyString => None
              | s => Some s
              end
  | None => None
  end.

Fixpoint xml_element_to_dict (element : Element) : pyvalue :=
  match element with
  | mkElement _ attrib text children =>
      (* Add attributes *)
      let result : gmap string pyvalue :=
        if bool_decide (attrib = ∅) then ∅
        else {[ "@attributes" := PyDict (PyStr <$> attrib) ]} in
      (* Process children *)
      let child_dict :=
        (fix loop (cs : list Element) (child_dict : gmap string pyvalue) :=
           match cs with
           | child :: cs' =>
               loop cs' (add_child child_dict (tag child)
                           (xml_element_to_dict child))
           | [] => child_dict
           end) children ∅ in
      let result :=
        match children with
        | [] => result
        | _ => child_dict ∪ result
        end in
      (* Add text content *)
      match stripped_text text with
      | Some t =>
          if bool_decide (result = ∅) then PyStr t
          else PyDict (<["#text" := PyStr t]> result)
      | None =>
          if bool_decide (result = ∅) then PyNone else PyDict result
      end
  end.

(** All elements below [e], in document order: what [e.iter()] yields after
    [e] itself, which is what the paths [.//tag] search. *)
Fixpoint descendants (e : Element) : list Element :=
  match e with
  | mkElement _ _ _ cs =>
      (fix below (cs : list Element) : list Element :=
         match cs with
         | c :: cs' => c :: descendants c ++ below cs'
         | [] => []
         end) cs
  end.

(** [e.findall('.//name')] and [e.find('.//name')] *)
Definition findall (e : Element) (name : string) : list Element :=
  filter (λ d, tag d = name) (descendants e).

Definition find (e : Element) (name : string) : option Element :=
  head (findall e name).

(** [sep.join(parts)] *)
Fixpoint join (sep : string) (parts : list string) : string :=
  match parts with
  | [] => ""
  | [p] => p
  | p :: ps => p +:+ sep +:+ join sep ps
  end.

(** A text that is neither [None] nor empty. *)
Definition nonempty_text (x : option string) : option string :=
  match x with
  | Some EmptyString => None
  | other => other
  end.

(** [xml_string[:n]] *)
Definition str_prefix (n : nat) (s : string) : string := substring 0 n s.

(** The dict [parse_xml_response] builds. *)
Record Response := mkResponse {
  status : string;
  code : option string;
  success : bool;
  data : pyvalue;
  message : option string
}.

Definition newline : string := String (ascii_of_nat 10) EmptyString.

(** The message of the first [msg] element: its text, or the texts of its
    [line] descendants joined by newlines. *)
Definition extract_message (root : Element) : option string :=
  match find root "msg" with
  | Some msg_elem =>
      match nonempty_text (text msg_elem) with
      | Some t => Some t
      | None =>
          match findall msg_elem "line" with
          | [] => None
          | lines => Some (join newline (omap (λ l, nonempty_text (text l)) lines))
          end
      end
  | None => None
  end.

Definition xml_parse_error (reason xml_string : string) : PanosException :=
  {| exc_message := "Failed to parse XML response: " +:+ reason;
     error_code := Some "XML_PARSE_ERROR";
     details := [("raw_response", DStr (str_prefix 500 xml_string))] |}.

Section XmlNormalizer.

(** [ET.fromstring] belongs to the interpreter's library: the element tree
    of a well-formed document, or the text of the [ParseError]. *)
Variable fromstring : string → string + Element.

Definition parse_xml_response (xml_string : string) : result Response :=
  match fromstring xml_string with
  | inr root =>
      let status := default "unknown" (attrib root !! "status") in
      let code := attrib root !! "code" in
      (* Extract message if present *)
      let message := extract_message root in
      (* Extract result data *)
      let data :=
        match find root "result" with
        | Some result_elem => xml_element_to_dict result_elem
        | None => PyDict ∅
        end in
      Ok {| status := status;
            code := code;
            success := String.eqb status "success";
            data := data;
            message := message |}
  | inl reason => Raise (Panos (xml_parse_error reason xml_string))
  end.

End XmlNormalizer.

(** ** JobPoller: [wait_for_job] *)

Module Job.

(** The dict [wait_for_job] returns. *)
Record outcome := mkOutcome {
  success : bool;
  result : pyvalue;
  details : pyvalue;
  elapsed : Q
}.

End Job.

Definition job_timeout (job_id : string) (timeout : Z) (elapsed : Q)
  : PanosException :=
  {| exc_message := "Job " +:+ job_id +:+ " timed out after "
                    +:+ pretty timeout +:+ " seconds";
     error_code := Some "JOB_TIMEOUT";
     details := [("job_id", DStr job_id); ("elapsed", DNum elapsed)] |}.

(** The reads of one pass: the job record, then its status, result and
    progress, each with its fallback. *)
Definition read_job (response : Response)
  : result (pyvalue * pyvalue * pyvalue * pyvalue) :=
  status ←! py_get (data response) "job" (PyDict ∅);
  job_status ←! py_get status "status" (PyStr "UNKNOWN");
  job_result ←! py_get status "result" (PyStr "UNKNOWN");
  progress ←! py_get status "progress" (PyStr "0");
  Ok (status, job_status, job_result, progress).

(** What one pass through the body of [while True] does: leave the loop
    with a value or an exception, or sleep and go round again. *)
Inductive iteration :=
  | Leave (r : result Job.outcome)
  | Retry.

Section JobPoller.

(** The world the loop runs in.  [elapsed_at i] is the value of
    [time.time() - start_time] read at the top of pass [i], in seconds;
    [get_job_status i] is what the client's [get_job_status(job_id)]
    answers on pass [i]: a response, or the exception it raises.  The
    sleep of [poll_interval] seconds between two passes shows only in the
    clock; the optional logger appends to its own list and decides
    nothing, and is left out. *)
Variable elapsed_at : nat → Q.
Variable get_job_status : nat → result Response.

Variable job_id : string.
Variable timeout : Z.

Definition poll_once (i : nat) : iteration :=
  let elapsed := elapsed_at i in
  if Qlt_le_dec (inject_Z timeout) elapsed then
    Leave (Raise (Panos (job_timeout job_id timeout elapsed)))
  else
    (* Get job status *)
    match get_job_status i with
    | Raise e => Leave (Raise e)
    | Ok response =>
        match read_job response with
        | Raise e => Leave (Raise e)
        | Ok (status, job_status, job_result, progress) =>
            if is_str job_status "FIN" then
              Leave (Ok {| Job.success := is_str job_result "OK";
                           Job.result := job_result;
                           Job.details := status;
                           Job.elapsed := elapsed |})
            else Retry
        end
    end.

(** The loop from pass [i] on, cut after [fuel] passes: [None] when it is
    still polling then. *)
Fixpoint wait_for_job_from (fuel : nat) (i : nat)
  : option (result Job.outcome) :=
  match fuel with
  | S fuel' =>
      match poll_once i with
      | Leave r => Some r
      | Retry => wait_for_job_from fuel' (S i)
      end
  | O => None
  end.

Definition wait_for_job (fuel : nat) : option (result Job.outcome) :=
  wait_for_job_from fuel 0.

End JobPoller.

(** ** HaStateExtractor: [extract_ha_info] *)

Module Ha.

(** The dict [extract_ha_info] returns. *)
Record snapshot := mkSnapshot {
  enabled : bool;
  mode : pyvalue;
  state : pyvalue;
  peer_state : pyvalue;
  running_sync : pyvalue;
  running_sync_enabled : pyvalue;
  preemptive : pyvalue;
  priority : pyvalue;
  peer_address : pyvalue;
  raw : pyvalue
}.

End Ha.

Definition extract_ha_info (ha_response : Response) : result Ha.snapshot :=
  let data := data ha_response in
  (* Navigate to HA state info *)
  group ←! py_get data "group" (PyDict ∅);
  local_info ←! py_get group "local-info" (PyDict ∅);
  peer_info ←! py_get group "peer-info" (PyDict ∅);
  mode ←! py_get local_info "mode" (PyStr "standalone");
  state ←! py_get local_info "state" (PyStr "unknown");
  peer_state ←! py_get peer_info "state" (PyStr "unknown");
  running_sync ←! py_get local_info "running-sync" (PyStr "unknown");
  running_sync_enabled ←! py_get local_info "running-sync-enabled" (PyStr "no");
  preemptive ←! py_get local_info "preemptive" (PyStr "no");
  priority ←! py_get local_info "priority" (PyStr "0");
  peer_address ←! py_get peer_info "mgmt-ip" (PyStr "");
  Ok {| Ha.enabled := truthy group;
        Ha.mode := mode;
        Ha.state := state;
        Ha.peer_state := peer_state;
        Ha.running_sync := running_sync;
        Ha.running_sync_enabled := running_sync_enabled;
        Ha.preemptive := preemptive;
        Ha.priority := priority;
        Ha.peer_address := peer_address;
        Ha.raw := data |}.

(** ** Vocabulary of the statements *)

(** The first character of a tag the parser can produce: an XML
    NameStartChar (here below code point 256), or the brace that opens the
    namespace of a qualified tag. *)
Definition is_name_start (c : ascii) : bool :=
  let n := N_of_ascii c in
  ((n =? 58) || ((65 <=? n) && (n <=? 90)) || (n =? 95)
   || ((97 <=? n) && (n <=? 122)) || (n =? 123)
   || ((192 <=? n) && (n <=? 214)) || ((216 <=? n) && (n <=? 246))
   || (248 <=? n))%N.

Definition xml_name (t : string) : Prop :=
  match t with
  | String c _ => is_name_start c = true
  | EmptyString => False
  end.

(** The loop over the children of [xml_element_to_dict], by name. *)
Definition collect_children (cs : list Element)
    (child_dict : gmap string pyvalue) : gmap string pyvalue :=
  fold_left (λ acc child,
               add_child acc (tag child) (xml_element_to_dict child))
            cs child_dict.

(** What a child dict holds for a tag, given the data of the children with
    that tag in document order. *)
Definition packed (l : list pyvalue) : option pyvalue :=
  match l with
  | [] => None
  | [v] => Some v
  | _ => Some (PyList l)
  end.

Definition is_list (v : pyvalue) : Prop :=
  match v with
  | PyList _ => True
  | _ => False
  end.

(** The children of an element that carry a given tag. *)
Definition children_tagged (t : string) (cs : list Element) : list Element :=
  filter (λ c, tag c = t) cs.

(** ** Sample documents

    Two payloads and what the library's parser answers on them: the
    envelope [<response status="success"><result><a>1</a><a>2</a></result>
    </response>] and a document cut short. *)
Definition dquote : string := String (ascii_of_nat 34) EmptyString.

Definition sample_xml : string :=
  "<response status=" +:+ dquote +:+ "success" +:+ dquote
  +:+ "><result><a>1</a><a>2</a></result></response>".

Definition leaf (t x : string) : Element := mkElement t ∅ (Some x) [].

Definition sample_result : Element :=
  mkElement "result" ∅ None [leaf "a" "1"; leaf "a" "2"].

Definition sample_root : Element :=
  mkElement "response" {[ "status" := "success" ]} None [sample_result].

Definition truncated_xml : string := "<response><result>".

Definition sample_fromstring (s : string) : string + Element :=
  if String.eqb s sample_xml then inr sample_root
  else inl "no element found: line 1, column 18".

(** ** Vocabulary of the job poller's statements *)

(** The job record [response.get('data', {}).get('job', {})] of a response
    whose data is a map and whose job entry, when there is one, is a map. *)
Definition job_of (response : Response) : option (gmap string pyvalue) :=
  match data response with
  | PyDict d =>
      match d !! "job" with
      | None => Some ∅
      | Some (PyDict job) => Some job
      | Some _ => None
      end
  | _ => None
  end.

(** [job.get('status', 'UNKNOWN')] and [job.get('result', 'UNKNOWN')] *)
Definition job_status (job : gmap string pyvalue) : pyvalue :=
  default (PyStr "UNKNOWN") (job !! "status").

Definition job_result (job : gmap string pyvalue) : pyvalue :=
  default (PyStr "UNKNOWN") (job !! "result").

(** A response that reports a job with the given status and result. *)
Definition job_response (job_status job_result : string) : Response :=
  {| status := "success";
     code := None;
     success := true;
     data := PyDict {[ "job" := PyDict (<["status" := PyStr job_status]>
                                          {[ "result" := PyStr job_result ]}) ]};
     message := None |}.

(** The stream of statuses of the design document's example, one poll every
    thirty seconds. *)
Definition sample_clock (i : nat) : Q := inject_Z (30 * Z.of_nat i).

Definition sample_stream (i : nat) : result Response :=
  Ok (job_response (nth i ["PEND"; "PEND"; "FIN"] "FIN") "OK").

(** A job that never finishes. *)
Definition pending_stream (i : nat) : result Response :=
  Ok (job_response "PEND" "PEND").

(** ** Sample HA responses *)

Definition response_with (d : pyvalue) : Response :=
  {| status := "success"; code := None; success := true;
     data := d; message := None |}.

Definition standalone_snapshot (d : pyvalue) : Ha.snapshot :=
  {| Ha.enabled := false;
     Ha.mode := PyStr "standalone";
     Ha.state := PyStr "unknown";
     Ha.peer_state := PyStr "unknown";
     Ha.running_sync := PyStr "unknown";
     Ha.running_sync_enabled := PyStr "no";
     Ha.preemptive := PyStr "no";
     Ha.priority := PyStr "0";
     Ha.peer_address := PyStr "";
     Ha.raw := d |}.

(** Pass [i] finds the job still running: the budget is not exceeded, the
    client answers, and the job record does not say FIN. *)
Definition still_running (elapsed_at : nat → Q)
    (get_job_status : nat → result Response) (timeout : Z) (i : nat) : Prop :=
  (elapsed_at i <= inject_Z timeout)%Q
  ∧ ∃ response job, get_job_status i = Ok response
                    ∧ job_of response = Some job
                    ∧ job_status job ≠ PyStr "FIN".

(** * Further definitions: the rest of the modules *)

(** ** The canonical text of a parsed version *)

(** The match whose text [panos_normalize_version] prints for a parsed
    version: the decimal components, the hotfix when it is positive, never
    the candidate. *)
Definition canonical_match (v : ParsedVersion) : version_match :=
  {| group1 := str_of_int (major v);
     group2 := str_of_int (minor v);
     group3 := str_of_int (patch v);
     group4 := if (0 <? hotfix v)%N then Some (str_of_int (hotfix v)) else None;
     group5 := None |}.

(** The order on parsed versions behind the comparators, as a proposition. *)
Definition version_lt (v1 v2 : ParsedVersion) : Prop :=
  (major v1 < major v2
   ∨ (major v1 = major v2
      ∧ (minor v1 < minor v2
         ∨ (minor v1 = minor v2
            ∧ (patch v1 < patch v2
               ∨ (patch v1 = patch v2 ∧ hotfix v1 < hotfix v2))))))%N.

Definition version_same (v1 v2 : ParsedVersion) : Prop :=
  major v1 = major v2 ∧ minor v1 = minor v2
  ∧ patch v1 = patch v2 ∧ hotfix v1 = hotfix v2.

(** The text of a release and of one of its hotfixes, from the numbers. *)
Definition release_text (M m p : N) : string :=
  str_of_int M +:+ "." +:+ str_of_int m +:+ "." +:+ str_of_int p.

Definition hotfix_text (M m p h : N) : string :=
  release_text M m p +:+ "-h" +:+ str_of_int h.

(** ** Sanitizers: [sanitize_hostname] and [sanitize_filename] *)

(** The class [\w] on code points below 256: digits, letters, the
    underscore, and the Latin-1 letters and numerals. *)
Definition is_word (c : ascii) : bool :=
  let n := N_of_ascii c in
  (((48 <=? n) && (n <=? 57)) || ((65 <=? n) && (n <=? 90)) || (n =? 95)
   || ((97 <=? n) && (n <=? 122)) || (n =? 170)
   || ((178 <=? n) && (n <=? 179)) || (n =? 181)
   || ((185 <=? n) && (n <=? 186)) || ((188 <=? n) && (n <=? 190))
   || ((192 <=? n) && (n <=? 214)) || ((216 <=? n) && (n <=? 246))
   || (248 <=? n))%N.

Fixpoint string_map (f : ascii → ascii) (s : string) : string :=
  match s with
  | String c s' => String (f c) (string_map f s')
  | EmptyString => EmptyString
  end.

Fixpoint string_forall (P : ascii → bool) (s : string) : bool :=
  match s with
  | String c s' => P c && string_forall P s'
  | EmptyString => true
  end.

(** The characters [[^\w\-\.]] does not match. *)
Definition hostname_safe (c : ascii) : bool :=
  is_word c || Ascii.eqb c "-" || Ascii.eqb c ".".

(** [re.sub(r'[^\w\-\.]', '_', ...)] on one character. *)
Definition hostname_char (c : ascii) : ascii :=
  if hostname_safe c then c else "_"%char.

(** [panos_common.sanitize_hostname] *)
Definition sanitize_hostname (hostname : string) : string :=
  match hostname with
  | EmptyString => "unknown"
  | _ => str_prefix 63 (string_map hostname_char hostname)
  end.

(** The characters [[^\w\-]] does not match. *)
Definition filename_safe (c : ascii) : bool :=
  is_word c || Ascii.eqb c "-".

Definition filename_char (c : ascii) : ascii :=
  if filename_safe c then c else "_"%char.

(** [re.sub(r'_+', '_', ...)]: an underscore followed by another one is
    dropped, so each run keeps its last one. *)
Fixpoint squeeze_underscores (s : string) : string :=
  match s with
  | String c s' =>
      match s' with
      | String c' _ =>
          if Ascii.eqb c "_" && Ascii.eqb c' "_" then squeeze_underscores s'
          else String c (squeeze_underscores s')
      | EmptyString => String c EmptyString
      end
  | EmptyString => EmptyString
  end.

(** [s.strip('_')] *)
Fixpoint lstrip_underscores (s : string) : string :=
  match s with
  | String c s' => if Ascii.eqb c "_" then lstrip_underscores s' else s
  | EmptyString => EmptyString
  end.

Fixpoint rstrip_underscores (s : string) : string :=
  match s with
  | String c s' =>
      match rstrip_underscores s' with
      | EmptyString =>
          if Ascii.eqb c "_" then EmptyString else String c EmptyString
      | r => String c r
      end
  | EmptyString => EmptyString
  end.

Definition strip_underscores (s : string) : string :=
  rstrip_underscores (lstrip_underscores s).

(** [panos_filters.sanitize_filename] *)
Definition sanitize_filename (name : string) : string :=
  match name with
  | EmptyString => "unknown"
  | _ =>
      let sanitized := string_map filename_char name in
      let sanitized := squeeze_underscores sanitized in
      strip_underscores (str_prefix 63 sanitized)
  end.

(** No two underscores in a row. *)
Fixpoint no_double_underscore (s : string) : bool :=
  match s with
  | String c s' =>
      match s' with
      | String c' _ =>
          negb (Ascii.eqb c "_" && Ascii.eqb c' "_") && no_double_underscore s'
      | EmptyString => true
      end
  | EmptyString => true
  end.

(** The first and the last character of a string. *)
Definition first_char (s : string) : option ascii :=
  match s with
  | String c _ => Some c
  | EmptyString => None
  end.

Fixpoint last_char (s : string) : option ascii :=
  match s with
  | String c EmptyString => Some c
  | String _ s' => last_char s'
  | EmptyString => None
  end.

(** A character [sanitize_filename] turns into an underscore (or leaves
    one). *)
Definition becomes_underscore (c : ascii) : bool :=
  Ascii.eqb (filename_char c) "_".

Definition is_underscore (c : ascii) : bool := Ascii.eqb c "_".

(** ** HA role filters *)

(** [c.lower()] on code points below 256: the capitals A-Z and the Latin-1
    capitals move up by 32. *)
Definition lower_char (c : ascii) : ascii :=
  let n := N_of_ascii c in
  if (((65 <=? n) && (n <=? 90)) || ((192 <=? n) && (n <=? 214))
      || ((216 <=? n) && (n <=? 222)))%N
  then ascii_of_N (n + 32) else c.

(** [s.lower()] *)
Definition lower (s : string) : string := string_map lower_char s.

(** [x in [literals]] for strings. *)
Definition str_in (x : string) (literals : list string) : bool :=
  existsb (String.eqb x) literals.

Definition ha_state_is_active (ha_state : string) : bool :=
  match ha_state with
  | EmptyString => false
  | _ => str_in (lower ha_state) ["active"; "active-primary"; "primary"]
  end.

Definition ha_state_is_passive (ha_state : string) : bool :=
  match ha_state with
  | EmptyString => false
  | _ => str_in (lower ha_state) ["passive"; "active-secondary"; "secondary"]
  end.

Definition ha_state_is_standalone (ha_state : string) : bool :=
  match ha_state with
  | EmptyString => true
  | _ => str_in (lower ha_state) ["standalone"; "disabled"; ""]
  end.

(** ** Job filters: [extract_job_id] *)

(** The interpreter's exceptions the filters and the client can meet beside
    those of [exn]; [PanosDetailed e key value] is the [PanosException] [e]
    whose details also hold a response dict under [key], which [detail]
    has no room for. *)
Inductive pyerror :=
  | PyExn (e : exn)
  | PanosDetailed (e : PanosException) (key : string) (value : Response)
  | TypeError (what : string)
  | KeyError (key : string).

Inductive attempt (A : Type) :=
  | Returns (a : A)
  | Fails (e : pyerror).
Arguments Returns {A} a.
Arguments Fails {A} e.

Definition attempt_bind {A B} (m : attempt A) (k : A → attempt B)
  : attempt B :=
  match m with
  | Returns a => k a
  | Fails e => Fails e
  end.

Notation "x ←? m ; k" := (attempt_bind m (λ x, k))
  (at level 20, m at level 100, k at level 200, only parsing).

Definition lift {A} (r : result A) : attempt A :=
  match r with
  | Ok a => Returns a
  | Raise e => Fails (PyExn e)
  end.

(** [key in v]: a key of a dict, an element of a list, a substring of a
    str. *)
Definition py_contains (key : string) (v : pyvalue) : attempt bool :=
  match v with
  | PyDict d => Returns (bool_decide (is_Some (d !! key)))
  | PyList l => Returns (existsb (λ x, is_str x key) l)
  | PyStr s => Returns (match index 0 key s with
                        | Some _ => true
                        | None => false
                        end)
  | PyNone => Fails (TypeError "argument of type 'NoneType' is not iterable")
  end.

(** [v[key]] for a string key. *)
Definition py_item (v : pyvalue) (key : string) : attempt pyvalue :=
  match v with
  | PyDict d => match d !! key with
                | Some x => Returns x
                | None => Fails (KeyError key)
                end
  | PyList _ =>
      Fails (TypeError "list indices must be integers or slices, not str")
  | PyStr _ => Fails (TypeError "string indices must be integers, not 'str'")
  | PyNone => Fails (TypeError "'NoneType' object is not subscriptable")
  end.

Definition is_dict (v : pyvalue) : bool :=
  match v with
  | PyDict _ => true
  | _ => false
  end.

(** [panos_filters.extract_job_id], on a response dict (which is never
    empty, so the first test of the source never fires). *)
Definition extract_job_id (api_response : Response) : attempt pyvalue :=
  (* Try common paths *)
  let data := data api_response in
  (* Direct job ID *)
  has_job ←? py_contains "job" data;
  if has_job then
    job ←? py_item data "job";
    if is_dict job then
      id ←? lift (py_get job "id" PyNone);
      if truthy id then Returns id
      else
        attributes ←? lift (py_get job "@attributes" (PyDict ∅));
        lift (py_get attributes "id" PyNone)
    else Returns job
  else
    (* Result contains job *)
    has_result ←? py_contains "result" data;
    if has_result then
      result ←? py_item data "result";
      if is_dict result then lift (py_get result "job" PyNone)
      else Returns PyNone
    else Returns PyNone.

(** ** [PanosLogger] *)

Module Log.

(** One entry of [logs]. *)
Record entry := mkEntry {
  timestamp : string;
  level : string;
  module_name : string;
  message : string
}.

End Log.

(** The logger object: its fields, with [logs] in the order of the calls. *)
Record PanosLogger := mkLogger {
  module_name : string;
  verbosity : Z;
  logs : list Log.entry
}.

(** [PanosLogger(module_name, verbosity)] *)
Definition new_logger (module_name : string) (verbosity : Z) : PanosLogger :=
  {| module_name := module_name; verbosity := verbosity; logs := [] |}.

(** [_log]: [now] is what [datetime.utcnow().isoformat()] answers during
    the call. *)
Definition _log (now level message : string) (self : PanosLogger)
  : Log.entry * PanosLogger :=
  let entry := {| Log.timestamp := now;
                  Log.level := level;
                  Log.module_name := module_name self;
                  Log.message := message |} in
  (entry, {| module_name := module_name self;
             verbosity := verbosity self;
             logs := logs self ++ [entry] |}).

Definition logger_debug (now message : string) (self : PanosLogger)
  : option Log.entry * PanosLogger :=
  if (3 <=? verbosity self)%Z
  then let '(e, self') := _log now "DEBUG" message self in (Some e, self')
  else (None, self).

Definition logger_info (now message : string) (self : PanosLogger)
  : option Log.entry * PanosLogger :=
  if (1 <=? verbosity self)%Z
  then let '(e, self') := _log now "INFO" message self in (Some e, self')
  else (None, self).

Definition logger_warning (now message : string) (self : PanosLogger)
  : option Log.entry * PanosLogger :=
  let '(e, self') := _log now "WARNING" message self in (Some e, self').

Definition logger_error (now message : string) (self : PanosLogger)
  : option Log.entry * PanosLogger :=
  let '(e, self') := _log now "ERROR" message self in (Some e, self').

Definition get_logs (self : PanosLogger) : list Log.entry := logs self.

(** A call of one of the four methods, with the clock reading it sees. *)
Inductive log_method := Debug | Info | Warning | Error.

Record log_call := mkCall {
  call_method : log_method;
  call_now : string;
  call_message : string
}.

Definition run_call (self : PanosLogger) (c : log_call) : PanosLogger :=
  snd (match call_method c with
       | Debug => logger_debug
       | Info => logger_info
       | Warning => logger_warning
       | Error => logger_error
       end (call_now c) (call_message c) self).

Definition run_calls (self : PanosLogger) (calls : list log_call)
  : PanosLogger :=
  fold_left run_call calls self.

Definition level_name (m : log_method) : string :=
  match m with
  | Debug => "DEBUG"
  | Info => "INFO"
  | Warning => "WARNING"
  | Error => "ERROR"
  end.

(** Whether a logger of the given verbosity keeps a call. *)
Definition kept (verbosity : Z) (c : log_call) : bool :=
  match call_method c with
  | Debug => (3 <=? verbosity)%Z
  | Info => (1 <=? verbosity)%Z
  | Warning | Error => true
  end.

Definition entry_of (module_name : string) (c : log_call) : Log.entry :=
  {| Log.timestamp := call_now c;
     Log.level := level_name (call_method c);
     Log.module_name := module_name;
     Log.message := call_message c |}.

(** ** Uptime filters: [format_uptime] and [uptime_minutes] *)

Module Uptime.

(** The dict [format_uptime] returns; the early return for a missing
    uptime has no [total_minutes] key. *)
Record parsed := mkParsed {
  days : N;
  hours : N;
  minutes : N;
  total_minutes : option N;
  raw : string
}.

End Uptime.

(** [x?] for a literal character: consumed when it is there. *)
Definition re_opt_char (c : ascii) (s : string) : string :=
  match re_char c s with
  | Some r => r
  | None => s
  end.

(** [re.match(r'(\d+)\s*days?,?\s*(\d+):(\d+):(\d+)', s)]: groups 1 to 3.
    Every repetition of the pattern is followed by something it cannot
    itself consume, so the longest choice is the only one that can
    succeed. *)
Definition re_match_days (s : string) : option (string * string * string) :=
  match re_digits s with
  | Some (g1, s1) =>
    match re_char "d" (lstrip s1) with
    | Some s2 =>
      match re_char "a" s2 with
      | Some s3 =>
        match re_char "y" s3 with
        | Some s4 =>
          match re_digits (lstrip (re_opt_char "," (re_opt_char "s" s4))) with
          | Some (g2, s5) =>
            match re_char ":" s5 with
            | Some s6 =>
              match re_digits s6 with
              | Some (g3, s7) =>
                match re_char ":" s7 with
                | Some s8 =>
                  match re_digits s8 with
                  | Some _ => Some (g1, g2, g3)
                  | None => None
                  end
                | None => None
                end
              | None => None
              end
            | None => None
            end
          | None => None
          end
        | None => None
        end
      | None => None
      end
    | None => None
    end
  | None => None
  end.

(** [re.match(r'(\d+):(\d+):(\d+)', s)]: groups 1 and 2. *)
Definition re_match_clock (s : string) : option (string * string) :=
  match re_digits s with
  | Some (g1, s1) =>
    match re_char ":" s1 with
    | Some s2 =>
      match re_digits s2 with
      | Some (g2, s3) =>
        match re_char ":" s3 with
        | Some s4 =>
          match re_digits s4 with
          | Some _ => Some (g1, g2)
          | None => None
          end
        | None => None
        end
      | None => None
      end
    | None => None
    end
  | None => None
  end.

Definition format_uptime (uptime_string : string) : Uptime.parsed :=
  match uptime_string with
  | EmptyString =>
      {| Uptime.days := 0; Uptime.hours := 0; Uptime.minutes := 0;
         Uptime.total_minutes := None; Uptime.raw := "" |}
  | _ =>
      let '(days, hours, minutes) :=
        match re_match_days uptime_string with
        | Some (g1, g2, g3) =>
            (int_of_digits g1, int_of_digits g2, int_of_digits g3)
        | None =>
            match re_match_clock uptime_string with
            | Some (g1, g2) => (0, int_of_digits g1, int_of_digits g2)
            | None => (0, 0, 0)
            end
        end%N in
      {| Uptime.days := days;
         Uptime.hours := hours;
         Uptime.minutes := minutes;
         Uptime.total_minutes :=
           Some ((days * 24 * 60) + (hours * 60) + minutes)%N;
         Uptime.raw := uptime_string |}
  end.

(** [parsed['total_minutes']] *)
Definition uptime_minutes (uptime_string : string) : attempt N :=
  match Uptime.total_minutes (format_uptime uptime_string) with
  | Some n => Returns n
  | None => Fails (KeyError "total_minutes")
  end.

(** The texts the appliance prints: "D days, H:M:S" and "H:M:S". *)
Definition clock_text (h m s : N) : string :=
  str_of_int h +:+ ":" +:+ str_of_int m +:+ ":" +:+ str_of_int s.

Definition days_text (d h m s : N) : string :=
  str_of_int d +:+ " days, " +:+ clock_text h m s.

(** ** [dict_to_xml_cmd] *)

(** The command documents the filter is given: a dict with its items in
    insertion order, a list, [None], or a scalar by its [str]. *)
Local Unset Elimination Schemes.

Inductive cmdvalue :=
  | CDict (items : list (string * cmdvalue))
  | CList (items : list cmdvalue)
  | CNone
  | CStr (s : string).

Local Set Elimination Schemes.

(** [f"<{key}>{inner}</{key}>"] *)
Definition xml_tagged (key inner : string) : string :=
  "<" +:+ key +:+ ">" +:+ inner +:+ "</" +:+ key +:+ ">".

Fixpoint build_xml (data : cmdvalue) : string :=
  match data with
  | CDict items =>
      (fix parts (items : list (string * cmdvalue)) : string :=
         match items with
         | (key, value) :: rest =>
             xml_tagged key (build_xml value) +:+ parts rest
         | [] => ""
         end) items
  | CList items =>
      (fix parts (items : list cmdvalue) : string :=
         match items with
         | item :: rest => build_xml item +:+ parts rest
         | [] => ""
         end) items
  | CNone => ""
  | CStr s => s
  end.

Definition dict_to_xml_cmd (cmd_dict : cmdvalue) (root_tag : string)
  : string :=
  xml_tagged root_tag (build_xml cmd_dict).

(** ** The client's command templates *)

Definition get_system_info_cmd : string :=
  "<show><system><info></info></system></show>".

Definition get_ha_state_cmd : string :=
  "<show><high-availability><state></state></high-availability></show>".

Definition get_all_jobs_cmd : string :=
  "<show><jobs><all></all></jobs></show>".

Definition reboot_device_cmd : string :=
  "<request><restart><system></system></restart></request>".

Definition get_panorama_managed_devices_cmd : string :=
  "<show><devices><all></all></devices></show>".

Definition get_job_status_cmd (job_id : string) : string :=
  "<show><jobs><id>" +:+ job_id +:+ "</id></jobs></show>".

Definition download_software_cmd (version : string) (sync : bool) : string :=
  let sync_str := if sync then "yes" else "no" in
  "<request><system><software><download><sync>" +:+ sync_str
  +:+ "</sync><version>" +:+ version
  +:+ "</version></download></software></system></request>".

Definition install_software_cmd (version : string) : string :=
  "<request><system><software><install><version>" +:+ version
  +:+ "</version></install></software></system></request>".

(** A dict with one item. *)
Definition one (key : string) (value : cmdvalue) : cmdvalue :=
  CDict [(key, value)].

(** ** The API client: [PanosApiClient] *)

Module Net.

(** What [urllib.request.urlopen] does with a request: the decoded body of
    the answer, or one of the two errors the client catches. *)
Inductive outcome :=
  | Body (xml_response : string)
  | HTTPError (code : Z) (reason : string)
  | URLError (reason : string).

(** [str(e)] for the two errors. *)
Definition error_text (o : outcome) : string :=
  match o with
  | HTTPError code reason => "HTTP Error " +:+ pretty code +:+ ": " +:+ reason
  | URLError reason => "<urlopen error " +:+ reason +:+ ">"
  | Body _ => ""
  end.

(** The SSL context: host name check and certificate verification. *)
Record context := mkContext {
  check_hostname : bool;
  verify_required : bool
}.

Record request := mkRequest {
  url : string;
  method : string;
  data : option string;
  headers : list (string * string);
  timeout : Z;
  ssl_context : context
}.

End Net.

Module Client.

(** The fields of the client object; [api_key] is [None], the key given to
    the constructor, or the key read from a keygen response. *)
Record t := mk {
  host : string;
  username : option string;
  password : option string;
  api_key : pyvalue;
  validate_certs : bool;
  timeout : Z;
  port : Z;
  logger : PanosLogger
}.

Definition set_api_key (key : pyvalue) (self : t) : t :=
  {| host := host self; username := username self;
     password := password self; api_key := key;
     validate_certs := validate_certs self; timeout := timeout self;
     port := port self; logger := logger self |}.

Definition set_logger (lg : PanosLogger) (self : t) : t :=
  {| host := host self; username := username self;
     password := password self; api_key := api_key self;
     validate_certs := validate_certs self; timeout := timeout self;
     port := port self; logger := lg |}.

(** What a method sees and leaves of the world: the requests sent so far,
    oldest first, and how often the clock has been read. *)
Record world := mkWorld {
  sent : list Net.request;
  ticks : nat
}.

End Client.

(** [not self.username]: [None] or the empty string. *)
Definition missing (x : option string) : bool :=
  match x with
  | Some EmptyString | None => true
  | Some _ => false
  end.

(** [f"{x}"] for an optional string. *)
Definition format_optional (x : option string) : string :=
  match x with
  | Some s => s
  | None => "None"
  end.

(** [params.get(key)] in a parameter dict kept in insertion order. *)
Fixpoint param_get (key : string) (params : list (string * pyvalue))
  : option pyvalue :=
  match params with
  | (k, v) :: rest => if String.eqb k key then Some v else param_get key rest
  | [] => None
  end.

(** [params[key] = value]: in place when the key is there, at the end
    otherwise. *)
Fixpoint param_set (key : string) (value : pyvalue)
    (params : list (string * pyvalue)) : list (string * pyvalue) :=
  match params with
  | (k, v) :: rest =>
      if String.eqb k key then (k, value) :: rest
      else (k, v) :: param_set key value rest
  | [] => [(key, value)]
  end.

Definition auth_missing : PanosException :=
  {| exc_message := "Either api_key or username/password must be provided";
     error_code := Some "AUTH_MISSING";
     details := [] |}.

Definition keygen_failed (message : option string) : PanosException :=
  {| exc_message := "Failed to generate API key: " +:+ format_optional message;
     error_code := Some "KEYGEN_FAILED";
     details := [] |}.

Definition keygen_no_key : PanosException :=
  {| exc_message := "API key not found in response";
     error_code := Some "KEYGEN_NO_KEY";
     details := [] |}.

Definition connection_failed (text host : string) : PanosException :=
  {| exc_message := "Connection failed: " +:+ text;
     error_code := Some "CONNECTION_ERROR";
     details := [("host", DStr host)] |}.

Definition connection_error (text host : string) : PanosException :=
  {| exc_message := "Connection error: " +:+ text;
     error_code := Some "CONNECTION_ERROR";
     details := [("host", DStr host)] |}.

Definition http_error (code : Z) (reason : string) : PanosException :=
  {| exc_message := "HTTP error " +:+ pretty code +:+ ": " +:+ reason;
     error_code := Some "HTTP_ERROR";
     details := [("code", DNum (inject_Z code)); ("reason", DStr reason)] |}.

Section ApiClient.

(** The library and the world around the client: the XML parser, the URL
    encoder, the network (which may answer by what was sent before) and the
    clock of the logger, by number of readings. *)
Variable fromstring : string → string + Element.
Variable urlencode : list (string * pyvalue) → string.
Variable urlopen : list Net.request → Net.request → Net.outcome.
Variable utcnow : nat → string.

(** A method: from the object and the world to what it returns or raises,
    the object and the world after it. *)
Definition method (A : Type) : Type :=
  Client.t → Client.world → attempt A * Client.t * Client.world.

Definition base_url (self : Client.t) : string :=
  "https://" +:+ Client.host self +:+ ":" +:+ pretty (Client.port self).

(** [_create_ssl_context] *)
Definition _create_ssl_context (self : Client.t) : Net.context :=
  if Client.validate_certs self
  then {| Net.check_hostname := true; Net.verify_required := true |}
  else {| Net.check_hostname := false; Net.verify_required := false |}.

(** A call of the client's logger; the clock is read when the entry is
    kept. *)
Definition client_log (m : log_method) (message : string)
    (self : Client.t) (w : Client.world) : Client.t * Client.world :=
  let call := {| call_method := m;
                 call_now := utcnow (Client.ticks w);
                 call_message := message |} in
  (Client.set_logger (run_call (Client.logger self) call) self,
   if kept (verbosity (Client.logger self)) call
   then {| Client.sent := Client.sent w; Client.ticks := S (Client.ticks w) |}
   else w).

(** [urlopen(request, ...)]: the request joins those sent. *)
Definition send (req : Net.request) (w : Client.world)
  : Net.outcome * Client.world :=
  (urlopen (Client.sent w) req,
   {| Client.sent := Client.sent w ++ [req]; Client.ticks := Client.ticks w |}).

Definition _get_api_key : method pyvalue := λ self w,
  if truthy (Client.api_key self) then (Returns (Client.api_key self), self, w)
  else if missing (Client.username self) || missing (Client.password self)
  then (Fails (PyExn (Panos auth_missing)), self, w)
  else
    (* Generate API key from credentials *)
    let params :=
      [("type", PyStr "keygen");
       ("user", PyStr (default "" (Client.username self)));
       ("password", PyStr (default "" (Client.password self)))] in
    let url := base_url self +:+ "/api/?" +:+ urlencode params in
    let request :=
      {| Net.url := url; Net.method := "GET"; Net.data := None;
         Net.headers := []; Net.timeout := Client.timeout self;
         Net.ssl_context := _create_ssl_context self |} in
    let '(answer, w) := send request w in
    match answer with
    | Net.Body xml_response =>
        match parse_xml_response fromstring xml_response with
        | Raise e => (Fails (PyExn e), self, w)
        | Ok parsed =>
            if negb (success parsed)
            then (Fails (PyExn (Panos (keygen_failed (message parsed)))),
                  self, w)
            else
              (* Extract key from response *)
              match py_get (data parsed) "key" PyNone with
              | Raise e => (Fails (PyExn e), self, w)
              | Ok key =>
                  if negb (truthy key)
                  then (Fails (PyExn (Panos keygen_no_key)), self, w)
                  else
                    let self := Client.set_api_key key self in
                    let '(self, w) :=
                      client_log Info "API key generated successfully"
                        self w in
                    (Returns key, self, w)
              end
        end
    | e => (Fails (PyExn (Panos (connection_failed (Net.error_text e)
                                   (Client.host self)))), self, w)
    end.

(** The text of the debug line of a request. *)
Definition request_line (params : list (string * pyvalue)) : string :=
  let show (v : option pyvalue) (dflt : string) :=
    match v with
    | Some (PyStr s) => s
    | _ => dflt
    end in
  "API request: " +:+ show (param_get "type" params) "None" +:+ " - "
  +:+ show (param_get "cmd" params)
        (show (param_get "action" params) "N/A").

(** [_make_request]; the parameters hold strings. *)
Definition _make_request (params : list (string * pyvalue))
    (http_method : string) (data : option string) : method Response :=
  λ self w,
  match _get_api_key self w with
  | (Fails e, self, w) => (Fails e, self, w)
  | (Returns api_key, self, w) =>
      let params := param_set "key" api_key params in
      let url := base_url self +:+ "/api/?" +:+ urlencode params in
      let '(self, w) := client_log Debug (request_line params) self w in
      let request :=
        match nonempty_text data with
        | Some body =>
            {| Net.url := url; Net.method := http_method;
               Net.data := Some body;
               Net.headers :=
                 [("Content-Type", "application/x-www-form-urlencoded")];
               Net.timeout := Client.timeout self;
               Net.ssl_context := _create_ssl_context self |}
        | None =>
            {| Net.url := url; Net.method := http_method; Net.data := None;
               Net.headers := []; Net.timeout := Client.timeout self;
               Net.ssl_context := _create_ssl_context self |}
        end in
      let '(answer, w) := send request w in
      match answer with
      | Net.Body xml_response =>
          match parse_xml_response fromstring xml_response with
          | Raise e => (Fails (PyExn e), self, w)
          | Ok parsed =>
              let '(self, w) :=
                client_log Debug
                  ("API response status: " +:+ status parsed) self w in
              (Returns parsed, self, w)
          end
      | Net.HTTPError code reason =>
          (Fails (PyExn (Panos (http_error code reason))), self, w)
      | Net.URLError reason =>
          (Fails (PyExn (Panos (connection_error (Net.error_text answer)
                                  (Client.host self)))), self, w)
      end
  end.

(** [op_command]: [target] is [None] or a serial; an empty one is left
    out. *)
Definition op_command (cmd : string) (target : option string)
  : method Response :=
  let params := [("type", PyStr "op"); ("cmd", PyStr cmd)] in
  let params :=
    match nonempty_text target with
    | Some t => param_set "target" (PyStr t) params
    | None => params
    end in
  _make_request params "GET" None.

Definition get_system_info (target : option string) : method Response :=
  op_command get_system_info_cmd target.

Definition get_job_status (job_id : string) (target : option string)
  : method Response :=
  op_command (get_job_status_cmd job_id) target.

Definition get_panorama_managed_devices : method Response :=
  op_command get_panorama_managed_devices_cmd None.

End ApiClient.

(** ** Device directory and connectivity test *)

Module Device.

(** The dict [get_device_by_name] and [get_device_by_serial] return. *)
Record info := mkInfo {
  hostname : pyvalue;
  serial : pyvalue;
  ip_address : pyvalue;
  model : pyvalue;
  sw_version : pyvalue;
  connected : pyvalue;
  ha_state : pyvalue;
  ha_peer_serial : pyvalue;
  raw : pyvalue
}.

End Device.

Module Connectivity.

(** The three dicts [test_connectivity] returns. *)
Inductive report :=
  | Connected (hostname model serial sw_version uptime : pyvalue)
  | Refused (error : option string)
  | Failed (error : string) (error_code : option string).

End Connectivity.

(** [device.get('@attributes', {}).get('name', device.get('serial', ''))] *)
Definition device_serial (device : pyvalue) : result pyvalue :=
  attributes ←! py_get device "@attributes" (PyDict ∅);
  fallback ←! py_get device "serial" (PyStr "");
  py_get attributes "name" fallback.

(** The dict literal both lookups return for [device]. *)
Definition device_info (hostname serial device : pyvalue)
  : result Device.info :=
  ip_address ←! py_get device "ip-address" (PyStr "");
  model ←! py_get device "model" (PyStr "");
  sw_version ←! py_get device "sw-version" (PyStr "");
  connected ←! py_get device "connected" (PyStr "no");
  ha ←! py_get device "ha" (PyDict ∅);
  ha_state ←! py_get ha "state" (PyStr "standalone");
  ha' ←! py_get device "ha" (PyDict ∅);
  peer ←! py_get ha' "peer" (PyDict ∅);
  ha_peer_serial ←! py_get peer "serial" (PyStr "");
  Ok {| Device.hostname := hostname;
        Device.serial := serial;
        Device.ip_address := ip_address;
        Device.model := model;
        Device.sw_version := sw_version;
        Device.connected := connected;
        Device.ha_state := ha_state;
        Device.ha_peer_serial := ha_peer_serial;
        Device.raw := device |}.

(** [hostname.lower()]: only a str has the method. *)
Definition py_lower (v : pyvalue) : result string :=
  match v with
  | PyStr s => Ok (lower s)
  | PyNone =>
      Raise (AttributeError "'NoneType' object has no attribute 'lower'")
  | PyList _ => Raise (AttributeError "'list' object has no attribute 'lower'")
  | PyDict _ => Raise (AttributeError "'dict' object has no attribute 'lower'")
  end.

Definition device_not_found_by_name (device_name : string) : PanosException :=
  {| exc_message := "Device '" +:+ device_name +:+ "' not found in Panorama";
     error_code := Some "DEVICE_NOT_FOUND";
     details := [("device_name", DStr device_name)] |}.

Definition device_not_found_by_serial (serial : string) : PanosException :=
  {| exc_message := "Device with serial '" +:+ serial +:+ "' not found";
     error_code := Some "DEVICE_NOT_FOUND";
     details := [("serial", DStr serial)] |}.

Definition device_lookup_failed : PanosException :=
  {| exc_message := "Failed to retrieve managed devices";
     error_code := Some "DEVICE_LOOKUP_FAILED";
     details := [] |}.

(** The loop of [get_device_by_name] over the entries, and what follows
    it. *)
Fixpoint search_by_name (device_name : string) (devices : list pyvalue)
  : result Device.info :=
  match devices with
  | device :: rest =>
      hostname ←! py_get device "hostname" (PyStr "");
      lowered ←! py_lower hostname;
      if String.eqb lowered (lower device_name) then
        serial ←! device_serial device;
        device_info hostname serial device
      else search_by_name device_name rest
  | [] => Raise (Panos (device_not_found_by_name device_name))
  end.

Fixpoint search_by_serial (serial : string) (devices : list pyvalue)
  : result Device.info :=
  match devices with
  | device :: rest =>
      found ←! device_serial device;
      if is_str found serial then
        hostname ←! py_get device "hostname" (PyStr "");
        device_info hostname found device
      else search_by_serial serial rest
  | [] => Raise (Panos (device_not_found_by_serial serial))
  end.

(** The characters of a string, each as a one-character str: what a [for]
    loop over a str goes through. *)
Fixpoint characters (s : string) : list pyvalue :=
  match s with
  | String c s' => PyStr (String c EmptyString) :: characters s'
  | EmptyString => []
  end.

(** What [for device in devices] goes through, after a single dict has
    been wrapped in a list. *)
Definition iterate_devices (devices : pyvalue) : attempt (list pyvalue) :=
  match devices with
  | PyDict _ => Returns [devices]
  | PyList l => Returns l
  | PyStr s => Returns (characters s)
  | PyNone => Fails (TypeError "'NoneType' object is not iterable")
  end.

(** [response.get('data', {}).get('devices', {}).get('entry', [])] *)
Definition device_entries (response : Response) : result pyvalue :=
  devices ←! py_get (data response) "devices" (PyDict ∅);
  py_get devices "entry" (PyList []).

(** The two lookups, from the response of the device list on. *)
Definition device_by_name (response : Response) (device_name : string)
  : attempt Device.info :=
  if negb (success response)
  then Fails (PanosDetailed device_lookup_failed "response" response)
  else
    entries ←? lift (device_entries response);
    devices ←? iterate_devices entries;
    lift (search_by_name device_name devices).

Definition device_by_serial (response : Response) (serial : string)
  : attempt Device.info :=
  if negb (success response)
  then Fails (PyExn (Panos device_lookup_failed))
  else
    entries ←? lift (device_entries response);
    devices ←? iterate_devices entries;
    lift (search_by_serial serial devices).

(** What [test_connectivity] makes of a successful response. *)
Definition connectivity_report (response : Response)
  : result Connectivity.report :=
  if success response then
    system ←! py_get (data response) "system" (PyDict ∅);
    hostname ←! py_get system "hostname" (PyStr "");
    model ←! py_get system "model" (PyStr "");
    serial ←! py_get system "serial" (PyStr "");
    sw_version ←! py_get system "sw-version" (PyStr "");
    uptime ←! py_get system "uptime" (PyStr "");
    Ok (Connectivity.Connected hostname model serial sw_version uptime)
  else Ok (Connectivity.Refused (message response)).

Section ClientLookups.

Variable fromstring : string → string + Element.
Variable urlencode : list (string * pyvalue) → string.
Variable urlopen : list Net.request → Net.request → Net.outcome.
Variable utcnow : nat → string.

Definition get_device_by_name (device_name : string) : method Device.info :=
  λ self w,
  match get_panorama_managed_devices fromstring urlencode urlopen utcnow
          self w with
  | (Returns response, self, w) =>
      (device_by_name response device_name, self, w)
  | (Fails e, self, w) => (Fails e, self, w)
  end.

Definition get_device_by_serial (serial : string) : method Device.info :=
  λ self w,
  match get_panorama_managed_devices fromstring urlencode urlopen utcnow
          self w with
  | (Returns response, self, w) => (device_by_serial response serial, self, w)
  | (Fails e, self, w) => (Fails e, self, w)
  end.

(** [test_connectivity]: a [PanosException] becomes a report, anything
    else goes through. *)
Definition test_connectivity (target : option string)
  : method Connectivity.report :=
  λ self w,
  match get_system_info fromstring urlencode urlopen utcnow target self w with
  | (Returns response, self, w) => (lift (connectivity_report response), self, w)
  | (Fails (PyExn (Panos e)), self, w)
  | (Fails (PanosDetailed e _ _), self, w) =>
      (Returns (Connectivity.Failed (exc_message e) (error_code e)), self, w)
  | (Fails e, self, w) => (Fails e, self, w)
  end.

End ClientLookups.

(** The request [_get_api_key] sends for the credentials of a client. *)
Definition keygen_request (urlencode : list (string * pyvalue) → string)
    (self : Client.t) : Net.request :=
  {| Net.url :=
       base_url self +:+ "/api/?"
       +:+ urlencode [("type", PyStr "keygen");
                      ("user", PyStr (default "" (Client.username self)));
                      ("password", PyStr (default "" (Client.password self)))];
     Net.method := "GET"; Net.data := None; Net.headers := [];
     Net.timeout := Client.timeout self;
     Net.ssl_context := _create_ssl_context self |}.

(** The error codes the client's request path raises. *)
Definition request_error_codes : list string :=
  ["AUTH_MISSING"; "KEYGEN_FAILED"; "KEYGEN_NO_KEY"; "CONNECTION_ERROR";
   "HTTP_ERROR"; "XML_PARSE_ERROR"].

(** A failure of the request path: a [PanosException] with one of its
    codes, or the [AttributeError] of a keygen answer whose data is no
    map. *)
Definition request_failure (e : pyerror) : Prop :=
  match e with
  | PyExn (Panos pe) =>
      ∃ code, error_code pe = Some code ∧ code ∈ request_error_codes
  | PyExn (AttributeError _) => True
  | _ => False
  end.

(** The same client but for its key and its logger. *)
Definition same_settings (a b : Client.t) : Prop :=
  Client.host a = Client.host b ∧ Client.username a = Client.username b
  ∧ Client.password a = Client.password b
  ∧ Client.validate_certs a = Client.validate_certs b
  ∧ Client.timeout a = Client.timeout b ∧ Client.port a = Client.port b.

(** The request [_make_request] sends once it holds a key. *)
Definition command_request (urlencode : list (string * pyvalue) → string)
    (self : Client.t) (key : pyvalue)
    (params : list (string * pyvalue)) (http_method : string)
    (data : option string) : Net.request :=
  {| Net.url := base_url self +:+ "/api/?"
                +:+ urlencode (param_set "key" key params);
     Net.method := http_method;
     Net.data := nonempty_text data;
     Net.headers :=
       match nonempty_text data with
       | Some _ => [("Content-Type", "application/x-www-form-urlencoded")]
       | None => []
       end;
     Net.timeout := Client.timeout self;
     Net.ssl_context := _create_ssl_context self |}.


(** ** A sample session

    A stand-in encoder (pairs joined by [&], nothing escaped), a network
    that answers the first request with a key and the later ones with the
    sample envelope, the parser's answers on those two documents, and a
    clock that stands still. *)
Definition sample_key : string := "LUFRPT14MW5xOEo1R09KVlBZ".

Definition keygen_xml : string :=
  "<response status=" +:+ dquote +:+ "success" +:+ dquote
  +:+ "><result><key>" +:+ sample_key +:+ "</key></result></response>".

Definition keygen_root : Element :=
  mkElement "response" {[ "status" := "success" ]} None
    [mkElement "result" ∅ None [leaf "key" sample_key]].

Definition client_fromstring (s : string) : string + Element :=
  if String.eqb s keygen_xml then inr keygen_root else sample_fromstring s.

Fixpoint plain_urlencode (params : list (string * pyvalue)) : string :=
  match params with
  | [] => ""
  | (k, v) :: rest =>
      k +:+ "=" +:+ match v with PyStr s => s | _ => "" end
      +:+ match rest with [] => "" | _ => "&" +:+ plain_urlencode rest end
  end.

Definition sample_urlopen (sent : list Net.request) (req : Net.request)
  : Net.outcome :=
  match sent with
  | [] => Net.Body keygen_xml
  | _ => Net.Body sample_xml
  end.

Definition refusing_urlopen (sent : list Net.request) (req : Net.request)
  : Net.outcome :=
  Net.HTTPError 403 "Forbidden".

Definition still_clock (n : nat) : string := "2024-05-01T10:00:00".

Definition sample_client : Client.t :=
  {| Client.host := "panorama.example.com";
     Client.username := Some "admin";
     Client.password := Some "secret";
     Client.api_key := PyNone;
     Client.validate_certs := true;
     Client.timeout := 120;
     Client.port := 443;
     Client.logger := new_logger "api_client" 1 |}.

Definition anonymous_client : Client.t :=
  {| Client.host := "panorama.example.com";
     Client.username := None;
     Client.password := None;
     Client.api_key := PyNone;
     Client.validate_certs := true;
     Client.timeout := 120;
     Client.port := 443;
     Client.logger := new_logger "api_client" 1 |}.

Definition keyed_client : Client.t :=
  Client.set_api_key (PyStr sample_key) anonymous_client.

Definition fresh_world : Client.world :=
  {| Client.sent := []; Client.ticks := 0 |}.

(** ** Vocabulary of the device directory's statements *)

(** An entry of the device list as the lookups expect it: a map whose
    hostname, when it has one, is a str, and whose [@attributes], [ha] and
    [ha.peer], when it has them, are maps. *)
Definition optional_map (d : gmap string pyvalue) (key : string) : Prop :=
  match d !! key with
  | Some (PyDict _) | None => True
  | Some _ => False
  end.

Definition device_hostname (d : gmap string pyvalue) : option string :=
  match d !! "hostname" with
  | Some (PyStr h) => Some h
  | None => Some ""
  | Some _ => None
  end.

Definition device_ok (d : gmap string pyvalue) : Prop :=
  is_Some (device_hostname d)
  ∧ optional_map d "@attributes" ∧ optional_map d "ha"
  ∧ match d !! "ha" with
    | Some (PyDict ha) => optional_map ha "peer"
    | _ => True
    end.

(** The entry's hostname is [device_name] but for the case of letters. *)
Definition named (device_name : string) (d : gmap string pyvalue) : Prop :=
  ∃ h, device_hostname d = Some h ∧ lower h = lower device_name.

(** A response that lists the given entries. *)
Definition devices_response (entry : pyvalue) : Response :=
  response_with (PyDict {[ "devices" := PyDict {[ "entry" := entry ]} ]}).

Definition sample_device (name serial : string) : gmap string pyvalue :=
  <["hostname" := PyStr name]>
    {[ "@attributes" := PyDict {[ "name" := PyStr serial ]} ]}.

(** ** [validate_ip_or_hostname] *)

(** A character class [[lo-hi]]. *)
Definition char_between (lo hi c : ascii) : bool :=
  ((N_of_ascii lo <=? N_of_ascii c) && (N_of_ascii c <=? N_of_ascii hi))%N.

(** [$] also matches before a newline that ends the string: the string
    without that newline. *)
Fixpoint chomp (s : string) : string :=
  match s with
  | String c s' =>
      match s' with
      | EmptyString => if Ascii.eqb c (ascii_of_nat 10) then EmptyString else s
      | _ => String c (chomp s')
      end
  | EmptyString => EmptyString
  end.

(** The parts of a string between its dots. *)
Fixpoint split_dots (s : string) : list string :=
  match s with
  | String c s' =>
      if Ascii.eqb c "." then EmptyString :: split_dots s'
      else match split_dots s' with
           | part :: parts => String c part :: parts
           | [] => [String c EmptyString]
           end
  | EmptyString => [EmptyString]
  end.

(** [25[0-5]|2[0-4][0-9]|[01]?[0-9][0-9]?], matched against a whole part. *)
Definition octet_text (s : string) : bool :=
  match s with
  | String a (String b (String c EmptyString)) =>
      (Ascii.eqb a "2" && Ascii.eqb b "5" && char_between "0" "5" c)
      || (Ascii.eqb a "2" && char_between "0" "4" b && char_between "0" "9" c)
      || (char_between "0" "1" a && char_between "0" "9" b
          && char_between "0" "9" c)
  | String a (String b EmptyString) =>
      char_between "0" "9" a && char_between "0" "9" b
  | String a EmptyString => char_between "0" "9" a
  | _ => false
  end.

(** [[A-Za-z0-9-]] *)
Definition is_label_char (c : ascii) : bool :=
  char_between "A" "Z" c || char_between "a" "z" c || char_between "0" "9" c
  || Ascii.eqb c "-".

(** [(?!-)[A-Za-z0-9-]{1,63}(?<!-)], matched against a whole part. *)
Definition label_text (s : string) : bool :=
  (1 <=? String.length s)%nat && (String.length s <=? 63)%nat
  && string_forall is_label_char s
  && negb (bool_decide (first_char s = Some "-"%char))
  && negb (bool_decide (last_char s = Some "-"%char)).

(** [re.match(ip_pattern, value)]: four parts, each an octet. *)
Definition ip_match (value : string) : bool :=
  let parts := split_dots (chomp value) in
  (length parts =? 4)%nat && forallb octet_text parts.

(** [re.match(hostname_pattern, value)]: 1 to 253 characters, and every
    part a label. *)
Definition hostname_match (value : string) : bool :=
  let body := chomp value in
  (1 <=? String.length body)%nat && (String.length body <=? 253)%nat
  && forallb label_text (split_dots body).

Definition validate_ip_or_hostname (value : string) : bool :=
  match value with
  | EmptyString => false
  | _ => ip_match value || hostname_match value
  end.

(** The characters of a host name or an address. *)
Definition is_host_char (c : ascii) : bool :=
  is_label_char c || Ascii.eqb c ".".

(** Four parts joined by dots. *)
Definition dotted (a b c d : string) : string :=
  a +:+ "." +:+ b +:+ "." +:+ c +:+ "." +:+ d.

(** One to three decimal digits. *)
Definition short_number (s : string) : bool :=
  (1 <=? String.length s)%nat && (String.length s <=? 3)%nat
  && digits_only s.

(** A host name as read from a file, line end included. *)
Definition value_of_newline_host : string :=
  "fw-01.example.com" +:+ newline.
(** * Properties *)

(** ** Version model *)

(** *** The matcher accepts exactly the language of the pattern *)

Lemma append_empty_r (t : string) : t +:+ "" = t.
Proof.
  induction t as [|c t IH]; [done|].
  change (String c t +:+ "") with (String c (t +:+ "")). by rewrite IH.
Qed.

Lemma span_digits_sound s : ∀ d r,
  span_digits s = (d, r) →
  s = d +:+ r ∧ digits_only d = true ∧ no_digit_head r.
Proof.
  induction s as [|c s IH]; intros d r; simpl.
  - intros [= <- <-]. done.
  - destruct (is_digit c) eqn:Hc.
    + destruct (span_digits s) as [d' r'] eqn:Hs. intros [= <- <-].
      destruct (IH d' r' eq_refl) as (-> & Hd & Hr).
      simpl. rewrite Hc, Hd. done.
    + intros [= <- <-]. simpl. done.
Qed.

Lemma span_digits_complete d : ∀ r,
  digits_only d = true → no_digit_head r → span_digits (d +:+ r) = (d, r).
Proof.
  induction d as [|c d IH]; intros r Hd Hr.
  - destruct r as [|c r]; [reflexivity|].
    simpl in Hr. change ("" +:+ String c r) with (String c r).
    simpl. by rewrite Hr.
  - simpl in Hd. apply andb_true_iff in Hd as [Hc Hd].
    change (String c d +:+ r) with (String c (d +:+ r)).
    simpl. by rewrite Hc, (IH r Hd Hr).
Qed.

Lemma re_digits_spec s d r :
  re_digits s = Some (d, r)
  ↔ is_number d ∧ s = d +:+ r ∧ no_digit_head r.
Proof.
  unfold re_digits, is_number. split.
  - destruct (span_digits s) as [d' r'] eqn:Hs.
    apply span_digits_sound in Hs as (-> & Hd & Hr).
    destruct d' as [|c d']; [done|]. intros [= <- <-]. done.
  - intros ((Hne & Hd) & -> & Hr).
    rewrite (span_digits_complete d r Hd Hr).
    by destruct d.
Qed.

Lemma re_char_spec c s r : re_char c s = Some r ↔ s = String c r.
Proof.
  unfold re_char. destruct s as [|c' s]; [done|].
  destruct (Ascii.eqb_spec c c') as [->|Hne]; split; congruence.
Qed.

Lemma re_char_head c r : re_char c (String c r) = Some r.
Proof. by apply re_char_spec. Qed.

Lemma re_opt_suffix_sound x s g r :
  re_opt_suffix x s = (g, r) →
  s = suffix_text x g +:+ r ∧ group_is_number g
  ∧ (g = None ∨ no_digit_head r).
Proof.
  unfold re_opt_suffix.
  destruct (re_char "-" s) as [s1|] eqn:H1;
    [|intros [= <- <-]; repeat split; auto].
  destruct (re_char x s1) as [s2|] eqn:H2;
    [|intros [= <- <-]; repeat split; auto].
  destruct (re_digits s2) as [[d r']|] eqn:H3;
    [|intros [= <- <-]; repeat split; auto].
  intros [= <- <-].
  apply re_char_spec in H1 as ->. apply re_char_spec in H2 as ->.
  apply re_digits_spec in H3 as (Hd & -> & Hr).
  split; [reflexivity|]. split; [exact Hd|]. right. exact Hr.
Qed.

Lemma re_opt_suffix_some x d r :
  is_number d → no_digit_head r →
  re_opt_suffix x (suffix_text x (Some d) +:+ r) = (Some d, r).
Proof.
  intros Hd Hr. unfold re_opt_suffix.
  change (suffix_text x (Some d) +:+ r)
    with (String "-" (String x (d +:+ r))).
  unfold re_char. rewrite !Ascii.eqb_refl.
  by rewrite (proj2 (re_digits_spec (d +:+ r) d r)).
Qed.

Lemma re_opt_suffix_none x s :
  match s with
  | String "-" (String y _) => y ≠ x
  | String c _ => c ≠ "-"%char
  | EmptyString => True
  end →
  re_opt_suffix x s = (None, s).
Proof.
  unfold re_opt_suffix, re_char.
  destruct s as [|c s]; [done|].
  destruct (Ascii.eqb_spec "-" c) as [<-|Hne].
  - destruct s as [|y s]; [done|]. intros Hy.
    destruct (Ascii.eqb_spec x y) as [->|]; [done|reflexivity].
  - intros _. reflexivity.
Qed.

(** The matcher returns a match exactly for the strings of the pattern's
    language, with the groups the pattern captures. *)
Theorem re_match_version_spec (s : string) (m : version_match) :
  re_match_version s = Some m ↔ well_formed_match m ∧ s = version_text m.
Proof.
  unfold re_match_version, well_formed_match, version_text. split.
  - destruct (re_digits s) as [[g1 s1]|] eqn:H1; [|done].
    destruct (re_char "." s1) as [s2|] eqn:H2; [|done].
    destruct (re_digits s2) as [[g2 s3]|] eqn:H3; [|done].
    destruct (re_char "." s3) as [s4|] eqn:H4; [|done].
    destruct (re_digits s4) as [[g3 s5]|] eqn:H5; [|done].
    destruct (re_opt_suffix "h" s5) as [g4 s6] eqn:H6.
    destruct (re_opt_suffix "c" s6) as [g5 s7] eqn:H7.
    destruct s7; [|done]. intros [= <-]. simpl.
    apply re_digits_spec in H1 as (Hg1 & -> & _).
    apply re_char_spec in H2 as ->.
    apply re_digits_spec in H3 as (Hg2 & -> & _).
    apply re_char_spec in H4 as ->.
    apply re_digits_spec in H5 as (Hg3 & -> & _).
    apply re_opt_suffix_sound in H6 as (-> & Hg4 & _).
    apply re_opt_suffix_sound in H7 as (-> & Hg5 & _).
    rewrite append_empty_r. done.
  - destruct m as [g1 g2 g3 g4 g5]. simpl.
    intros ((Hg1 & Hg2 & Hg3 & Hg4 & Hg5) & ->).
    assert (Hc : re_opt_suffix "c" (suffix_text "c" g5 +:+ "") = (g5, "")).
    { destruct g5 as [d|]; [by apply re_opt_suffix_some|reflexivity]. }
    assert (Hh : re_opt_suffix "h"
                   (suffix_text "h" g4 +:+ suffix_text "c" g5 +:+ "")
                 = (g4, suffix_text "c" g5 +:+ "")).
    { destruct g4 as [d|].
      - apply re_opt_suffix_some; [done|]. by destruct g5.
      - apply re_opt_suffix_none. by destruct g5. }
    assert (Htail : ∀ t, suffix_text "h" g4 +:+ suffix_text "c" g5
                         = t → no_digit_head t).
    { intros t <-. destruct g4; [done|]. by destruct g5. }
    rewrite append_empty_r in Hc, Hh.
    change (g1 +:+ "." +:+ g2 +:+ "." +:+ g3
            +:+ suffix_text "h" g4 +:+ suffix_text "c" g5)
      with (g1 +:+ String "." (g2 +:+ String "."
              (g3 +:+ suffix_text "h" g4 +:+ suffix_text "c" g5))).
    rewrite (proj2 (re_digits_spec _ g1 _)), re_char_head by done.
    rewrite (proj2 (re_digits_spec _ g2 _)), re_char_head by done.
    rewrite (proj2 (re_digits_spec _ g3 _))
      by (split; [done|]; split; [done|]; by eapply Htail).
    rewrite Hh, Hc. reflexivity.
Qed.

(** Parsing succeeds exactly on the non-empty strings whose stripped form
    is in the pattern's language. *)
Corollary parse_panos_version_spec (version_string : string) :
  is_Some (parse_panos_version version_string)
  ↔ ∃ m, well_formed_match m ∧ strip version_string = version_text m.
Proof.
  unfold parse_panos_version. split.
  - destruct version_string as [|c s]; [by intros [? [=]]|].
    destruct (re_match_version (strip (String c s))) as [m|] eqn:Hm;
      [|by intros [? [=]]].
    intros _. exists m. by apply re_match_version_spec.
  - intros (m & Hm). apply re_match_version_spec in Hm.
    destruct version_string as [|c s]; [|rewrite Hm; eauto].
    by vm_compute in Hm.
Qed.

Example parse_hotfix :
  parse_panos_version "10.2.9-h1" = Some (mkVersion 10 2 9 1 0 "10.2.9-h1").
Proof. vm_compute. reflexivity. Qed.

Example parse_bad : parse_panos_version "bad" = None.
Proof. reflexivity. Qed.

Example parse_padded :
  parse_panos_version "  11.1.3-h2-c4 " = Some (mkVersion 11 1 3 2 4 "11.1.3-h2-c4").
Proof. vm_compute. reflexivity. Qed.

Example parse_candidate_before_hotfix : parse_panos_version "10.2.9-c2-h1" = None.
Proof. vm_compute. reflexivity. Qed.

Example normalize_plain : panos_normalize_version "10.2.9" = "10.2.9".
Proof. vm_compute. reflexivity. Qed.

Lemma compare_keys_flip keys v1 v2 :
  compare_keys keys v2 v1 = (- compare_keys keys v1 v2)%Z.
Proof.
  induction keys as [|key keys IH]; simpl; [reflexivity|].
  destruct (N.ltb_spec (key v1) (key v2)), (N.ltb_spec (key v2) (key v1));
    try reflexivity; try lia; exact IH.
Qed.

Lemma compare_keys_refl keys v : compare_keys keys v v = 0%Z.
Proof.
  induction keys as [|key keys IH]; simpl; [reflexivity|].
  rewrite N.ltb_irrefl. exact IH.
Qed.

Lemma compare_keys_range keys v1 v2 :
  compare_keys keys v1 v2 = (-1)%Z ∨ compare_keys keys v1 v2 = 0%Z
  ∨ compare_keys keys v1 v2 = 1%Z.
Proof.
  induction keys as [|key keys IH]; simpl; [auto|].
  destruct (key v1 <? key v2)%N; [auto|].
  destruct (key v2 <? key v1)%N; auto.
Qed.

Lemma compare_keys_lex v1 v2 :
  compare_keys compared_keys v1 v2
  = Z_of_comparison (lex_compare (version_key v1) (version_key v2)).
Proof.
  unfold compared_keys, version_key, lex_compare; simpl.
  repeat match goal with
  | |- context [(?x <? ?y)%N] => destruct (N.ltb_spec x y)
  | |- context [(?x ?= ?y)%N] => destruct (N.compare_spec x y)
  end; try reflexivity; lia.
Qed.

Lemma panos_version_compare_parsed a b va vb :
  parse_panos_version a = Some va → parse_panos_version b = Some vb →
  panos_version_compare a b = Some (compare_keys compared_keys va vb).
Proof. intros Ha Hb. unfold panos_version_compare. by rewrite Ha, Hb. Qed.

Lemma compare_versions_parsed a b va vb :
  parse_panos_version a = Some va → parse_panos_version b = Some vb →
  compare_versions a b = Ok (compare_keys compared_keys va vb).
Proof. intros Ha Hb. unfold compare_versions. by rewrite Ha, Hb. Qed.

Lemma panos_version_compare_unparsed a b :
  parse_panos_version a = None ∨ parse_panos_version b = None →
  panos_version_compare a b = None.
Proof.
  unfold panos_version_compare. intros [H|H]; rewrite H; [done|].
  by destruct (parse_panos_version a).
Qed.

(** C4: for version strings [a] and [b] that both parse, both comparators
    return a value in {-1, 0, 1} with compare(a,b) = -compare(b,a), and
    compare(a,a) is EQUAL (0). *)
Theorem compare_antisymmetric_reflexive (a b : string) :
  is_Some (parse_panos_version a) → is_Some (parse_panos_version b) →
  (∃ c, panos_version_compare a b = Some c
        ∧ panos_version_compare b a = Some (- c)%Z
        ∧ compare_versions a b = Ok c
        ∧ compare_versions b a = Ok (- c)%Z
        ∧ (c = (-1)%Z ∨ c = 0%Z ∨ c = 1%Z))
  ∧ panos_version_compare a a = Some 0%Z
  ∧ compare_versions a a = Ok 0%Z.
Proof.
  intros [va Ha] [vb Hb]. split.
  - exists (compare_keys compared_keys va vb).
    rewrite (panos_version_compare_parsed a b va vb Ha Hb).
    rewrite (panos_version_compare_parsed b a vb va Hb Ha).
    rewrite (compare_versions_parsed a b va vb Ha Hb).
    rewrite (compare_versions_parsed b a vb va Hb Ha).
    rewrite (compare_keys_flip _ va vb).
    repeat split; apply compare_keys_range.
  - rewrite (panos_version_compare_parsed a a va va Ha Ha).
    rewrite (compare_versions_parsed a a va va Ha Ha).
    by rewrite compare_keys_refl.
Qed.

Lemma compare_antisymmetric_reflexive_witness :
  (∃ c, panos_version_compare "10.1.0" "10.2.3-h1" = Some c
        ∧ panos_version_compare "10.2.3-h1" "10.1.0" = Some (- c)%Z
        ∧ compare_versions "10.1.0" "10.2.3-h1" = Ok c
        ∧ compare_versions "10.2.3-h1" "10.1.0" = Ok (- c)%Z
        ∧ (c = (-1)%Z ∨ c = 0%Z ∨ c = 1%Z))
  ∧ panos_version_compare "10.1.0" "10.1.0" = Some 0%Z
  ∧ compare_versions "10.1.0" "10.1.0" = Ok 0%Z.
Proof.
  apply (compare_antisymmetric_reflexive "10.1.0" "10.2.3-h1");
    vm_compute; eauto.
Defined.

(** C5: the comparators order the tuple (major, minor, patch, hotfix)
    lexicographically and never read the candidate: two strings that parse to
    the same major, minor, patch and hotfix but to different candidate
    numbers compare EQUAL. *)
Theorem compare_excludes_candidate (a b : string) (va vb : ParsedVersion) :
  parse_panos_version a = Some va → parse_panos_version b = Some vb →
  (panos_version_compare a b
     = Some (Z_of_comparison (lex_compare (version_key va) (version_key vb)))
   ∧ compare_versions a b
     = Ok (Z_of_comparison (lex_compare (version_key va) (version_key vb))))
  ∧ (major va = major vb → minor va = minor vb → patch va = patch vb →
     hotfix va = hotfix vb → candidate va ≠ candidate vb →
     panos_version_compare a b = Some 0%Z ∧ compare_versions a b = Ok 0%Z).
Proof.
  intros Ha Hb.
  rewrite (panos_version_compare_parsed a b va vb Ha Hb).
  rewrite (compare_versions_parsed a b va vb Ha Hb).
  rewrite compare_keys_lex. split; [done|].
  intros H1 H2 H3 H4 _. unfold version_key, lex_compare.
  rewrite H1, H2, H3, H4, !N.compare_refl. done.
Qed.

Lemma compare_excludes_candidate_witness :
  panos_version_compare "10.2.9-c1" "10.2.9-c2" = Some 0%Z
  ∧ compare_versions "10.2.9-c1" "10.2.9-c2" = Ok 0%Z.
Proof.
  refine (proj2 (compare_excludes_candidate "10.2.9-c1" "10.2.9-c2"
                   (mkVersion 10 2 9 0 1 "10.2.9-c1")
                   (mkVersion 10 2 9 0 2 "10.2.9-c2") _ _) _ _ _ _ _);
    vm_compute; congruence.
Defined.

(** C6: when at least one of the two strings does not parse, gte, lte, gt,
    lt and eq all return false (they are total functions into bool and raise
    nothing); for a string [v] that parses, gte(v, v) is true. *)
Theorem predicates_fail_closed (a b v : string) :
  (parse_panos_version a = None ∨ parse_panos_version b = None →
   panos_version_gte a b = false ∧ panos_version_lte a b = false
   ∧ panos_version_gt a b = false ∧ panos_version_lt a b = false
   ∧ panos_version_eq a b = false)
  ∧ (is_Some (parse_panos_version v) → panos_version_gte v v = true)
  ∧ panos_version_gte "10.1.5" "10.1.5" = true
  ∧ panos_version_gte "bad" "10.1.0" = false.
Proof.
  split; [|split; [|split; vm_compute; reflexivity]].
  - intros H. apply panos_version_compare_unparsed in H.
    unfold panos_version_gte, panos_version_lte, panos_version_gt,
      panos_version_lt, panos_version_eq. rewrite H. done.
  - intros [pv Hv]. unfold panos_version_gte.
    rewrite (panos_version_compare_parsed v v pv pv Hv Hv), compare_keys_refl.
    reflexivity.
Qed.

Lemma predicates_fail_closed_witness :
  (panos_version_gte "bad" "10.1.0" = false
   ∧ panos_version_lte "bad" "10.1.0" = false
   ∧ panos_version_gt "bad" "10.1.0" = false
   ∧ panos_version_lt "bad" "10.1.0" = false
   ∧ panos_version_eq "bad" "10.1.0" = false)
  ∧ panos_version_gte "11.1.3-h1" "11.1.3-h1" = true.
Proof.
  split.
  - apply (proj1 (predicates_fail_closed "bad" "10.1.0" "11.1.3-h1")).
    left. reflexivity.
  - apply (proj1 (proj2 (predicates_fail_closed "bad" "10.1.0" "11.1.3-h1"))).
    vm_compute. eauto.
Defined.

(** C9: normalize returns the input itself when it does not parse,
    "major.minor.patch" when the parsed hotfix is 0 and
    "major.minor.patch-h{hotfix}" when it is positive; normalize("10.2.9") is
    "10.2.9" and normalize("10.2.9-h1") is "10.2.9-h1". *)
Theorem normalize_version_cases (version : string) :
  (parse_panos_version version = None →
   panos_normalize_version version = version)
  ∧ (∀ p, parse_panos_version version = Some p → hotfix p = 0%N →
       panos_normalize_version version
       = str_of_int (major p) +:+ "." +:+ str_of_int (minor p)
         +:+ "." +:+ str_of_int (patch p))
  ∧ (∀ p, parse_panos_version version = Some p → (0 < hotfix p)%N →
       panos_normalize_version version
       = (str_of_int (major p) +:+ "." +:+ str_of_int (minor p)
          +:+ "." +:+ str_of_int (patch p)) +:+ "-h" +:+ str_of_int (hotfix p))
  ∧ panos_normalize_version "10.2.9" = "10.2.9"
  ∧ panos_normalize_version "10.2.9-h1" = "10.2.9-h1".
Proof.
  unfold panos_normalize_version.
  split; [|split; [|split; [|split; vm_compute; reflexivity]]].
  - by intros ->.
  - intros p -> ->. reflexivity.
  - intros p -> Hpos. apply N.ltb_lt in Hpos. rewrite Hpos.
    reflexivity.
Qed.

Lemma normalize_version_cases_witness :
  panos_normalize_version "not-a-version" = "not-a-version"
  ∧ panos_normalize_version " 10.2.9-c3" = "10.2.9"
  ∧ panos_normalize_version "10.2.9-h12-c3" = "10.2.9-h12".
Proof.
  split; [|split].
  - apply (proj1 (normalize_version_cases "not-a-version")). reflexivity.
  - apply (proj1 (proj2 (normalize_version_cases " 10.2.9-c3"))
             (mkVersion 10 2 9 0 3 "10.2.9-c3")); vm_compute; reflexivity.
  - apply (proj1 (proj2 (proj2 (normalize_version_cases "10.2.9-h12-c3")))
             (mkVersion 10 2 9 12 3 "10.2.9-h12-c3")); vm_compute; reflexivity.
Defined.

(** ** Upgrade-path validation *)

Lemma compare_versions_raises a b :
  raises_code (compare_versions a b) "INVALID_VERSION"
  ↔ parse_panos_version a = None ∨ parse_panos_version b = None.
Proof.
  unfold compare_versions, raises_code.
  destruct (parse_panos_version a), (parse_panos_version b); split;
    try (intros (e & [=] & _); fail); try (intros [[=]|[=]]; fail);
    eauto using invalid_version.
Qed.

Lemma upgrade_path_unparsed current target matrix :
  parse_panos_version current = None ∨ parse_panos_version target = None →
  is_upgrade_path_valid current target matrix = Ok (false, []).
Proof.
  unfold is_upgrade_path_valid. intros [H|H]; rewrite H; [done|].
  by destruct (parse_panos_version current).
Qed.

(** What the function does once both versions have parsed. *)
Lemma upgrade_path_parsed current target matrix vc vt :
  parse_panos_version current = Some vc →
  parse_panos_version target = Some vt →
  is_upgrade_path_valid current target matrix =
    let c := compare_keys compared_keys vc vt in
    if (c =? 0)%Z then Ok (true, [])
    else if (0 <? c)%Z then Ok (false, [])
    else match matrix !! major_minor_key vc with
         | Some entry =>
             if bool_decide (major_minor_key vt
                             ∈ default [] (direct_upgrade_to entry))
             then Ok (true, [])
             else match default ∅ (intermediate_required entry)
                          !! major_minor_key vt with
                  | Some required => Ok (true, required)
                  | None => Ok (false, [])
                  end
         | None => Ok (false, [])
         end.
Proof.
  intros Hc Ht. unfold is_upgrade_path_valid.
  rewrite (compare_versions_parsed _ _ _ _ Hc Ht), Hc, Ht. simpl.
  destruct (compare_keys compared_keys vc vt =? 0)%Z; reflexivity.
Qed.

(** C1: the cases of isUpgradePathValid, tried in the order the design
    document lists them.  A string that does not parse gives (false, []);
    versions that compare EQUAL give (true, []); current GREATER than target
    gives (false, []) whatever the matrix holds; for current LESS than
    target, a target major.minor listed in direct_upgrade_to of the entry of
    current's major.minor gives (true, []), otherwise a target major.minor
    that is a key of that entry's intermediate_required gives (true, the
    sequence stored there), and everything else, a missing entry included,
    gives (false, []). *)
Theorem upgrade_path_cases (current target : string)
    (matrix : gmap string MatrixEntry) :
  (parse_panos_version current = None ∨ parse_panos_version target = None →
   is_upgrade_path_valid current target matrix = Ok (false, []))
  ∧ (compare_versions current target = Ok 0%Z →
     is_upgrade_path_valid current target matrix = Ok (true, []))
  ∧ (compare_versions current target = Ok 1%Z →
     is_upgrade_path_valid current target matrix = Ok (false, []))
  ∧ (∀ vc vt,
       parse_panos_version current = Some vc →
       parse_panos_version target = Some vt →
       compare_versions current target = Ok (-1)%Z →
       (matrix !! major_minor_key vc = None →
        is_upgrade_path_valid current target matrix = Ok (false, []))
       ∧ (∀ entry, matrix !! major_minor_key vc = Some entry →
            (major_minor_key vt ∈ default [] (direct_upgrade_to entry) →
             is_upgrade_path_valid current target matrix = Ok (true, []))
            ∧ (∀ required,
                 major_minor_key vt ∉ default [] (direct_upgrade_to entry) →
                 default ∅ (intermediate_required entry)
                   !! major_minor_key vt = Some required →
                 is_upgrade_path_valid current target matrix
                 = Ok (true, required))
            ∧ (major_minor_key vt ∉ default [] (direct_upgrade_to entry) →
               default ∅ (intermediate_required entry)
                 !! major_minor_key vt = None →
               is_upgrade_path_valid current target matrix
               = Ok (false, [])))).
Proof.
  split; [apply upgrade_path_unparsed|].
  assert (Hparsed : ∀ c, compare_versions current target = Ok c →
            ∃ vc vt, parse_panos_version current = Some vc
                     ∧ parse_panos_version target = Some vt
                     ∧ compare_keys compared_keys vc vt = c).
  { unfold compare_versions. intros c.
    destruct (parse_panos_version current) as [vc|]; [|done].
    destruct (parse_panos_version target) as [vt|]; [|done].
    intros [= <-]. eauto. }
  split; [|split].
  - intros (vc & vt & Hc & Ht & Hk)%Hparsed.
    rewrite (upgrade_path_parsed _ _ _ _ _ Hc Ht), Hk. reflexivity.
  - intros (vc & vt & Hc & Ht & Hk)%Hparsed.
    rewrite (upgrade_path_parsed _ _ _ _ _ Hc Ht), Hk. reflexivity.
  - intros vc vt Hc Ht Hcmp.
    rewrite (compare_versions_parsed _ _ _ _ Hc Ht) in Hcmp.
    assert (Hk : compare_keys compared_keys vc vt = (-1)%Z) by congruence.
    rewrite (upgrade_path_parsed _ _ _ _ _ Hc Ht), Hk. simpl.
    split; [by intros ->|].
    intros entry ->. split; [|split].
    + intros Hin. by rewrite bool_decide_eq_true_2.
    + intros required Hnot ->. by rewrite bool_decide_eq_false_2.
    + intros Hnot ->. by rewrite bool_decide_eq_false_2.
Qed.

Lemma upgrade_path_cases_witness :
  is_upgrade_path_valid "10.1" "10.1.0" example_matrix = Ok (false, [])
  ∧ is_upgrade_path_valid "10.1.0" "10.1.0" ∅ = Ok (true, [])
  ∧ is_upgrade_path_valid "11.0.0" "10.0.0" example_matrix = Ok (false, [])
  ∧ is_upgrade_path_valid "10.2.0" "11.0.0" example_matrix = Ok (false, [])
  ∧ is_upgrade_path_valid "10.1.0" "10.2.4" example_matrix = Ok (true, [])
  ∧ is_upgrade_path_valid "10.1.0" "11.0.0" example_matrix
    = Ok (true, ["10.2"])
  ∧ is_upgrade_path_valid "10.1.0" "12.0.0" example_matrix = Ok (false, []).
Proof.
  pose (entry := {| direct_upgrade_to := Some ["10.2"];
                    intermediate_required := Some {[ "11.0" := ["10.2"] ]} |}).
  split; [|split; [|split; [|split; [|split; [|split]]]]].
  - apply (proj1 (upgrade_path_cases "10.1" "10.1.0" example_matrix)).
    left. reflexivity.
  - apply (proj1 (proj2 (upgrade_path_cases "10.1.0" "10.1.0" ∅))).
    vm_compute. reflexivity.
  - apply (proj1 (proj2 (proj2
             (upgrade_path_cases "11.0.0" "10.0.0" example_matrix)))).
    vm_compute. reflexivity.
  - refine (proj1 (proj2 (proj2 (proj2
              (upgrade_path_cases "10.2.0" "11.0.0" example_matrix)))
              (mkVersion 10 2 0 0 0 "10.2.0") (mkVersion 11 0 0 0 0 "11.0.0")
              _ _ _) _); vm_compute; reflexivity.
  - refine (proj1 (proj2 (proj2 (proj2 (proj2
              (upgrade_path_cases "10.1.0" "10.2.4" example_matrix)))
              (mkVersion 10 1 0 0 0 "10.1.0") (mkVersion 10 2 4 0 0 "10.2.4")
              _ _ _) entry _) _); try (vm_compute; reflexivity).
    apply (bool_decide_unpack _). vm_compute. exact I.
  - refine (proj1 (proj2 (proj2 (proj2 (proj2 (proj2
              (upgrade_path_cases "10.1.0" "11.0.0" example_matrix)))
              (mkVersion 10 1 0 0 0 "10.1.0") (mkVersion 11 0 0 0 0 "11.0.0")
              _ _ _) entry _)) ["10.2"] _ _); try (vm_compute; reflexivity).
    apply (bool_decide_unpack _). vm_compute. exact I.
  - refine (proj2 (proj2 (proj2 (proj2 (proj2 (proj2
              (upgrade_path_cases "10.1.0" "12.0.0" example_matrix)))
              (mkVersion 10 1 0 0 0 "10.1.0") (mkVersion 12 0 0 0 0 "12.0.0")
              _ _ _) entry _)) _ _); try (vm_compute; reflexivity).
    apply (bool_decide_unpack _). vm_compute. exact I.
Defined.

(** C10: is_upgrade_path_valid returns a (bool, list) pair on every pair of
    strings and every matrix and never raises INVALID_VERSION: the comparator
    raises exactly when a string does not parse, and then the function has
    already returned (false, []). *)
Theorem upgrade_path_total (current target : string)
    (matrix : gmap string MatrixEntry) :
  (∃ valid required,
     is_upgrade_path_valid current target matrix = Ok (valid, required))
  ∧ ¬ raises_code (is_upgrade_path_valid current target matrix)
        "INVALID_VERSION"
  ∧ (raises_code (compare_versions current target) "INVALID_VERSION"
     ↔ parse_panos_version current = None
       ∨ parse_panos_version target = None)
  ∧ (raises_code (compare_versions current target) "INVALID_VERSION" →
     is_upgrade_path_valid current target matrix = Ok (false, [])).
Proof.
  assert (Htotal : ∃ valid required,
            is_upgrade_path_valid current target matrix
            = Ok (valid, required)).
  { destruct (parse_panos_version current) as [vc|] eqn:Hc;
      [|rewrite upgrade_path_unparsed; eauto].
    destruct (parse_panos_version target) as [vt|] eqn:Ht;
      [|rewrite upgrade_path_unparsed; eauto].
    rewrite (upgrade_path_parsed _ _ _ _ _ Hc Ht). simpl.
    repeat case_match; eauto. }
  split; [exact Htotal|]. split; [|split].
  - destruct Htotal as (valid & required & ->). by intros (e & [=] & _).
  - apply compare_versions_raises.
  - intros H%compare_versions_raises. by apply upgrade_path_unparsed.
Qed.

Lemma upgrade_path_total_witness :
  is_upgrade_path_valid "10.x" "11.0.0" example_matrix = Ok (false, []).
Proof.
  apply (proj2 (proj2 (proj2
           (upgrade_path_total "10.x" "11.0.0" example_matrix)))).
  apply compare_versions_raises. left. reflexivity.
Defined.

(** ** XML normalization *)

Lemma xml_name_not_reserved t :
  xml_name t → t ≠ "@attributes" ∧ t ≠ "#text".
Proof.
  intros H. split; intros ->; simpl in H; vm_compute in H; discriminate.
Qed.

Lemma xml_element_to_dict_unfold t a x cs :
  xml_element_to_dict (mkElement t a x cs) =
    let result : gmap string pyvalue :=
      if bool_decide (a = ∅) then ∅
      else {[ "@attributes" := PyDict (PyStr <$> a) ]} in
    let result :=
      match cs with
      | [] => result
      | _ => collect_children cs ∅ ∪ result
      end in
    match stripped_text x with
    | Some s =>
        if bool_decide (result = ∅) then PyStr s
        else PyDict (<["#text" := PyStr s]> result)
    | None => if bool_decide (result = ∅) then PyNone else PyDict result
    end.
Proof.
  assert (Hloop : ∀ cs acc,
    (fix loop (cs : list Element) (child_dict : gmap string pyvalue) :=
       match cs with
       | child :: cs' =>
           loop cs' (add_child child_dict (tag child)
                       (xml_element_to_dict child))
       | [] => child_dict
       end) cs acc = collect_children cs acc).
  { clear. induction cs as [|c cs IH]; intros acc; [reflexivity|].
    rewrite IH. reflexivity. }
  simpl. rewrite Hloop. reflexivity.
Qed.

Lemma xml_element_to_dict_not_list e : ¬ is_list (xml_element_to_dict e).
Proof.
  destruct e as [t a x cs]. rewrite xml_element_to_dict_unfold. simpl.
  repeat case_match; simpl; tauto.
Qed.

Lemma add_child_lookup_ne acc t t' v :
  t ≠ t' → add_child acc t' v !! t = acc !! t.
Proof.
  intros Hne. unfold add_child.
  repeat case_match; by rewrite lookup_insert_ne.
Qed.

Lemma add_child_lookup acc t v l0 :
  acc !! t = packed l0 → Forall (λ w, ¬ is_list w) l0 →
  add_child acc t v !! t = packed (l0 ++ [v]).
Proof.
  intros Hacc Hl0. unfold add_child. rewrite Hacc.
  destruct l0 as [|w0 [|w1 l1]]; simpl.
  - by rewrite lookup_insert_eq.
  - apply Forall_cons_1 in Hl0 as [Hw0 _].
    destruct w0; simpl in Hw0; try tauto; by rewrite lookup_insert_eq.
  - by rewrite lookup_insert_eq.
Qed.

Lemma collect_children_lookup t cs : ∀ acc l0,
  acc !! t = packed l0 → Forall (λ w, ¬ is_list w) l0 →
  collect_children cs acc !! t
  = packed (l0 ++ (xml_element_to_dict <$> children_tagged t cs)).
Proof.
  induction cs as [|c cs IH]; intros acc l0 Hacc Hl0.
  - simpl. by rewrite app_nil_r.
  - unfold children_tagged. rewrite filter_cons.
    change (collect_children (c :: cs) acc)
      with (collect_children cs
              (add_child acc (tag c) (xml_element_to_dict c))).
    destruct (decide (tag c = t)) as [<-|Hne].
    + rewrite fmap_cons, cons_middle, app_assoc.
      apply IH.
      * by apply add_child_lookup.
      * apply Forall_app. split; [done|].
        apply Forall_singleton, xml_element_to_dict_not_list.
    + apply IH; [|done]. rewrite add_child_lookup_ne; [done|congruence].
Qed.

Lemma collect_children_tagged t cs :
  collect_children cs ∅ !! t
  = packed (xml_element_to_dict <$> children_tagged t cs).
Proof. by apply (collect_children_lookup t cs ∅ []). Qed.

Lemma children_tagged_none t cs :
  Forall (λ c, xml_name (tag c)) cs → ¬ xml_name t →
  children_tagged t cs = [].
Proof.
  intros Hcs Ht. unfold children_tagged.
  induction Hcs as [|c cs Hc _ IH]; [done|].
  rewrite filter_cons. destruct (decide (tag c = t)) as [<-|]; [done|exact IH].
Qed.

Lemma nonempty_lookup (m : gmap string pyvalue) k v :
  m !! k = Some v → bool_decide (m = ∅) = false.
Proof.
  intros Hk. apply bool_decide_eq_false_2. intros ->.
  by rewrite lookup_empty in Hk.
Qed.

(** C2: the rules of the recursive normalization, for the elements of a
    parsed document (whose tags are XML names).  An element with attributes
    yields a map with "@attributes" bound to the attribute map; a tag carried
    by two or more children is bound to the list of their normalizations in
    document order; an element without attributes and children whose text is
    not blank yields the trimmed text; one without attributes, children and
    text yields None. *)
Theorem normalization_rules (element : Element) :
  (attrib element ≠ ∅ →
   Forall (λ c, xml_name (tag c)) (children element) →
   ∃ d, xml_element_to_dict element = PyDict d
        ∧ d !! "@attributes" = Some (PyDict (PyStr <$> attrib element)))
  ∧ (∀ t, xml_name t →
       (2 ≤ length (children_tagged t (children element)))%nat →
       ∃ d, xml_element_to_dict element = PyDict d
            ∧ d !! t = Some (PyList (xml_element_to_dict
                                       <$> children_tagged t (children element))))
  ∧ (attrib element = ∅ → children element = [] →
     ∀ x, text element = Some x → strip x ≠ "" →
     xml_element_to_dict element = PyStr (strip x))
  ∧ (attrib element = ∅ → children element = [] →
     text element = None ∨ (∃ x, text element = Some x ∧ strip x = "") →
     xml_element_to_dict element = PyNone).
Proof.
  destruct element as [t a x cs]. rewrite xml_element_to_dict_unfold.
  simpl. split; [|split; [|split]].
  - intros Ha Hcs. rewrite (bool_decide_eq_false_2 _ Ha).
    set (A := PyDict (PyStr <$> a)).
    assert (Hres : match cs with
                   | [] => {[ "@attributes" := A ]}
                   | _ => collect_children cs ∅ ∪ {[ "@attributes" := A ]}
                   end !! "@attributes" = Some A).
    { destruct cs as [|c cs']; [by rewrite lookup_singleton_eq|].
      rewrite lookup_union_r; [by rewrite lookup_singleton_eq|].
      rewrite collect_children_tagged, children_tagged_none; [done|done|].
      vm_compute. discriminate. }
    rewrite (nonempty_lookup _ _ _ Hres).
    destruct (stripped_text x); eexists; split; try reflexivity; [|done].
    by rewrite lookup_insert_ne.
  - intros t' Ht' Hlen.
    destruct (xml_name_not_reserved t' Ht') as [_ Htext].
    set (r0 := if bool_decide (a = ∅) then ∅ else _).
    assert (Hres : match cs with
                   | [] => r0
                   | _ => collect_children cs ∅ ∪ r0
                   end !! t'
                   = Some (PyList (xml_element_to_dict
                                     <$> children_tagged t' cs))).
    { destruct cs as [|c cs']; [simpl in Hlen; lia|].
      apply lookup_union_Some_l. rewrite collect_children_tagged.
      destruct (children_tagged t' (c :: cs')) as [|c0 [|c1 l]];
        simpl in Hlen; try lia. reflexivity. }
    rewrite (nonempty_lookup _ _ _ Hres).
    destruct (stripped_text x); eexists; split; try reflexivity; [|done].
    by rewrite lookup_insert_ne.
  - intros -> -> s [= ->] Hs. simpl.
    destruct (strip s); [done|reflexivity].
  - intros -> -> [->|(s & -> & Hs)]; simpl; [reflexivity|].
    rewrite Hs. reflexivity.
Qed.

Lemma normalization_rules_witness :
  (∃ d, xml_element_to_dict
          (mkElement "entry" {[ "name" := "fw01" ]} (Some "up") [leaf "a" "1"])
        = PyDict d
        ∧ d !! "@attributes" = Some (PyDict {[ "name" := PyStr "fw01" ]}))
  ∧ (∃ d, xml_element_to_dict sample_result = PyDict d
          ∧ d !! "a" = Some (PyList [PyStr "1"; PyStr "2"]))
  ∧ xml_element_to_dict (leaf "a" " 1 ") = PyStr "1"
  ∧ xml_element_to_dict (mkElement "a" ∅ None []) = PyNone.
Proof.
  split; [|split; [|split]].
  - destruct (proj1 (normalization_rules
        (mkElement "entry" {[ "name" := "fw01" ]} (Some "up") [leaf "a" "1"])))
      as (d & Hd & Hattr).
    + apply (bool_decide_unpack _). vm_compute. exact I.
    + repeat constructor.
    + exists d. split; [exact Hd|]. rewrite Hattr. unfold attrib.
      by rewrite map_fmap_singleton.
  - apply (proj1 (proj2 (normalization_rules sample_result)) "a").
    + reflexivity.
    + vm_compute. lia.
  - apply (proj1 (proj2 (proj2 (normalization_rules (leaf "a" " 1 "))))
             eq_refl eq_refl " 1 " eq_refl).
    vm_compute. discriminate.
  - apply (proj2 (proj2 (proj2 (normalization_rules (mkElement "a" ∅ None []))))
             eq_refl eq_refl).
    left. reflexivity.
Defined.

(** The design document's round trip: the envelope with status "success" and
    [<result><a>1</a><a>2</a></result>] has [data.a] equal to ["1", "2"]. *)
Example sample_round_trip :
  ∃ r d, parse_xml_response sample_fromstring sample_xml = Ok r
         ∧ success r = true
         ∧ data r = PyDict d
         ∧ d !! "a" = Some (PyList [PyStr "1"; PyStr "2"]).
Proof.
  eexists _, _. split; [reflexivity|]. split; [reflexivity|].
  split; [reflexivity|]. vm_compute. reflexivity.
Qed.

(** ** Response parsing *)

Lemma str_prefix_length n s :
  String.length (str_prefix n s) = Nat.min n (String.length s).
Proof.
  unfold str_prefix. revert s.
  induction n as [|n IH]; intros [|c s]; simpl; try reflexivity.
  by rewrite IH.
Qed.

Lemma str_prefix_is_prefix n s : ∃ rest, s = str_prefix n s +:+ rest.
Proof.
  unfold str_prefix. revert s.
  induction n as [|n IH]; intros [|c s]; simpl; eauto.
  destruct (IH s) as [rest Hrest]. exists rest.
  change (String c s = String c (substring 0 n s +:+ rest)). by f_equal.
Qed.

(** C8: with well-formedness decided by the library's parser, parseResponse
    raises XML_PARSE_ERROR exactly when the text is not well-formed; what it
    raises carries the first 500 characters of the payload at most; and on a
    well-formed text it returns a response whose success field is the
    case-sensitive, untrimmed test status == "success". *)
Theorem parse_response_contract (fromstring : string → string + Element)
    (xml_string : string) :
  (raises_code (parse_xml_response fromstring xml_string) "XML_PARSE_ERROR"
   ↔ ∃ reason, fromstring xml_string = inl reason)
  ∧ (∀ e, parse_xml_response fromstring xml_string = Raise e →
       ∃ pe snippet rest,
         e = Panos pe
         ∧ error_code pe = Some "XML_PARSE_ERROR"
         ∧ details pe = [("raw_response", DStr snippet)]
         ∧ xml_string = snippet +:+ rest
         ∧ (String.length snippet ≤ 500)%nat
         ∧ String.length snippet = Nat.min 500 (String.length xml_string))
  ∧ (∀ root, fromstring xml_string = inr root →
       ∃ r, parse_xml_response fromstring xml_string = Ok r
            ∧ status r = default "unknown" (attrib root !! "status")
            ∧ success r = String.eqb (status r) "success"
            ∧ (success r = true ↔ status r = "success")).
Proof.
  unfold parse_xml_response, raises_code.
  destruct (fromstring xml_string) as [reason|root]; split; [|split| |split].
  - split; [eauto|]. intros _. eexists. split; reflexivity.
  - intros e [= <-].
    destruct (str_prefix_is_prefix 500 xml_string) as [rest Hrest].
    eexists _, _, rest. repeat split; try reflexivity; try exact Hrest.
    + rewrite str_prefix_length. lia.
    + apply str_prefix_length.
  - intros root [=].
  - split; [by intros (e & [=] & _)|by intros [reason [=]]].
  - intros e [=].
  - intros root' [= <-]. eexists. split; [reflexivity|]. simpl.
    repeat split; try apply String.eqb_eq; done.
Qed.

Lemma parse_response_contract_witness :
  raises_code (parse_xml_response sample_fromstring truncated_xml)
    "XML_PARSE_ERROR"
  ∧ (∃ pe snippet rest,
       Panos (xml_parse_error "no element found: line 1, column 18"
                truncated_xml) = Panos pe
       ∧ error_code pe = Some "XML_PARSE_ERROR"
       ∧ details pe = [("raw_response", DStr snippet)]
       ∧ truncated_xml = snippet +:+ rest
       ∧ (String.length snippet ≤ 500)%nat
       ∧ String.length snippet = Nat.min 500 (String.length truncated_xml))
  ∧ (∃ r, parse_xml_response sample_fromstring sample_xml = Ok r
          ∧ status r = default "unknown" (attrib sample_root !! "status")
          ∧ success r = String.eqb (status r) "success"
          ∧ (success r = true ↔ status r = "success")).
Proof.
  split; [|split].
  - apply (proj1 (parse_response_contract sample_fromstring truncated_xml)).
    eexists. reflexivity.
  - apply (proj1 (proj2
             (parse_response_contract sample_fromstring truncated_xml))).
    reflexivity.
  - apply (proj2 (proj2
             (parse_response_contract sample_fromstring sample_xml))).
    reflexivity.
Defined.

(** The comparison is exact: a status in another case is no success. *)
Example status_is_case_sensitive (fromstring : string → string + Element)
    (xml_string : string) :
  fromstring xml_string
  = inr (mkElement "response" {[ "status" := "Success" ]} None []) →
  ∃ r, parse_xml_response fromstring xml_string = Ok r ∧ success r = false.
Proof.
  intros Hroot. unfold parse_xml_response. rewrite Hroot.
  eexists. split; reflexivity.
Qed.

(** ** Job polling *)

Lemma is_str_true v literal : is_str v literal = true ↔ v = PyStr literal.
Proof.
  destruct v; simpl; try (split; [discriminate|congruence]).
  rewrite String.eqb_eq. split; congruence.
Qed.

Section JobPollerFacts.

Variable elapsed_at : nat → Q.
Variable get_job_status : nat → result Response.
Variable job_id : string.
Variable timeout : Z.

Local Abbreviation poll := (poll_once elapsed_at get_job_status job_id timeout).
Local Abbreviation wait_from :=
  (wait_for_job_from elapsed_at get_job_status job_id timeout).
Local Abbreviation running := (still_running elapsed_at get_job_status timeout).
Local Abbreviation budget := (inject_Z timeout).

Lemma poll_once_timeout i :
  (budget < elapsed_at i)%Q →
  poll i
  = Leave (Raise (Panos (job_timeout job_id timeout (elapsed_at i)))).
Proof.
  intros Hlt. unfold poll_once.
  destruct (Qlt_le_dec (inject_Z timeout) (elapsed_at i)) as [_|Hle];
    [reflexivity|].
  exfalso. exact (Qlt_not_le _ _ Hlt Hle).
Qed.

Lemma poll_once_job i response job :
  (elapsed_at i <= budget)%Q →
  get_job_status i = Ok response →
  job_of response = Some job →
  poll i
  = if is_str (job_status job) "FIN" then
      Leave (Ok {| Job.success := is_str (job_result job) "OK";
                   Job.result := job_result job;
                   Job.details := PyDict job;
                   Job.elapsed := elapsed_at i |})
    else Retry.
Proof.
  intros Hle Hget Hjob. unfold poll_once.
  destruct (Qlt_le_dec (inject_Z timeout) (elapsed_at i)) as [Hlt|_];
    [exfalso; exact (Qlt_not_le _ _ Hlt Hle)|].
  rewrite Hget. unfold job_of in Hjob. unfold read_job.
  destruct (data response) as [| |l|d]; try discriminate. simpl.
  destruct (d !! "job") as [[| |l|job']|]; try discriminate;
    injection Hjob as <-; reflexivity.
Qed.

Lemma poll_once_still_running i : running i → poll i = Retry.
Proof.
  intros (Hle & response & job & Hget & Hjob & Hstatus).
  rewrite (poll_once_job i response job Hle Hget Hjob).
  destruct (is_str (job_status job) "FIN") eqn:Hfin; [|reflexivity].
  by apply is_str_true in Hfin.
Qed.

Lemma wait_for_job_from_retry k : ∀ i fuel,
  (∀ j, (i ≤ j < i + k)%nat → poll j = Retry) →
  wait_from (k + fuel) i = wait_from fuel (i + k).
Proof.
  induction k as [|k IH]; intros i fuel Hretry.
  - by rewrite Nat.add_0_r.
  - simpl. rewrite (Hretry i) by lia.
    rewrite IH by (intros j Hj; apply Hretry; lia).
    f_equal. lia.
Qed.

Lemma wait_for_job_from_leave i fuel r :
  (∀ j, (j < i)%nat → poll j = Retry) →
  poll i = Leave r → (i < fuel)%nat →
  wait_from fuel 0 = Some r.
Proof.
  intros Hretry Hleave Hfuel.
  replace fuel with (i + S (fuel - S i))%nat by lia.
  rewrite wait_for_job_from_retry by (intros j Hj; apply Hretry; lia).
  simpl. by rewrite Hleave.
Qed.

Lemma wait_for_job_from_deadline k : ∀ i fuel,
  (budget < elapsed_at (i + k))%Q →
  (∀ j, (i ≤ j < i + k)%nat →
        (elapsed_at j <= budget)%Q → poll j = Retry) →
  (k < fuel)%nat →
  ∃ j, (i ≤ j ≤ i + k)%nat
       ∧ (budget < elapsed_at j)%Q
       ∧ wait_from fuel i
         = Some (Raise (Panos (job_timeout job_id timeout (elapsed_at j)))).
Proof.
  induction k as [|k IH]; intros i fuel Hlate Hretry Hfuel;
    (destruct fuel as [|fuel]; [lia|]).
  - rewrite Nat.add_0_r in Hlate. exists i.
    split; [lia|]. split; [done|]. simpl. by rewrite poll_once_timeout.
  - destruct (Qlt_le_dec (inject_Z timeout) (elapsed_at i)) as [Hlt|Hle].
    + exists i. split; [lia|]. split; [done|].
      simpl. by rewrite poll_once_timeout.
    + destruct (IH (S i) fuel) as (j & Hj & Hjlate & Hrun).
      * by replace (S i + k)%nat with (i + S k)%nat by lia.
      * intros j Hj. apply Hretry. lia.
      * lia.
      * exists j. split; [lia|]. split; [done|].
        simpl. rewrite (Hretry i) by (done || lia). exact Hrun.
Qed.

End JobPollerFacts.

(** C3: the passes of wait, for any clock, stream of client answers and
    timeout.  When every pass before pass [i] found the job still running:
    an elapsed time above the timeout at the top of pass [i] makes wait raise
    JOB_TIMEOUT with the job id and that elapsed time, before the client is
    asked; otherwise a job record whose status is "FIN" makes it return the
    record with success true exactly when the result is "OK".  And when the
    elapsed time is above the timeout at some pass before which no pass
    within the budget sees "FIN", wait raises JOB_TIMEOUT. *)
Theorem wait_for_job_contract (elapsed_at : nat → Q)
    (get_job_status : nat → result Response) (job_id : string) (timeout : Z)
    (i fuel : nat) :
  (i < fuel)%nat →
  ((∀ j, (j < i)%nat →
      still_running elapsed_at get_job_status timeout j) →
   ((inject_Z timeout < elapsed_at i)%Q →
    wait_for_job elapsed_at get_job_status job_id timeout fuel
    = Some (Raise (Panos (job_timeout job_id timeout (elapsed_at i))))
    ∧ error_code (job_timeout job_id timeout (elapsed_at i))
      = Some "JOB_TIMEOUT"
    ∧ details (job_timeout job_id timeout (elapsed_at i))
      = [("job_id", DStr job_id); ("elapsed", DNum (elapsed_at i))])
   ∧ ((elapsed_at i <= inject_Z timeout)%Q →
      ∀ response job,
        get_job_status i = Ok response →
        job_of response = Some job →
        job_status job = PyStr "FIN" →
        ∃ outcome,
          wait_for_job elapsed_at get_job_status job_id timeout fuel
          = Some (Ok outcome)
          ∧ (Job.success outcome = true ↔ job_result job = PyStr "OK")
          ∧ Job.result outcome = job_result job
          ∧ Job.details outcome = PyDict job
          ∧ Job.elapsed outcome = elapsed_at i))
  ∧ ((inject_Z timeout < elapsed_at i)%Q →
     (∀ j, (j < i)%nat → (elapsed_at j <= inject_Z timeout)%Q →
           still_running elapsed_at get_job_status timeout j) →
     ∃ j, (j ≤ i)%nat
          ∧ (inject_Z timeout < elapsed_at j)%Q
          ∧ wait_for_job elapsed_at get_job_status job_id timeout fuel
            = Some (Raise (Panos (job_timeout job_id timeout (elapsed_at j))))).
Proof.
  intros Hfuel. unfold wait_for_job. split.
  - intros Hrunning.
    assert (Hretry : ∀ j, (j < i)%nat →
              poll_once elapsed_at get_job_status job_id timeout j = Retry).
    { intros j Hj. apply poll_once_still_running, Hrunning, Hj. }
    split.
    + intros Hlate. split; [|split; reflexivity].
      apply (wait_for_job_from_leave _ _ _ _ i); [done| |done].
      by apply poll_once_timeout.
    + intros Hle response job Hget Hjob Hfin.
      eexists. split.
      * apply (wait_for_job_from_leave _ _ _ _ i); [done| |done].
        rewrite (poll_once_job _ _ _ _ i response job Hle Hget Hjob), Hfin.
        reflexivity.
      * simpl. split; [apply is_str_true|]. done.
  - intros Hlate Hrunning.
    destruct (wait_for_job_from_deadline elapsed_at get_job_status job_id
                timeout i 0 fuel) as (j & Hj & Hjlate & Hrun); try done.
    + intros j Hj Hle. apply poll_once_still_running, Hrunning; [lia|done].
    + exists j. split; [lia|]. done.
Qed.

Lemma sample_clock_within (i : nat) (timeout : Z) :
  (30 * Z.of_nat i ≤ timeout)%Z → (sample_clock i <= inject_Z timeout)%Q.
Proof. intros H. unfold sample_clock. by rewrite <- Zle_Qle. Qed.

Lemma sample_clock_beyond (i : nat) (timeout : Z) :
  (timeout < 30 * Z.of_nat i)%Z → (inject_Z timeout < sample_clock i)%Q.
Proof. intros H. unfold sample_clock. by rewrite <- Zlt_Qlt. Qed.

Lemma sample_stream_running (timeout : Z) (j : nat) :
  (j < 2)%nat → (30 ≤ timeout)%Z →
  still_running sample_clock sample_stream timeout j.
Proof.
  intros Hj Ht. split; [apply sample_clock_within; lia|].
  exists (job_response "PEND" "OK"),
         (<["status" := PyStr "PEND"]> {[ "result" := PyStr "OK" ]}).
  split; [by destruct j as [|[|j]]; [| |lia]|].
  split; [reflexivity|]. vm_compute. discriminate.
Qed.

Lemma pending_stream_running (timeout : Z) (j : nat) :
  (30 * Z.of_nat j ≤ timeout)%Z →
  still_running sample_clock pending_stream timeout j.
Proof.
  intros Ht. split; [by apply sample_clock_within|].
  exists (job_response "PEND" "PEND"),
         (<["status" := PyStr "PEND"]> {[ "result" := PyStr "PEND" ]}).
  split; [reflexivity|]. split; [reflexivity|]. vm_compute. discriminate.
Qed.

Lemma wait_for_job_contract_witness :
  (∃ outcome,
     wait_for_job sample_clock sample_stream "42" 1800 3 = Some (Ok outcome)
     ∧ (Job.success outcome = true
        ↔ job_result (<["status" := PyStr "FIN"]> {[ "result" := PyStr "OK" ]})
          = PyStr "OK")
     ∧ Job.result outcome
       = job_result (<["status" := PyStr "FIN"]> {[ "result" := PyStr "OK" ]})
     ∧ Job.details outcome
       = PyDict (<["status" := PyStr "FIN"]> {[ "result" := PyStr "OK" ]})
     ∧ Job.elapsed outcome = sample_clock 2)
  ∧ (wait_for_job sample_clock pending_stream "42" 45 3
     = Some (Raise (Panos (job_timeout "42" 45 (sample_clock 2))))
     ∧ error_code (job_timeout "42" 45 (sample_clock 2)) = Some "JOB_TIMEOUT"
     ∧ details (job_timeout "42" 45 (sample_clock 2))
       = [("job_id", DStr "42"); ("elapsed", DNum (sample_clock 2))])
  ∧ (∃ j, (j ≤ 5)%nat
          ∧ (inject_Z 45 < sample_clock j)%Q
          ∧ wait_for_job sample_clock pending_stream "42" 45 9
            = Some (Raise (Panos (job_timeout "42" 45 (sample_clock j))))).
Proof.
  split; [|split].
  - refine (proj2 (proj1 (wait_for_job_contract sample_clock sample_stream
                            "42" 1800 2 3 _) _) _
              (job_response "FIN" "OK")
              (<["status" := PyStr "FIN"]> {[ "result" := PyStr "OK" ]})
              _ _ _).
    + lia.
    + intros j Hj. apply sample_stream_running; lia.
    + apply sample_clock_within. lia.
    + reflexivity.
    + reflexivity.
    + vm_compute. reflexivity.
  - refine (proj1 (proj1 (wait_for_job_contract sample_clock pending_stream
                            "42" 45 2 3 _) _) _).
    + lia.
    + intros j Hj. apply pending_stream_running. lia.
    + apply sample_clock_beyond. lia.
  - refine (proj2 (wait_for_job_contract sample_clock pending_stream
                     "42" 45 5 9 _) _ _).
    + lia.
    + apply sample_clock_beyond. lia.
    + intros j Hj Hle. apply pending_stream_running.
      unfold sample_clock in Hle. by rewrite <- Zle_Qle in Hle.
Defined.

(** The design document's stream: statuses PEND, PEND, FIN with result OK
    give success true and result "OK". *)
Example sample_stream_outcome :
  ∃ outcome,
    wait_for_job sample_clock sample_stream "42" 1800 3 = Some (Ok outcome)
    ∧ Job.success outcome = true
    ∧ Job.result outcome = PyStr "OK".
Proof. eexists. split; [vm_compute; reflexivity|]. split; reflexivity. Qed.

(** ** HA state extraction *)

Lemma truthy_dict (d : gmap string pyvalue) :
  truthy (PyDict d) = true ↔ d ≠ ∅.
Proof.
  simpl. rewrite negb_true_iff, bool_decide_eq_false. done.
Qed.

(** C7, as amended: on a response whose data is a map, and whose group,
    local-info and peer-info entries are maps where they are present,
    extract returns a snapshot.  Its enabled field is true exactly when the
    group is present and not empty; every other field is the value found at
    its path or its fallback: "standalone" for mode, "unknown" for state,
    peer_state and running_sync, "no" for running_sync_enabled and
    preemptive, "0" for priority and "" for peer_address.  Without a group
    the snapshot is the standalone one. *)
Theorem extract_ha_info_fallbacks (ha_response : Response)
    (d group local_info peer_info : gmap string pyvalue) :
  data ha_response = PyDict d →
  default (PyDict ∅) (d !! "group") = PyDict group →
  default (PyDict ∅) (group !! "local-info") = PyDict local_info →
  default (PyDict ∅) (group !! "peer-info") = PyDict peer_info →
  extract_ha_info ha_response =
    Ok {| Ha.enabled := truthy (PyDict group);
          Ha.mode := default (PyStr "standalone") (local_info !! "mode");
          Ha.state := default (PyStr "unknown") (local_info !! "state");
          Ha.peer_state := default (PyStr "unknown") (peer_info !! "state");
          Ha.running_sync :=
            default (PyStr "unknown") (local_info !! "running-sync");
          Ha.running_sync_enabled :=
            default (PyStr "no") (local_info !! "running-sync-enabled");
          Ha.preemptive := default (PyStr "no") (local_info !! "preemptive");
          Ha.priority := default (PyStr "0") (local_info !! "priority");
          Ha.peer_address := default (PyStr "") (peer_info !! "mgmt-ip");
          Ha.raw := PyDict d |}
  ∧ (truthy (PyDict group) = true
     ↔ d !! "group" = Some (PyDict group) ∧ group ≠ ∅)
  ∧ (d !! "group" = None →
     extract_ha_info ha_response = Ok (standalone_snapshot (PyDict d))).
Proof.
  intros Hdata Hgroup Hlocal Hpeer.
  match goal with |- ?run ∧ _ => assert (Hrun : run) end.
  { unfold extract_ha_info. rewrite Hdata. simpl. rewrite Hgroup. simpl.
    rewrite Hlocal, Hpeer. reflexivity. }
  split; [exact Hrun|]. split.
  - rewrite truthy_dict. split; [|tauto].
    intros Hne. split; [|done].
    destruct (d !! "group") as [g|]; simpl in Hgroup; congruence.
  - intros Hnone. rewrite Hrun. rewrite Hnone in Hgroup.
    injection Hgroup as <-. rewrite lookup_empty in Hlocal, Hpeer.
    injection Hlocal as <-. injection Hpeer as <-. reflexivity.
Qed.

Lemma extract_ha_info_fallbacks_witness :
  extract_ha_info (response_with (PyDict {[ "enabled" := PyStr "no" ]}))
  = Ok (standalone_snapshot (PyDict {[ "enabled" := PyStr "no" ]})).
Proof.
  refine (proj2 (proj2 (extract_ha_info_fallbacks
                          (response_with (PyDict {[ "enabled" := PyStr "no" ]}))
                          {[ "enabled" := PyStr "no" ]} ∅ ∅ ∅ _ _ _ _)) _);
    vm_compute; reflexivity.
Defined.

(** C7, as stated, fails twice: with no HA data the running-sync field falls
    back to "unknown", not to "no"; and on the normalization of an empty
    [<result/>], which is None, extract raises instead of returning. *)
Lemma extract_ha_info_counterexample :
  (∃ snapshot,
     extract_ha_info (response_with (PyDict ∅)) = Ok snapshot
     ∧ Ha.running_sync snapshot = PyStr "unknown"
     ∧ Ha.running_sync snapshot ≠ PyStr "no")
  ∧ (xml_element_to_dict (mkElement "result" ∅ None []) = PyNone
     ∧ ∃ e, extract_ha_info (response_with PyNone) = Raise e).
Proof.
  split.
  - eexists. split; [reflexivity|]. split; [reflexivity|]. discriminate.
  - split; [reflexivity|]. eexists. reflexivity.
Qed.

(** A group, local-info or data entry that is present but is not a map makes
    the lookup on it fail: the normalizer yields None for [<result/>] and for
    [<group/>]. *)
Example extract_ha_info_on_empty_result :
  xml_element_to_dict (mkElement "result" ∅ None []) = PyNone
  ∧ extract_ha_info (response_with PyNone)
    = Raise (AttributeError "'NoneType' object has no attribute 'get'").
Proof. split; reflexivity. Qed.

Example extract_ha_info_on_empty_group :
  ∃ d, xml_element_to_dict
         (mkElement "result" ∅ None [mkElement "group" ∅ None []]) = d
       ∧ extract_ha_info (response_with d)
         = Raise (AttributeError "'NoneType' object has no attribute 'get'").
Proof. eexists. split; [reflexivity|]. vm_compute. reflexivity. Qed.

(** * Further properties *)

(** ** Decimal text of an integer *)

Lemma append_assoc (a b c : string) : (a +:+ b) +:+ c = a +:+ b +:+ c.
Proof.
  induction a as [|x a IH]; [reflexivity|].
  change (String x ((a +:+ b) +:+ c) = String x (a +:+ b +:+ c)).
  by rewrite IH.
Qed.

Lemma append_length (a b : string) :
  String.length (a +:+ b) = (String.length a + String.length b)%nat.
Proof.
  induction a as [|x a IH]; [reflexivity|].
  change (S (String.length (a +:+ b)) = S (String.length a + String.length b)).
  by rewrite IH.
Qed.

Lemma digits_only_app (a b : string) :
  digits_only (a +:+ b) = digits_only a && digits_only b.
Proof.
  induction a as [|x a IH]; [reflexivity|].
  change (is_digit x && digits_only (a +:+ b)
          = is_digit x && digits_only a && digits_only b).
  by rewrite IH, andb_assoc.
Qed.

Lemma pretty_N_char_digit (n : N) :
  (n < 10)%N →
  is_digit (pretty_N_char n) = true ∧ digit_value (pretty_N_char n) = n.
Proof.
  intros Hn.
  destruct n as [|p]; [done|].
  do 4 (destruct p as [p|p|]; try lia; try done).
Qed.

(** The digits [pretty_N_go] puts in front of its accumulator. *)
Lemma pretty_N_go_digits (x : N) : ∀ s,
  ∃ d, pretty_N_go x s = d +:+ s
       ∧ digits_only d = true
       ∧ (x ≠ 0%N → d ≠ "")
       ∧ ∀ acc r, int_of_digits_from acc (d +:+ r)
                  = int_of_digits_from
                      (acc * 10 ^ N.of_nat (String.length d) + x)%N r.
Proof.
  induction x as [x IH] using (well_founded_induction N.lt_wf_0).
  intros s. destruct (decide (x = 0%N)) as [->|Hx].
  - exists "". rewrite pretty_N_go_0. repeat split; try done.
    intros acc r. simpl. f_equal. lia.
  - rewrite pretty_N_go_step by lia.
    destruct (IH (x `div` 10)%N) with (s := String (pretty_N_char (x `mod` 10)) s)
      as (d & Hgo & Hd & _ & Hint).
    { apply N.div_lt; lia. }
    destruct (pretty_N_char_digit (x `mod` 10)%N) as [Hc Hv].
    { apply N.mod_lt. lia. }
    exists (d +:+ String (pretty_N_char (x `mod` 10)) "").
    split; [by rewrite Hgo, append_assoc|].
    split; [rewrite digits_only_app, Hd; simpl; by rewrite Hc|].
    split; [by destruct d|].
    intros acc r. rewrite append_assoc.
    change (String (pretty_N_char (x `mod` 10)) "" +:+ r)
      with (String (pretty_N_char (x `mod` 10)) r).
    rewrite Hint. simpl. rewrite Hv. f_equal.
    rewrite append_length. simpl.
    rewrite Nat2N.inj_add, N.pow_add_r. simpl (N.of_nat 1).
    rewrite N.pow_1_r.
    pose proof (N.div_mod x 10) as Hdm. lia.
Qed.

Lemma str_of_int_is_number (n : N) : is_number (str_of_int n).
Proof.
  unfold str_of_int, pretty, pretty_N.
  destruct (decide (n = 0%N)) as [->|Hn]; [done|].
  destruct (pretty_N_go_digits n "") as (d & -> & Hd & Hne & _).
  rewrite append_empty_r. split; [by apply Hne|done].
Qed.

Lemma int_of_str_of_int (n : N) : int_of_digits (str_of_int n) = n.
Proof.
  unfold str_of_int, pretty, pretty_N, int_of_digits.
  destruct (decide (n = 0%N)) as [->|Hn]; [done|].
  destruct (pretty_N_go_digits n "") as (d & -> & _ & _ & Hint).
  rewrite Hint. simpl. lia.
Qed.

(** ** Stripping *)

Lemma lstrip_head (s : string) :
  match lstrip s with
  | String c _ => is_space c = false
  | EmptyString => True
  end.
Proof.
  induction s as [|c s IH]; [done|]. simpl.
  destruct (is_space c) eqn:Hc; [exact IH|exact Hc].
Qed.

Lemma rstrip_idem (s : string) : rstrip (rstrip s) = rstrip s.
Proof.
  induction s as [|c s IH]; [done|]. simpl.
  destruct (rstrip s) as [|c' r] eqn:Hr.
  - destruct (is_space c) eqn:Hc; [done|]. simpl. by rewrite Hc.
  - change (rstrip (String c (String c' r))) with
      (match rstrip (String c' r) with
       | "" => if is_space c then "" else String c ""
       | r' => String c r'
       end).
    by rewrite IH.
Qed.

Lemma rstrip_keeps_head (c : ascii) (s : string) :
  is_space c = false → ∃ r, rstrip (String c s) = String c r.
Proof.
  intros Hc. simpl. destruct (rstrip s); [rewrite Hc|]; eauto.
Qed.

Lemma strip_idem (s : string) : strip (strip s) = strip s.
Proof.
  unfold strip. pose proof (lstrip_head s) as Hhead.
  destruct (lstrip s) as [|c t]; [done|].
  destruct (rstrip_keeps_head c t Hhead) as [r Hr].
  rewrite Hr. simpl lstrip. rewrite Hhead, <- Hr. apply rstrip_idem.
Qed.

Lemma rstrip_app (a b : string) :
  b ≠ "" → rstrip b = b → rstrip (a +:+ b) = a +:+ b.
Proof.
  intros Hne Hb. induction a as [|c a IH]; [exact Hb|].
  change (String c a +:+ b) with (String c (a +:+ b)). simpl.
  rewrite IH. destruct a; [by destruct b|done].
Qed.

Lemma digit_not_space (c : ascii) : is_digit c = true → is_space c = false.
Proof.
  unfold is_digit, is_space. intros H.
  apply andb_true_iff in H as [H1 H2].
  apply N.leb_le in H1. apply N.leb_le in H2.
  repeat match goal with
  | |- context [(?x <=? ?y)%N] => destruct (N.leb_spec x y)
  | |- context [(?x =? ?y)%N] => destruct (N.eqb_spec x y)
  end; try reflexivity; lia.
Qed.

Lemma rstrip_number (d : string) : digits_only d = true → rstrip d = d.
Proof.
  induction d as [|c d IH]; [done|]. simpl.
  intros [Hc Hd]%andb_true_iff. rewrite (IH Hd).
  destruct d; [by rewrite (digit_not_space c Hc)|done].
Qed.

(** The text of a well-formed match has no white space at either end. *)
Lemma strip_version_text (m : version_match) :
  well_formed_match m → strip (version_text m) = version_text m.
Proof.
  intros ((Hne1 & Hd1) & (Hne2 & Hd2) & (Hne3 & Hd3) & Hg4 & Hg5).
  unfold strip.
  assert (Hl : lstrip (version_text m) = version_text m).
  { unfold version_text. destruct (group1 m) as [|c g]; [done|].
    simpl in Hd1. apply andb_true_iff in Hd1 as [Hc _].
    change (String c g +:+ ?r) with (String c (g +:+ r)).
    simpl. by rewrite (digit_not_space c Hc). }
  rewrite Hl. unfold version_text.
  assert (Htail : rstrip (group3 m +:+ suffix_text "h" (group4 m)
                          +:+ suffix_text "c" (group5 m))
                  = group3 m +:+ suffix_text "h" (group4 m)
                    +:+ suffix_text "c" (group5 m)
                  ∧ group3 m +:+ suffix_text "h" (group4 m)
                    +:+ suffix_text "c" (group5 m) ≠ "").
  { split; [|by destruct (group3 m)].
    destruct (group5 m) as [d5|]; simpl in Hg5.
    - destruct Hg5 as [Hne5 Hd5].
      rewrite <- !append_assoc. apply rstrip_app.
      + done.
      + change (rstrip (String "-" (String "c" d5))
                = String "-" (String "c" d5)).
        simpl. rewrite (rstrip_number d5 Hd5). by destruct d5.
    - simpl suffix_text. rewrite append_empty_r.
      destruct (group4 m) as [d4|]; simpl in Hg4.
      + destruct Hg4 as [Hne4 Hd4]. apply rstrip_app; [done|].
        simpl. rewrite (rstrip_number d4 Hd4). by destruct d4.
      + simpl suffix_text. rewrite append_empty_r.
        by apply rstrip_number. }
  destruct Htail as [Htail Hne].
  set (tail := group3 m +:+ suffix_text "h" (group4 m)
               +:+ suffix_text "c" (group5 m)) in *.
  assert (Hre : group1 m +:+ "." +:+ group2 m +:+ "." +:+ tail
                = (group1 m +:+ "." +:+ group2 m +:+ ".") +:+ tail)
    by (by rewrite !append_assoc).
  rewrite Hre. apply rstrip_app; [exact Hne|exact Htail].
Qed.

(** Parsing the text of a well-formed match gives back its numbers. *)
Lemma parse_version_text (m : version_match) :
  well_formed_match m →
  parse_panos_version (version_text m)
  = Some {| major := int_of_digits (group1 m);
            minor := int_of_digits (group2 m);
            patch := int_of_digits (group3 m);
            hotfix := int_of_group (group4 m);
            candidate := int_of_group (group5 m);
            raw := version_text m |}.
Proof.
  intros Hm. unfold parse_panos_version.
  rewrite (strip_version_text m Hm).
  rewrite (proj2 (re_match_version_spec (version_text m) m)) by done.
  destruct Hm as ((Hne1 & _) & _).
  unfold version_text. by destruct (group1 m).
Qed.

Lemma canonical_match_well_formed (v : ParsedVersion) :
  well_formed_match (canonical_match v).
Proof.
  unfold well_formed_match, canonical_match. simpl.
  repeat split; try apply str_of_int_is_number.
  destruct (0 <? hotfix v)%N; simpl; [apply str_of_int_is_number|done].
Qed.

Lemma normalize_parsed (version : string) (p : ParsedVersion) :
  parse_panos_version version = Some p →
  panos_normalize_version version = version_text (canonical_match p).
Proof.
  intros Hp. unfold panos_normalize_version, version_text, canonical_match.
  rewrite Hp. simpl.
  destruct (0 <? hotfix p)%N; simpl.
  - rewrite !append_assoc. rewrite append_empty_r. reflexivity.
  - rewrite !append_empty_r. reflexivity.
Qed.

Lemma parse_normalized (version : string) (p : ParsedVersion) :
  parse_panos_version version = Some p →
  parse_panos_version (panos_normalize_version version)
  = Some {| major := major p; minor := minor p; patch := patch p;
            hotfix := hotfix p; candidate := 0;
            raw := panos_normalize_version version |}.
Proof.
  intros Hp. rewrite (normalize_parsed version p Hp).
  rewrite (parse_version_text _ (canonical_match_well_formed p)).
  unfold canonical_match. simpl. rewrite !int_of_str_of_int.
  f_equal. f_equal.
  destruct (N.ltb_spec 0 (hotfix p)); simpl;
    [apply int_of_str_of_int|lia].
Qed.

(** ** Normalization and the version filters *)

Lemma parse_strip (version : string) :
  parse_panos_version (strip version) = parse_panos_version version.
Proof.
  unfold parse_panos_version. rewrite strip_idem.
  destruct version as [|c s] eqn:Hv; [done|]. rewrite <- Hv.
  destruct (strip version) eqn:Hs; [|done].
  by destruct version.
Qed.

Lemma compare_keys_cases (v1 v2 : ParsedVersion) :
  (compare_keys compared_keys v1 v2 = (-1)%Z ∧ version_lt v1 v2)
  ∨ (compare_keys compared_keys v1 v2 = 0%Z ∧ version_same v1 v2)
  ∨ (compare_keys compared_keys v1 v2 = 1%Z ∧ version_lt v2 v1).
Proof.
  unfold compared_keys, version_lt, version_same. simpl.
  repeat match goal with
  | |- context [(?x <? ?y)%N] => destruct (N.ltb_spec x y)
  end; [left|right; right|left|right; right|left|right; right|left
        |right; right|right; left]; split; try reflexivity; lia.
Qed.

(** Parsing the normalized text of a version that parses gives the same
    major, minor, patch and hotfix, candidate 0, and the normalized text as
    raw: normalization loses the candidate and nothing else. *)
Theorem normalize_parses_back (version : string) (p : ParsedVersion) :
  parse_panos_version version = Some p →
  parse_panos_version (panos_normalize_version version)
  = Some {| major := major p; minor := minor p; patch := patch p;
            hotfix := hotfix p; candidate := 0;
            raw := panos_normalize_version version |}.
Proof.
  intros Hp. rewrite (normalize_parsed version p Hp).
  rewrite (parse_version_text _ (canonical_match_well_formed p)).
  unfold canonical_match. simpl. rewrite !int_of_str_of_int.
  f_equal. f_equal.
  destruct (N.ltb_spec 0 (hotfix p)); simpl;
    [apply int_of_str_of_int|lia].
Qed.

Lemma normalize_parses_back_witness :
  parse_panos_version (panos_normalize_version " 010.02.9-h0-c7 ")
  = Some {| major := 10; minor := 2; patch := 9; hotfix := 0; candidate := 0;
            raw := panos_normalize_version " 010.02.9-h0-c7 " |}.
Proof.
  apply (normalize_parses_back " 010.02.9-h0-c7 "
           (mkVersion 10 2 9 0 7 "010.02.9-h0-c7")).
  vm_compute. reflexivity.
Defined.

(** Normalizing twice is normalizing once, on every string. *)
Theorem normalize_idempotent (version : string) :
  panos_normalize_version (panos_normalize_version version)
  = panos_normalize_version version.
Proof.
  destruct (parse_panos_version version) as [p|] eqn:Hp.
  - pose proof (parse_normalized version p Hp) as Hn.
    rewrite (normalize_parsed _ _ Hn), (normalize_parsed _ _ Hp).
    reflexivity.
  - unfold panos_normalize_version at 2. rewrite Hp.
    unfold panos_normalize_version. by rewrite Hp.
Qed.

(** Every version filter and the upgrade-path check answer the same on
    normalized strings as on the strings themselves. *)
Theorem normalize_preserves_filters (a b : string)
    (matrix : gmap string MatrixEntry) :
  panos_version_compare (panos_normalize_version a) (panos_normalize_version b)
  = panos_version_compare a b
  ∧ panos_major_minor (panos_normalize_version a) = panos_major_minor a
  ∧ panos_is_hotfix (panos_normalize_version a) = panos_is_hotfix a
  ∧ is_upgrade_path_valid (panos_normalize_version a)
      (panos_normalize_version b) matrix
    = is_upgrade_path_valid a b matrix.
Proof.
  assert (Hnone : ∀ v, parse_panos_version v = None →
                       panos_normalize_version v = v).
  { intros v Hv. unfold panos_normalize_version. by rewrite Hv. }
  destruct (parse_panos_version a) as [pa|] eqn:Ha.
  - pose proof (parse_normalized a pa Ha) as Hna.
    assert (Hab : panos_major_minor (panos_normalize_version a)
                  = panos_major_minor a
                  ∧ panos_is_hotfix (panos_normalize_version a)
                    = panos_is_hotfix a).
    { unfold panos_major_minor, panos_is_hotfix. by rewrite Hna, Ha. }
    destruct (parse_panos_version b) as [pb|] eqn:Hb.
    + pose proof (parse_normalized b pb Hb) as Hnb.
      rewrite (panos_version_compare_parsed _ _ _ _ Hna Hnb).
      rewrite (panos_version_compare_parsed _ _ _ _ Ha Hb).
      rewrite (upgrade_path_parsed _ _ _ _ _ Hna Hnb).
      rewrite (upgrade_path_parsed _ _ _ _ _ Ha Hb).
      split; [reflexivity|]. split; [apply Hab|]. split; [apply Hab|].
      reflexivity.
    + rewrite (Hnone b Hb).
      rewrite !panos_version_compare_unparsed by auto.
      rewrite !upgrade_path_unparsed by auto.
      split; [reflexivity|]. split; [apply Hab|]. split; [apply Hab|].
      reflexivity.
  - rewrite (Hnone a Ha).
    destruct (parse_panos_version b) as [pb|] eqn:Hb.
    + rewrite !panos_version_compare_unparsed by auto.
      rewrite !upgrade_path_unparsed by auto. done.
    + by rewrite (Hnone b Hb).
Qed.

(** On strings that parse the predicates are those of a total preorder:
    exactly one of lt, eq, gt holds; lte is transitive; gte and gt are lte
    and lt with the arguments exchanged; lte is lt or eq. *)
Theorem version_predicates_total_preorder (a b c : string) :
  is_Some (parse_panos_version a) → is_Some (parse_panos_version b) →
  is_Some (parse_panos_version c) →
  (panos_version_lt a b = true ∧ panos_version_eq a b = false
   ∧ panos_version_gt a b = false
   ∨ panos_version_lt a b = false ∧ panos_version_eq a b = true
     ∧ panos_version_gt a b = false
   ∨ panos_version_lt a b = false ∧ panos_version_eq a b = false
     ∧ panos_version_gt a b = true)
  ∧ (panos_version_lte a b = true → panos_version_lte b c = true →
     panos_version_lte a c = true)
  ∧ panos_version_gte a b = panos_version_lte b a
  ∧ panos_version_gt a b = panos_version_lt b a
  ∧ panos_version_lte a b = panos_version_lt a b || panos_version_eq a b.
Proof.
  intros [pa Ha] [pb Hb] [pc Hc].
  unfold panos_version_lt, panos_version_eq, panos_version_gt,
    panos_version_lte, panos_version_gte.
  rewrite (panos_version_compare_parsed _ _ _ _ Ha Hb).
  rewrite (panos_version_compare_parsed _ _ _ _ Hb Hc).
  rewrite (panos_version_compare_parsed _ _ _ _ Ha Hc).
  rewrite (panos_version_compare_parsed _ _ _ _ Hb Ha).
  rewrite (compare_keys_flip compared_keys pa pb).
  destruct (compare_keys_cases pa pb) as [[-> Hab]|[[-> Hab]|[-> Hab]]];
  destruct (compare_keys_cases pb pc) as [[-> Hbc]|[[-> Hbc]|[-> Hbc]]];
  destruct (compare_keys_cases pa pc) as [[-> Hac]|[[-> Hac]|[-> Hac]]];
  simpl; repeat split; auto; try discriminate;
  exfalso; unfold version_lt, version_same in *; lia.
Qed.

Lemma version_predicates_total_preorder_witness :
  panos_version_lte "10.1.9" "11.0.1" = true.
Proof.
  refine (proj1 (proj2 (version_predicates_total_preorder
                          "10.1.9" "10.2.0-h3" "11.0.1" _ _ _)) _ _);
    vm_compute; eauto.
Defined.

(** Surrounding white space is invisible to the parser: a string and its
    stripped form parse alike, so every filter built on the parser ignores
    it. *)
Theorem parse_ignores_surrounding_space (a b : string) :
  parse_panos_version (strip a) = parse_panos_version a
  ∧ panos_version_compare (strip a) (strip b) = panos_version_compare a b
  ∧ panos_major_minor (strip a) = panos_major_minor a
  ∧ (∀ p, parse_panos_version a = Some p → raw p = strip a).
Proof.
  unfold panos_version_compare, panos_major_minor.
  rewrite !parse_strip. repeat split.
  intros p. unfold parse_panos_version.
  destruct a; [done|]. destruct (re_match_version _); [|done].
  by intros [= <-].
Qed.

Lemma parse_ignores_surrounding_space_witness :
  raw (mkVersion 10 1 0 0 0 "10.1.0") = strip "  10.1.0 ".
Proof.
  apply (proj2 (proj2 (proj2
           (parse_ignores_surrounding_space "  10.1.0 " "")))).
  vm_compute. reflexivity.
Defined.

Lemma parse_release_text (M m p : N) :
  parse_panos_version (release_text M m p)
  = Some (mkVersion M m p 0 0 (release_text M m p)).
Proof.
  pose (mt := mkMatch (str_of_int M) (str_of_int m) (str_of_int p) None None).
  assert (Htext : version_text mt = release_text M m p).
  { unfold version_text, release_text, mt. simpl.
    by rewrite !append_empty_r. }
  rewrite <- Htext, parse_version_text.
  - simpl. by rewrite !int_of_str_of_int.
  - repeat split; try apply str_of_int_is_number.
Qed.

Lemma parse_hotfix_text (M m p h : N) :
  parse_panos_version (hotfix_text M m p h)
  = Some (mkVersion M m p h 0 (hotfix_text M m p h)).
Proof.
  pose (mt := mkMatch (str_of_int M) (str_of_int m) (str_of_int p)
                (Some (str_of_int h)) None).
  assert (Htext : version_text mt = hotfix_text M m p h).
  { unfold version_text, hotfix_text, release_text, mt. simpl.
    by rewrite !append_assoc, append_empty_r. }
  rewrite <- Htext, parse_version_text.
  - simpl. by rewrite !int_of_str_of_int.
  - repeat split; try apply str_of_int_is_number.
Qed.

(** Printing and parsing are inverse on releases: the text
    "major.minor.patch" of three numbers parses to those numbers, and so
    does the text with a "-h" suffix; a hotfix of a release sorts strictly
    between the release and the next patch release, is recognised by
    is_hotfix exactly when its number is positive, and hotfix 0 compares
    equal to the release itself. *)
Theorem hotfix_sorts_after_release (M m p h : N) :
  parse_panos_version (release_text M m p)
  = Some (mkVersion M m p 0 0 (release_text M m p))
  ∧ parse_panos_version (hotfix_text M m p h)
    = Some (mkVersion M m p h 0 (hotfix_text M m p h))
  ∧ panos_is_hotfix (hotfix_text M m p h) = (0 <? h)%N
  ∧ panos_version_gte (hotfix_text M m p h) (release_text M m p) = true
  ∧ panos_version_gt (hotfix_text M m p h) (release_text M m p) = (0 <? h)%N
  ∧ panos_version_lt (hotfix_text M m p h) (release_text M m (p + 1)) = true.
Proof.
  pose proof (parse_release_text M m p) as Hr.
  pose proof (parse_release_text M m (p + 1)) as Hr'.
  pose proof (parse_hotfix_text M m p h) as Hh.
  split; [exact Hr|]. split; [exact Hh|].
  unfold panos_is_hotfix, panos_version_gte, panos_version_gt,
    panos_version_lt.
  rewrite (panos_version_compare_parsed _ _ _ _ Hh Hr).
  rewrite (panos_version_compare_parsed _ _ _ _ Hh Hr'), Hh.
  unfold compared_keys. simpl. rewrite !N.ltb_irrefl.
  destruct (N.ltb_spec h 0); [lia|].
  destruct (N.ltb_spec 0 h); simpl;
    (destruct (N.ltb_spec p (p + 1)); [done|lia]).
Qed.

(** ** Sanitizers *)

Lemma string_map_length f s :
  String.length (string_map f s) = String.length s.
Proof. induction s as [|c s IH]; simpl; congruence. Qed.

Lemma string_forall_map P f s :
  (∀ c, P (f c) = true) → string_forall P (string_map f s) = true.
Proof.
  intros Hf. induction s as [|c s IH]; [done|]. simpl. by rewrite Hf, IH.
Qed.

Lemma string_map_fixed P f s :
  (∀ c, P c = true → f c = c) → string_forall P s = true →
  string_map f s = s.
Proof.
  intros Hf. induction s as [|c s IH]; [done|]. simpl.
  intros [Hc Hs]%andb_true_iff. by rewrite (Hf c Hc), (IH Hs).
Qed.

Lemma string_forall_prefix P n s :
  string_forall P s = true → string_forall P (str_prefix n s) = true.
Proof.
  unfold str_prefix. revert s.
  induction n as [|n IH]; intros [|c s]; simpl; try done.
  intros [Hc Hs]%andb_true_iff. by rewrite Hc, (IH s Hs).
Qed.

Lemma str_prefix_short n s :
  (String.length s ≤ n)%nat → str_prefix n s = s.
Proof.
  unfold str_prefix. revert s.
  induction n as [|n IH]; intros [|c s]; simpl; try done; try lia.
  intros Hlen. rewrite IH; [done|lia].
Qed.

Lemma hostname_char_safe c : hostname_safe (hostname_char c) = true.
Proof. unfold hostname_char. by destruct (hostname_safe c) eqn:Hc. Qed.

Lemma filename_char_safe c : filename_safe (filename_char c) = true.
Proof. unfold filename_char. by destruct (filename_safe c) eqn:Hc. Qed.

(** sanitize_hostname returns at most 63 characters, never the empty
    string, only word characters, dashes and dots (so no path separator and
    no white space); it keeps the length of a non-empty input up to that
    bound, and applying it again changes nothing. *)
Theorem sanitize_hostname_safe (hostname : string) :
  (String.length (sanitize_hostname hostname) ≤ 63)%nat
  ∧ sanitize_hostname hostname ≠ ""
  ∧ string_forall hostname_safe (sanitize_hostname hostname) = true
  ∧ sanitize_hostname (sanitize_hostname hostname) = sanitize_hostname hostname
  ∧ (hostname ≠ "" →
     String.length (sanitize_hostname hostname)
     = Nat.min 63 (String.length hostname)).
Proof.
  destruct hostname as [|c s]; [by repeat split; vm_compute; try lia|].
  unfold sanitize_hostname at 1 2 3 5 6.
  set (r := str_prefix 63 (string_map hostname_char (String c s))).
  assert (Hlen : String.length r
                 = Nat.min 63 (String.length (String c s))).
  { unfold r. by rewrite str_prefix_length, string_map_length. }
  assert (Hsafe : string_forall hostname_safe r = true).
  { apply string_forall_prefix, string_forall_map, hostname_char_safe. }
  assert (Hne : r ≠ "").
  { intros Hr. rewrite Hr in Hlen. simpl in Hlen. lia. }
  split; [lia|]. split; [done|]. split; [done|]. split; [|done].
  unfold sanitize_hostname. destruct r as [|c' r'] eqn:Hr; [done|].
  rewrite (string_map_fixed hostname_safe hostname_char) by
    (done || intros x Hx; unfold hostname_char; by rewrite Hx).
  apply str_prefix_short. lia.
Qed.

Lemma sanitize_hostname_safe_witness :
  String.length (sanitize_hostname "fw 01/core.example.com")
  = Nat.min 63 (String.length "fw 01/core.example.com").
Proof.
  apply (proj2 (proj2 (proj2 (proj2
           (sanitize_hostname_safe "fw 01/core.example.com"))))).
  discriminate.
Defined.

Lemma squeeze_underscores_forall P s :
  string_forall P s = true →
  string_forall P (squeeze_underscores s) = true.
Proof.
  induction s as [|c s IH]; [done|].
  intros [Hc Hs]%andb_true_iff.
  change (squeeze_underscores (String c s)) with
    (match s with
     | String c' _ =>
         if Ascii.eqb c "_" && Ascii.eqb c' "_" then squeeze_underscores s
         else String c (squeeze_underscores s)
     | EmptyString => String c EmptyString
     end).
  destruct s as [|c' s']; [simpl; by rewrite Hc|].
  destruct (Ascii.eqb c "_" && Ascii.eqb c' "_"); [by apply IH|].
  change (P c && string_forall P (squeeze_underscores (String c' s')) = true).
  by rewrite Hc, IH.
Qed.

Lemma squeeze_underscores_head c s :
  ∃ t, squeeze_underscores (String c s) = String c t
       ∨ (c = "_"%char ∧ first_char s = Some "_"%char
          ∧ squeeze_underscores (String c s) = squeeze_underscores s).
Proof.
  change (squeeze_underscores (String c s)) with
    (match s with
     | String c' _ =>
         if Ascii.eqb c "_" && Ascii.eqb c' "_" then squeeze_underscores s
         else String c (squeeze_underscores s)
     | EmptyString => String c EmptyString
     end).
  destruct s as [|c' s']; [by eexists; left|].
  destruct (Ascii.eqb_spec c "_") as [->|]; simpl;
    [|by eexists; left].
  destruct (Ascii.eqb_spec c' "_") as [->|]; simpl;
    [exists ""; by right|by eexists; left].
Qed.

Lemma squeeze_underscores_first s :
  first_char (squeeze_underscores s) = first_char s.
Proof.
  induction s as [|c s IH]; [done|].
  destruct (squeeze_underscores_head c s) as [t [->|(-> & Hs & ->)]];
    [done|].
  by rewrite IH, Hs.
Qed.

Lemma squeeze_underscores_no_double s :
  no_double_underscore (squeeze_underscores s) = true.
Proof.
  induction s as [|c s IH]; [done|].
  change (squeeze_underscores (String c s)) with
    (match s with
     | String c' _ =>
         if Ascii.eqb c "_" && Ascii.eqb c' "_" then squeeze_underscores s
         else String c (squeeze_underscores s)
     | EmptyString => String c EmptyString
     end).
  destruct s as [|c' s']; [done|].
  destruct (Ascii.eqb c "_" && Ascii.eqb c' "_") eqn:Hcc; [exact IH|].
  pose proof (squeeze_underscores_first (String c' s')) as Hfirst.
  destruct (squeeze_underscores (String c' s')) as [|c'' t] eqn:Hsq; [done|].
  simpl in Hfirst. injection Hfirst as ->.
  change (negb (Ascii.eqb c "_" && Ascii.eqb c' "_")
          && no_double_underscore (String c' t) = true).
  by rewrite Hcc, IH.
Qed.

Lemma no_double_underscore_tail c s :
  no_double_underscore (String c s) = true → no_double_underscore s = true.
Proof.
  destruct s as [|c' s']; [done|].
  change (no_double_underscore (String c (String c' s'))) with
    (negb (Ascii.eqb c "_" && Ascii.eqb c' "_")
     && no_double_underscore (String c' s')).
  by intros [_ H]%andb_true_iff.
Qed.

Lemma no_double_underscore_prefix n s :
  no_double_underscore s = true →
  no_double_underscore (str_prefix n s) = true.
Proof.
  unfold str_prefix. revert s.
  induction n as [|n IH]; intros [|c s]; try done.
  intros Hs. pose proof (IH s (no_double_underscore_tail c s Hs)) as Ht.
  simpl substring. destruct s as [|c' s']; [by destruct n|].
  destruct n as [|n']; [done|].
  change (no_double_underscore (String c (String c' s'))) with
    (negb (Ascii.eqb c "_" && Ascii.eqb c' "_")
     && no_double_underscore (String c' s')) in Hs.
  apply andb_true_iff in Hs as [Hcc _].
  simpl substring in *.
  change (negb (Ascii.eqb c "_" && Ascii.eqb c' "_")
          && no_double_underscore (String c' (substring 0 n' s')) = true).
  by rewrite Hcc, Ht.
Qed.

Lemma lstrip_underscores_facts P s :
  string_forall P s = true → no_double_underscore s = true →
  string_forall P (lstrip_underscores s) = true
  ∧ no_double_underscore (lstrip_underscores s) = true
  ∧ first_char (lstrip_underscores s) ≠ Some "_"%char
  ∧ (String.length (lstrip_underscores s) ≤ String.length s)%nat.
Proof.
  induction s as [|c s IH]; [done|].
  intros HP Hnd. simpl lstrip_underscores.
  destruct (Ascii.eqb_spec c "_") as [->|Hc].
  - apply andb_true_iff in HP as [_ HP].
    destruct (IH HP (no_double_underscore_tail _ _ Hnd)) as (?&?&?&?).
    repeat split; try done. simpl. lia.
  - repeat split; try done. simpl. congruence.
Qed.

Lemma rstrip_underscores_facts P s :
  string_forall P s = true → no_double_underscore s = true →
  string_forall P (rstrip_underscores s) = true
  ∧ no_double_underscore (rstrip_underscores s) = true
  ∧ last_char (rstrip_underscores s) ≠ Some "_"%char
  ∧ (first_char s ≠ Some "_"%char →
     first_char (rstrip_underscores s) ≠ Some "_"%char)
  ∧ (String.length (rstrip_underscores s) ≤ String.length s)%nat.
Proof.
  induction s as [|c s IH]; [done|].
  intros [Hc HP]%andb_true_iff Hnd.
  destruct (IH HP (no_double_underscore_tail _ _ Hnd))
    as (IHP & IHnd & IHlast & _ & IHlen).
  simpl rstrip_underscores.
  destruct (rstrip_underscores s) as [|c' r] eqn:Hr.
  - destruct (Ascii.eqb_spec c "_") as [->|Hne].
    + repeat split; try done. simpl. lia.
    + repeat split; simpl; try done; try congruence; try lia.
      by rewrite Hc.
  - assert (Hhead : first_char s = Some c').
    { destruct s as [|c0 s0]; [done|]. simpl in Hr.
      destruct (rstrip_underscores s0);
        [destruct (Ascii.eqb c0 "_"); [done|]|]; by injection Hr as -> _. }
    repeat split.
    + simpl. by rewrite Hc.
    + destruct s as [|c0 s0]; [done|]. simpl in Hhead.
      injection Hhead as ->.
      change (no_double_underscore (String c (String c' s0))) with
        (negb (Ascii.eqb c "_" && Ascii.eqb c' "_")
         && no_double_underscore (String c' s0)) in Hnd.
      apply andb_true_iff in Hnd as [Hcc _].
      change (negb (Ascii.eqb c "_" && Ascii.eqb c' "_")
              && no_double_underscore (String c' r) = true).
      by rewrite Hcc, IHnd.
    + exact IHlast.
    + done.
    + simpl in *. lia.
Qed.

(** sanitize_filename returns at most 63 characters, all of them word
    characters or dashes (no dot, no slash, no white space), with no
    underscore at either end and no two underscores in a row. *)
Theorem sanitize_filename_safe (name : string) :
  (String.length (sanitize_filename name) ≤ 63)%nat
  ∧ string_forall filename_safe (sanitize_filename name) = true
  ∧ first_char (sanitize_filename name) ≠ Some "_"%char
  ∧ last_char (sanitize_filename name) ≠ Some "_"%char
  ∧ no_double_underscore (sanitize_filename name) = true.
Proof.
  destruct name as [|c s]; [by repeat split; vm_compute; try lia|].
  unfold sanitize_filename, strip_underscores.
  set (m := str_prefix 63
              (squeeze_underscores (string_map filename_char (String c s)))).
  assert (Hlen : (String.length m ≤ 63)%nat).
  { unfold m. rewrite str_prefix_length. lia. }
  assert (HP : string_forall filename_safe m = true).
  { apply string_forall_prefix, squeeze_underscores_forall,
      string_forall_map, filename_char_safe. }
  assert (Hnd : no_double_underscore m = true).
  { apply no_double_underscore_prefix, squeeze_underscores_no_double. }
  destruct (lstrip_underscores_facts filename_safe m HP Hnd)
    as (HP' & Hnd' & Hfirst & Hlen').
  destruct (rstrip_underscores_facts filename_safe _ HP' Hnd')
    as (HP'' & Hnd'' & Hlast & Hfirst' & Hlen'').
  repeat split; try done; [lia|by apply Hfirst'].
Qed.

Lemma squeeze_underscores_cons c s :
  squeeze_underscores (String c s)
  = match s with
    | String c' _ =>
        if Ascii.eqb c "_" && Ascii.eqb c' "_" then squeeze_underscores s
        else String c (squeeze_underscores s)
    | EmptyString => String c EmptyString
    end.
Proof. reflexivity. Qed.

Lemma squeeze_underscores_all s :
  string_forall is_underscore s = true → s ≠ "" →
  squeeze_underscores s = "_".
Proof.
  induction s as [|c s IH]; [done|].
  intros [Hc Hs]%andb_true_iff _. rewrite squeeze_underscores_cons.
  apply Ascii.eqb_eq in Hc as ->.
  destruct s as [|c' s']; [done|].
  pose proof Hs as [Hc' _]%andb_true_iff.
  unfold is_underscore in Hc'. rewrite Hc'. simpl. by apply IH.
Qed.

Lemma squeeze_underscores_some s :
  string_forall is_underscore s = false →
  ∃ g t, g ≠ "_"%char
         ∧ (squeeze_underscores s = String g t
            ∨ squeeze_underscores s = String "_" (String g t)).
Proof.
  induction s as [|c s IH]; [done|]. intros Hs.
  rewrite squeeze_underscores_cons.
  destruct (Ascii.eqb_spec c "_") as [->|Hc].
  - change (string_forall is_underscore s = false) in Hs.
    destruct s as [|c' s']; [done|].
    destruct (Ascii.eqb_spec c' "_") as [->|Hc']; cbn [andb].
    + by apply IH.
    + destruct (squeeze_underscores_head c' s')
        as [t [->|(-> & _)]]; [|done].
      exists c', t. auto.
  - destruct s as [|c' s']; [by exists c, ""; auto|].
    cbn [andb]. eexists c, _. auto.
Qed.

Lemma strip_underscores_keeps g t :
  g ≠ "_"%char → strip_underscores (String g t) ≠ "".
Proof.
  intros Hg. unfold strip_underscores. simpl.
  destruct (Ascii.eqb_spec g "_") as [|_]; [done|]. simpl.
  destruct (rstrip_underscores t); [|done].
  by destruct (Ascii.eqb_spec g "_").
Qed.

Lemma string_forall_map_compose P f s :
  string_forall P (string_map f s) = string_forall (λ c, P (f c)) s.
Proof. induction s as [|c s IH]; [done|]. simpl. by rewrite IH. Qed.

(** sanitize_filename returns the empty string exactly on the non-empty
    names made only of underscores and of characters it replaces: the
    "unknown" fallback covers the empty name alone. *)
Theorem sanitize_filename_empty (name : string) :
  sanitize_filename name = ""
  ↔ name ≠ "" ∧ string_forall becomes_underscore name = true.
Proof.
  destruct name as [|c s]; [by split; [|intros [? _]]|].
  unfold sanitize_filename.
  set (m := string_map filename_char (String c s)).
  assert (Hm : string_forall is_underscore m
               = string_forall becomes_underscore (String c s))
    by exact (string_forall_map_compose is_underscore filename_char
                (String c s)).
  split.
  - intros Hr. split; [done|]. rewrite <- Hm.
    destruct (string_forall is_underscore m) eqn:Hall; [done|].
    destruct (squeeze_underscores_some m Hall) as (g & t & Hg & [Hsq|Hsq]);
      rewrite Hsq in Hr; exfalso.
    + by apply (strip_underscores_keeps g (substring 0 62 t) Hg).
    + apply (strip_underscores_keeps g (substring 0 61 t) Hg).
      exact Hr.
  - intros [_ Hall]. rewrite <- Hm in Hall.
    rewrite (squeeze_underscores_all m Hall); done.
Qed.

Lemma sanitize_filename_empty_witness :
  sanitize_filename "../.." = "".
Proof.
  apply (proj2 (sanitize_filename_empty "../..")).
  split; [discriminate|reflexivity].
Defined.

Lemma squeeze_underscores_fixed s :
  no_double_underscore s = true → squeeze_underscores s = s.
Proof.
  induction s as [|c s IH]; [done|]. intros Hnd.
  rewrite squeeze_underscores_cons.
  rewrite (IH (no_double_underscore_tail c s Hnd)).
  destruct s as [|c' s']; [done|].
  change (no_double_underscore (String c (String c' s'))) with
    (negb (Ascii.eqb c "_" && Ascii.eqb c' "_")
     && no_double_underscore (String c' s')) in Hnd.
  apply andb_true_iff in Hnd as [Hcc _].
  by apply negb_true_iff in Hcc as ->.
Qed.

Lemma lstrip_underscores_fixed s :
  first_char s ≠ Some "_"%char → lstrip_underscores s = s.
Proof.
  destruct s as [|c s]; [done|]. simpl. intros Hc.
  destruct (Ascii.eqb_spec c "_") as [->|]; done.
Qed.

Lemma rstrip_underscores_fixed s :
  last_char s ≠ Some "_"%char → rstrip_underscores s = s.
Proof.
  induction s as [|c s IH]; [done|]. intros Hlast.
  simpl rstrip_underscores. destruct s as [|c' s'].
  - simpl in *. destruct (Ascii.eqb_spec c "_") as [->|]; done.
  - rewrite IH by exact Hlast. reflexivity.
Qed.

(** Applying sanitize_filename to its own result changes nothing, unless the
    result is empty: then the second application answers "unknown". *)
Theorem sanitize_filename_twice (name : string) :
  sanitize_filename (sanitize_filename name)
  = if String.eqb (sanitize_filename name) "" then "unknown"
    else sanitize_filename name.
Proof.
  destruct (sanitize_filename_safe name)
    as (Hlen & Hsafe & Hfirst & Hlast & Hnd).
  destruct (sanitize_filename name) as [|c r] eqn:Hr; [reflexivity|].
  simpl String.eqb. unfold sanitize_filename.
  rewrite (string_map_fixed filename_safe filename_char) by
    (done || intros x Hx; unfold filename_char; by rewrite Hx).
  rewrite (squeeze_underscores_fixed _ Hnd).
  rewrite (str_prefix_short 63 _ Hlen).
  unfold strip_underscores.
  rewrite (lstrip_underscores_fixed _ Hfirst).
  apply (rstrip_underscores_fixed _ Hlast).
Qed.

(** ** HA role filters *)

Lemma lower_char_idem (c : ascii) : lower_char (lower_char c) = lower_char c.
Proof. destruct c as [[] [] [] [] [] [] [] []]; reflexivity. Qed.

Lemma lower_idem (s : string) : lower (lower s) = lower s.
Proof.
  unfold lower. induction s as [|c s IH]; [done|]. simpl.
  by rewrite lower_char_idem, IH.
Qed.

Lemma lower_empty (s : string) : lower s = "" ↔ s = "".
Proof. by destruct s. Qed.

Lemma str_in_spec x literals : str_in x literals = true ↔ x ∈ literals.
Proof.
  unfold str_in. rewrite existsb_exists. split.
  - intros (y & Hy & ->%String.eqb_eq). by apply list_elem_of_In.
  - intros Hx. exists x. split; [by apply list_elem_of_In|].
    apply String.eqb_refl.
Qed.

Lemma ha_state_filters_nonempty (ha_state : string) :
  ha_state ≠ "" →
  ha_state_is_active ha_state
  = str_in (lower ha_state) ["active"; "active-primary"; "primary"]
  ∧ ha_state_is_passive ha_state
    = str_in (lower ha_state) ["passive"; "active-secondary"; "secondary"]
  ∧ ha_state_is_standalone ha_state
    = str_in (lower ha_state) ["standalone"; "disabled"; ""].
Proof. by destruct ha_state. Qed.

(** The three role filters never overlap: no state is active and passive,
    active and standalone, or passive and standalone; they ignore case; and
    they are not exhaustive, since the extractor's fallback state "unknown"
    is none of the three. *)
Theorem ha_roles_exclusive (ha_state : string) :
  (ha_state_is_active ha_state && ha_state_is_passive ha_state = false)
  ∧ (ha_state_is_active ha_state && ha_state_is_standalone ha_state = false)
  ∧ (ha_state_is_passive ha_state && ha_state_is_standalone ha_state = false)
  ∧ ha_state_is_active (lower ha_state) = ha_state_is_active ha_state
  ∧ ha_state_is_passive (lower ha_state) = ha_state_is_passive ha_state
  ∧ ha_state_is_standalone (lower ha_state) = ha_state_is_standalone ha_state
  ∧ (ha_state_is_active "unknown" || ha_state_is_passive "unknown"
     || ha_state_is_standalone "unknown" = false).
Proof.
  destruct (decide (ha_state = "")) as [->|Hne]; [by repeat split|].
  assert (Hne' : lower ha_state ≠ "") by by rewrite lower_empty.
  destruct (ha_state_filters_nonempty _ Hne) as (-> & -> & ->).
  destruct (ha_state_filters_nonempty _ Hne') as (-> & -> & ->).
  rewrite lower_idem.
  assert (Hexcl : ∀ l1 l2 : list string,
            (∀ x, x ∈ l1 → x ∈ l2 → False) →
            str_in (lower ha_state) l1 && str_in (lower ha_state) l2 = false).
  { intros l1 l2 Hdisj. apply andb_false_iff.
    destruct (str_in (lower ha_state) l1) eqn:H1; [right|by left].
    destruct (str_in (lower ha_state) l2) eqn:H2; [|done].
    apply str_in_spec in H1, H2. destruct (Hdisj _ H1 H2). }
  repeat split;
    try (apply Hexcl; intros x H1%list_elem_of_In H2%list_elem_of_In;
         simpl in H1, H2; intuition (subst; discriminate)).
Qed.

(** ** Job id extraction *)

(** What the normalization of an element holds for a tag. *)
Lemma normalized_lookup (e : Element) (d : gmap string pyvalue) (t : string) :
  xml_name t → xml_element_to_dict e = PyDict d →
  d !! t = packed (xml_element_to_dict <$> children_tagged t (children e)).
Proof.
  intros Ht. destruct (xml_name_not_reserved t Ht) as [Hattr Htext].
  destruct e as [tg a x cs]. rewrite xml_element_to_dict_unfold. simpl.
  set (r0 := if bool_decide (a = ∅) then ∅ else _).
  assert (Hr0 : r0 !! t = None).
  { unfold r0. case_bool_decide; [done|]. by rewrite lookup_singleton_ne. }
  set (r := match cs with [] => r0 | _ => collect_children cs ∅ ∪ r0 end).
  assert (Hr : r !! t
               = packed (xml_element_to_dict <$> children_tagged t cs)).
  { unfold r. destruct cs as [|c cs']; [done|].
    rewrite lookup_union, Hr0, collect_children_tagged.
    by destruct (packed _). }
  destruct (stripped_text x); case_bool_decide; intros [= <-]; [|done].
  by rewrite lookup_insert_ne.
Qed.

Lemma leaf_normalized (tg x : string) :
  strip x ≠ "" → xml_element_to_dict (mkElement tg ∅ (Some x) []) = PyStr (strip x).
Proof.
  intros Hx. rewrite xml_element_to_dict_unfold. simpl.
  by destruct (strip x).
Qed.

(** extract_job_id reads the job id out of what the normalizer makes of a
    [<result>] element with exactly one [<job>] child: a child holding only
    text gives the trimmed text, and a child without children gives its
    [id] attribute when it has one. *)
Theorem extract_job_id_of_normalized (result_elem job_elem : Element) :
  children_tagged "job" (children result_elem) = [job_elem] →
  (∀ x, attrib job_elem = ∅ → children job_elem = [] →
        text job_elem = Some x → strip x ≠ "" →
        extract_job_id (response_with (xml_element_to_dict result_elem))
        = Returns (PyStr (strip x)))
  ∧ (∀ i, children job_elem = [] → attrib job_elem !! "id" = Some i →
          extract_job_id (response_with (xml_element_to_dict result_elem))
          = Returns (PyStr i)).
Proof.
  intros Hjob.
  assert (Hdict : ∃ d, xml_element_to_dict result_elem = PyDict d
                       ∧ d !! "job" = Some (xml_element_to_dict job_elem)).
  { destruct (xml_element_to_dict result_elem) as [| |l|d] eqn:Hd.
    - exfalso. destruct result_elem as [tg a x cs].
      rewrite xml_element_to_dict_unfold in Hd. simpl in Hjob, Hd.
      destruct cs as [|c cs']; [done|].
      assert (Hin : (collect_children (c :: cs') ∅
                     ∪ (if bool_decide (a = ∅) then ∅
                        else {[ "@attributes" := PyDict (PyStr <$> a) ]}))
                    !! "job" = Some (xml_element_to_dict job_elem)).
      { apply lookup_union_Some_l.
        by rewrite collect_children_tagged, Hjob. }
      rewrite (nonempty_lookup _ _ _ Hin) in Hd.
      by destruct (stripped_text x).
    - exfalso. destruct result_elem as [tg a x cs].
      rewrite xml_element_to_dict_unfold in Hd. simpl in Hjob, Hd.
      destruct cs as [|c cs']; [done|].
      assert (Hin : (collect_children (c :: cs') ∅
                     ∪ (if bool_decide (a = ∅) then ∅
                        else {[ "@attributes" := PyDict (PyStr <$> a) ]}))
                    !! "job" = Some (xml_element_to_dict job_elem)).
      { apply lookup_union_Some_l.
        by rewrite collect_children_tagged, Hjob. }
      rewrite (nonempty_lookup _ _ _ Hin) in Hd.
      by destruct (stripped_text x).
    - exfalso. by apply (xml_element_to_dict_not_list result_elem); rewrite Hd.
    - exists d. split; [done|].
      rewrite (normalized_lookup result_elem d "job") by done.
      by rewrite Hjob. }
  destruct Hdict as (d & Hd & Hlook).
  unfold extract_job_id, response_with. simpl. rewrite Hd. simpl.
  rewrite bool_decide_eq_true_2 by (by rewrite Hlook).
  rewrite Hlook. simpl. split.
  - intros x Ha Hc Hx Hne. destruct job_elem as [tg a x' cs].
    cbn [attrib children text] in Ha, Hc, Hx. subst a cs x'.
    by rewrite (leaf_normalized tg x Hne).
  - intros i Hc Hi. destruct job_elem as [tg a x cs].
    cbn [attrib children] in Hc, Hi. subst cs.
    rewrite xml_element_to_dict_unfold. simpl.
    assert (Ha : a ≠ ∅) by (intros ->; by rewrite lookup_empty in Hi).
    rewrite (bool_decide_eq_false_2 _ Ha).
    destruct (stripped_text x) as [s|]; simpl.
    + rewrite bool_decide_eq_false_2 by apply insert_non_empty. simpl.
      rewrite lookup_insert_ne by done. rewrite lookup_singleton_ne by done.
      simpl. rewrite lookup_insert_ne by done. rewrite lookup_singleton_eq.
      simpl. by rewrite lookup_fmap, Hi.
    + rewrite bool_decide_eq_false_2 by apply map_non_empty_singleton. simpl.
      rewrite lookup_singleton_ne by done. simpl.
      rewrite lookup_singleton_eq. simpl. by rewrite lookup_fmap, Hi.
Qed.

Lemma extract_job_id_of_normalized_witness :
  extract_job_id
    (response_with
       (xml_element_to_dict
          (mkElement "result" ∅ None
             [mkElement "msg" ∅ None [leaf "line" "Download job enqueued"];
              leaf "job" " 12 "])))
  = Returns (PyStr "12")
  ∧ extract_job_id
      (response_with
         (xml_element_to_dict
            (mkElement "result" ∅ None
               [mkElement "job" {[ "id" := "12" ]} None []])))
    = Returns (PyStr "12").
Proof.
  split.
  - refine (proj1 (extract_job_id_of_normalized
                     (mkElement "result" ∅ None
                        [mkElement "msg" ∅ None
                           [leaf "line" "Download job enqueued"];
                         leaf "job" " 12 "])
                     (leaf "job" " 12 ") _) " 12 " _ _ _ _);
      try reflexivity.
    vm_compute. discriminate.
  - refine (proj2 (extract_job_id_of_normalized
                     (mkElement "result" ∅ None
                        [mkElement "job" {[ "id" := "12" ]} None []])
                     (mkElement "job" {[ "id" := "12" ]} None []) _)
              "12" _ _); reflexivity.
Defined.

Lemma bare_normalized (tg : string) (x : option string) :
  xml_element_to_dict (mkElement tg ∅ x [])
  = match stripped_text x with
    | Some s => PyStr s
    | None => PyNone
    end.
Proof.
  rewrite xml_element_to_dict_unfold. cbv zeta.
  rewrite (bool_decide_eq_true_2 ((∅ : gmap string string) = ∅) eq_refl).
  rewrite (bool_decide_eq_true_2 ((∅ : gmap string pyvalue) = ∅) eq_refl).
  reflexivity.
Qed.

(** Where the normalizer leaves no room for a job id: an element without
    attributes and children normalizes to its text or to None, and
    extract_job_id then fails with a TypeError when there is no text, and
    also when the text merely contains the word "job" or "result", because
    [in] on a str is a substring test; on any other text it answers None. *)
Theorem extract_job_id_on_text (tg : string) (x : option string) :
  extract_job_id
    (response_with (xml_element_to_dict (mkElement tg ∅ x [])))
  = match stripped_text x with
    | None =>
        Fails (TypeError "argument of type 'NoneType' is not iterable")
    | Some s =>
        match index 0 "job" s, index 0 "result" s with
        | None, None => Returns PyNone
        | _, _ =>
            Fails (TypeError "string indices must be integers, not 'str'")
        end
    end.
Proof.
  rewrite bare_normalized.
  destruct (stripped_text x) as [s|]; [|reflexivity].
  unfold extract_job_id, response_with. simpl.
  destruct (index 0 "job" s); [reflexivity|]. simpl.
  destruct (index 0 "result" s); reflexivity.
Qed.

(** ** Logger *)

Lemma run_call_logs (self : PanosLogger) (c : log_call) :
  run_call self c
  = {| module_name := module_name self;
       verbosity := verbosity self;
       logs := logs self
               ++ (if kept (verbosity self) c
                   then [entry_of (module_name self) c] else []) |}.
Proof.
  unfold run_call, kept, entry_of, logger_debug, logger_info, logger_warning,
    logger_error, _log.
  destruct self as [mn v ls], c as [[] now msg]; simpl;
    try destruct (3 <=? v)%Z; try destruct (1 <=? v)%Z; simpl;
    by rewrite ?app_nil_r.
Qed.

(** The log only grows, in the order of the calls: after any sequence of
    debug, info, warning and error calls, [get_logs] is the old list followed
    by one entry for each call the verbosity keeps (warnings and errors
    always, info from verbosity 1, debug from verbosity 3), each carrying the
    logger's module name, the call's level, clock reading and message; the
    module name and the verbosity never change. *)
Theorem logger_append_only (self : PanosLogger) (calls : list log_call) :
  get_logs (run_calls self calls)
  = (get_logs self
     ++ (entry_of (module_name self)
           <$> List.filter (kept (verbosity self)) calls))%list
  ∧ module_name (run_calls self calls) = module_name self
  ∧ verbosity (run_calls self calls) = verbosity self.
Proof.
  unfold get_logs, run_calls. revert self.
  induction calls as [|c calls IH]; intros self; simpl.
  - by rewrite app_nil_r.
  - destruct (IH (run_call self c)) as (-> & -> & ->).
    rewrite run_call_logs. simpl.
    destruct (kept (verbosity self) c); simpl.
    + by rewrite <- app_assoc.
    + by rewrite app_nil_r.
Qed.

(** ** Uptime *)

Lemma re_digits_number (d r : string) :
  is_number d → no_digit_head r → re_digits (d +:+ r) = Some (d, r).
Proof. intros Hd Hr. by apply re_digits_spec. Qed.

Lemma re_digits_number_end (d : string) :
  is_number d → re_digits d = Some (d, "").
Proof.
  intros Hd. apply re_digits_spec. by rewrite append_empty_r.
Qed.

Lemma lstrip_number (d r : string) :
  is_number d → lstrip (d +:+ r) = d +:+ r.
Proof.
  intros [Hne Hd]. destruct d as [|c d]; [done|].
  simpl in Hd. apply andb_true_iff in Hd as [Hc _].
  change (String c d +:+ r) with (String c (d +:+ r)). simpl.
  by rewrite (digit_not_space c Hc).
Qed.

Lemma re_match_clock_text (h m s : N) :
  re_match_clock (clock_text h m s) = Some (str_of_int h, str_of_int m).
Proof.
  unfold re_match_clock, clock_text.
  change (str_of_int h +:+ ":" +:+ str_of_int m +:+ ":" +:+ str_of_int s)
    with (str_of_int h +:+ String ":" (str_of_int m
            +:+ String ":" (str_of_int s))).
  rewrite re_digits_number, re_char_head
    by (done || apply str_of_int_is_number).
  rewrite re_digits_number, re_char_head
    by (done || apply str_of_int_is_number).
  by rewrite re_digits_number_end by apply str_of_int_is_number.
Qed.

Lemma re_match_days_text (d h m s : N) :
  re_match_days (days_text d h m s)
  = Some (str_of_int d, str_of_int h, str_of_int m).
Proof.
  unfold re_match_days, days_text.
  change (str_of_int d +:+ " days, " +:+ clock_text h m s)
    with (str_of_int d +:+ String " " (String "d" (String "a" (String "y"
            (String "s" (String "," (String " " (clock_text h m s)))))))).
  rewrite re_digits_number by (done || apply str_of_int_is_number).
  cbn [lstrip is_space re_char re_opt_char]. simpl.
  unfold clock_text.
  change (str_of_int h +:+ ":" +:+ str_of_int m +:+ ":" +:+ str_of_int s)
    with (str_of_int h +:+ String ":" (str_of_int m
            +:+ String ":" (str_of_int s))).
  rewrite lstrip_number by apply str_of_int_is_number.
  rewrite re_digits_number, re_char_head
    by (done || apply str_of_int_is_number).
  rewrite re_digits_number, re_char_head
    by (done || apply str_of_int_is_number).
  by rewrite re_digits_number_end by apply str_of_int_is_number.
Qed.

Lemma re_match_days_clock_text (h m s : N) :
  re_match_days (clock_text h m s) = None.
Proof.
  unfold re_match_days, clock_text.
  change (str_of_int h +:+ ":" +:+ str_of_int m +:+ ":" +:+ str_of_int s)
    with (str_of_int h +:+ String ":" (str_of_int m
            +:+ String ":" (str_of_int s))).
  by rewrite re_digits_number by (done || apply str_of_int_is_number).
Qed.

Lemma number_app_nonempty (d r : string) : is_number d → d +:+ r ≠ "".
Proof. intros [Hne _]. by destruct d. Qed.

Lemma format_uptime_nonempty (u : string) :
  u ≠ "" →
  format_uptime u
  = let '(days, hours, minutes) :=
      match re_match_days u with
      | Some (g1, g2, g3) =>
          (int_of_digits g1, int_of_digits g2, int_of_digits g3)
      | None =>
          match re_match_clock u with
          | Some (g1, g2) => (0, int_of_digits g1, int_of_digits g2)
          | None => (0, 0, 0)
          end
      end%N in
    {| Uptime.days := days;
       Uptime.hours := hours;
       Uptime.minutes := minutes;
       Uptime.total_minutes :=
         Some ((days * 24 * 60) + (hours * 60) + minutes)%N;
       Uptime.raw := u |}.
Proof. by destruct u. Qed.

(** Reading back the appliance's uptime texts: "D days, H:M:S" gives D
    days, H hours and M minutes and D*1440 + H*60 + M total minutes,
    "H:M:S" gives 0 days; the seconds are dropped and nothing is range
    checked.  uptime_minutes answers a number on every non-empty string (0
    when the text has neither shape) and fails with a KeyError on the empty
    string, whose parse has no total_minutes. *)
Theorem uptime_round_trip (d h m s : N) (u : string) :
  format_uptime (days_text d h m s)
  = {| Uptime.days := d; Uptime.hours := h; Uptime.minutes := m;
       Uptime.total_minutes := Some (d * 24 * 60 + h * 60 + m)%N;
       Uptime.raw := days_text d h m s |}
  ∧ format_uptime (clock_text h m s)
    = {| Uptime.days := 0; Uptime.hours := h; Uptime.minutes := m;
         Uptime.total_minutes := Some (0 * 24 * 60 + h * 60 + m)%N;
         Uptime.raw := clock_text h m s |}
  ∧ uptime_minutes (days_text d h m s) = Returns (d * 24 * 60 + h * 60 + m)%N
  ∧ uptime_minutes "" = Fails (KeyError "total_minutes")
  ∧ (u ≠ "" → ∃ n, uptime_minutes u = Returns n).
Proof.
  assert (Hdays : format_uptime (days_text d h m s) = _) by
    (rewrite format_uptime_nonempty
       by apply number_app_nonempty, str_of_int_is_number;
     rewrite re_match_days_text, !int_of_str_of_int; reflexivity).
  split; [exact Hdays|]. split; [|split; [|split]].
  - rewrite format_uptime_nonempty
      by apply number_app_nonempty, str_of_int_is_number.
    rewrite re_match_days_clock_text, re_match_clock_text.
    by rewrite !int_of_str_of_int.
  - unfold uptime_minutes. by rewrite Hdays.
  - reflexivity.
  - intros Hu. unfold uptime_minutes. rewrite (format_uptime_nonempty u Hu).
    destruct (re_match_days u) as [[[g1 g2] g3]|]; [by eexists|].
    destruct (re_match_clock u) as [[g1 g2]|]; by eexists.
Qed.

Lemma uptime_round_trip_witness :
  ∃ n, uptime_minutes "up 3 days" = Returns n.
Proof.
  apply (proj2 (proj2 (proj2 (proj2
           (uptime_round_trip 0 0 0 0 "up 3 days"))))).
  discriminate.
Defined.

(** ** Command documents *)

Lemma append_cons (c : ascii) (a b : string) :
  String c a +:+ b = String c (a +:+ b).
Proof. reflexivity. Qed.

Lemma append_empty_l (a : string) : "" +:+ a = a.
Proof. reflexivity. Qed.

(** Appends to the right, characters to the front. *)
Ltac string_normal :=
  repeat first [ rewrite append_assoc | rewrite append_cons
               | rewrite append_empty_l | rewrite append_empty_r ].

Lemma build_xml_list (items : list cmdvalue) :
  build_xml (CList items)
  = foldr (λ item acc, build_xml item +:+ acc) "" items.
Proof. induction items as [|i items IH]; [done|]. simpl. by rewrite <- IH. Qed.

Lemma build_xml_dict (items : list (string * cmdvalue)) :
  build_xml (CDict items)
  = foldr (λ kv acc, xml_tagged kv.1 (build_xml kv.2) +:+ acc) "" items.
Proof.
  induction items as [|[k v] items IH]; [done|]. simpl. by rewrite <- IH.
Qed.

(** The filter writes the commands the client sends: the fixed templates
    and, for every job id, version and sync flag, the job-status, download
    and install commands are what dict_to_xml_cmd makes of the matching
    nested dict. *)
Theorem client_commands_from_dicts (job_id version : string) (sync : bool) :
  get_job_status_cmd job_id
  = dict_to_xml_cmd (one "jobs" (one "id" (CStr job_id))) "show"
  ∧ download_software_cmd version sync
    = dict_to_xml_cmd
        (one "system" (one "software" (one "download"
           (CDict [("sync", CStr (if sync then "yes" else "no"));
                   ("version", CStr version)]))))
        "request"
  ∧ install_software_cmd version
    = dict_to_xml_cmd
        (one "system" (one "software" (one "install"
           (one "version" (CStr version))))) "request"
  ∧ get_system_info_cmd
    = dict_to_xml_cmd (one "system" (one "info" (CDict []))) "show"
  ∧ get_all_jobs_cmd
    = dict_to_xml_cmd (one "jobs" (one "all" CNone)) "show"
  ∧ reboot_device_cmd
    = dict_to_xml_cmd (one "restart" (one "system" (CList []))) "request".
Proof.
  unfold get_job_status_cmd, download_software_cmd, install_software_cmd,
    dict_to_xml_cmd, one, xml_tagged.
  cbn [build_xml]. unfold xml_tagged.
  repeat split; try reflexivity; destruct sync; string_normal; reflexivity.
Qed.

(** build_xml writes the items of a dict and of a list one after the other,
    so it distributes over concatenation; lists are transparent (a list
    inside a list is written as its items), and [None], the empty dict, the
    empty list and the empty string all write nothing.  Strings are written
    as they are, without escaping. *)
Theorem build_xml_concatenates (l1 l2 : list cmdvalue)
    (d1 d2 : list (string * cmdvalue)) (s : string) :
  build_xml (CList (l1 ++ l2)) = build_xml (CList l1) +:+ build_xml (CList l2)
  ∧ build_xml (CDict (d1 ++ d2))
    = build_xml (CDict d1) +:+ build_xml (CDict d2)
  ∧ build_xml (CList (CList l1 :: l2)) = build_xml (CList (l1 ++ l2))
  ∧ build_xml (CList (CNone :: l2)) = build_xml (CList l2)
  ∧ build_xml (CList (CDict [] :: l2)) = build_xml (CList l2)
  ∧ build_xml (CList (CStr s :: l2)) = s +:+ build_xml (CList l2).
Proof.
  assert (Hl : ∀ a b, build_xml (CList (a ++ b))
                      = build_xml (CList a) +:+ build_xml (CList b)).
  { intros a b. rewrite !build_xml_list.
    induction a as [|i a IH]; [done|]. simpl. by rewrite IH, append_assoc. }
  split; [apply Hl|]. split; [|split; [|by repeat split]].
  - rewrite !build_xml_dict.
    induction d1 as [|kv d1 IH]; [done|]. simpl. by rewrite IH, append_assoc.
  - rewrite Hl. reflexivity.
Qed.

(** ** The client's session *)

(** Membership of a literal in the list of codes. *)
Ltac code_listed :=
  unfold request_error_codes; apply list_elem_of_In; simpl; tauto.

Section ApiClientFacts.

Variable fromstring : string → string + Element.
Variable urlencode : list (string * pyvalue) → string.
Variable urlopen : list Net.request → Net.request → Net.outcome.
Variable utcnow : nat → string.

Local Abbreviation get_key := (_get_api_key fromstring urlencode urlopen utcnow).
Local Abbreviation make_request :=
  (_make_request fromstring urlencode urlopen utcnow).

Lemma client_log_facts m msg self w :
  let '(self', w') := client_log utcnow m msg self w in
  Client.sent w' = Client.sent w
  ∧ Client.api_key self' = Client.api_key self
  ∧ same_settings self' self.
Proof.
  unfold client_log, same_settings. simpl.
  by destruct (kept _ _).
Qed.

Lemma parse_xml_response_failure xml e :
  parse_xml_response fromstring xml = Raise e →
  request_failure (PyExn e).
Proof.
  unfold parse_xml_response. destruct (fromstring xml); [|done].
  intros [= <-]. simpl. eexists. split; [reflexivity|].
  code_listed.
Qed.

Lemma py_get_failure v key dflt e :
  py_get v key dflt = Raise e → ∃ what, e = AttributeError what.
Proof. destruct v; simpl; intros [= <-]; eauto. Qed.

(** What one call of [_get_api_key] can do. *)
Lemma get_key_cases self w :
  (* the key is there: nothing happens *)
  (truthy (Client.api_key self) = true
   ∧ get_key self w = (Returns (Client.api_key self), self, w))
  ∨ (* no key, no credentials: nothing is sent *)
    (truthy (Client.api_key self) = false
     ∧ missing (Client.username self) || missing (Client.password self) = true
     ∧ get_key self w = (Fails (PyExn (Panos auth_missing)), self, w))
  ∨ (* the keygen request goes out *)
    (truthy (Client.api_key self) = false
     ∧ missing (Client.username self) || missing (Client.password self) = false
     ∧ ∃ r self' w',
         get_key self w = (r, self', w')
         ∧ Client.sent w' = (Client.sent w ++ [keygen_request urlencode self])%list
         ∧ same_settings self' self
         ∧ match r with
           | Returns key =>
               truthy key = true ∧ Client.api_key self' = key
               ∧ ∃ xml parsed,
                   urlopen (Client.sent w) (keygen_request urlencode self)
                   = Net.Body xml
                   ∧ parse_xml_response fromstring xml = Ok parsed
                   ∧ success parsed = true
                   ∧ py_get (data parsed) "key" PyNone = Ok key
           | Fails e =>
               self' = self ∧ request_failure e
               ∧ (∀ code reason,
                    urlopen (Client.sent w) (keygen_request urlencode self)
                    = Net.HTTPError code reason →
                    e = PyExn (Panos (connection_failed
                                        (Net.error_text
                                           (Net.HTTPError code reason))
                                        (Client.host self))))
           end).
Proof.
  unfold _get_api_key.
  destruct (truthy (Client.api_key self)) eqn:Hkey; [by left|].
  right.
  destruct (missing (Client.username self) || missing (Client.password self))
    eqn:Hcred; [by left|].
  right. split; [done|]. split; [done|].
  unfold send. fold (keygen_request urlencode self).
  set (req := keygen_request urlencode self).
  cbn [Client.sent Client.ticks].
  destruct (urlopen (Client.sent w) req) as [xml|code reason|reason] eqn:Hnet.
  - destruct (parse_xml_response fromstring xml) as [parsed|e] eqn:Hparse.
    + destruct (success parsed) eqn:Hok; cbn [negb].
      * destruct (py_get (data parsed) "key" PyNone) as [key|e] eqn:Hget.
        -- destruct (truthy key) eqn:Htruthy; cbn [negb].
           ++ pose proof (client_log_facts Info
                            "API key generated successfully"
                            (Client.set_api_key key self)
                            {| Client.sent := (Client.sent w ++ [req])%list;
                               Client.ticks := Client.ticks w |}) as Hlog.
              destruct (client_log _ _ _ _ _) as [self' w'].
              destruct Hlog as (Hsent & Hk & Hset).
              eexists _, _, _. split; [reflexivity|].
              split; [exact Hsent|]. split; [exact Hset|].
              split; [done|]. split; [exact Hk|]. eauto 10.
           ++ eexists _, _, _. split; [reflexivity|].
              repeat split; try done.
              eexists. split; [reflexivity|].
              code_listed.
        -- eexists _, _, _. split; [reflexivity|].
           repeat split; try done.
           by destruct (py_get_failure _ _ _ _ Hget) as [what ->].
      * eexists _, _, _. split; [reflexivity|].
        repeat split; try done.
        eexists. split; [reflexivity|].
        code_listed.
    + eexists _, _, _. split; [reflexivity|].
      repeat split; try done.
      by apply (parse_xml_response_failure xml).
  - eexists _, _, _. split; [reflexivity|].
    repeat split; try done.
    + eexists. split; [reflexivity|].
      code_listed.
    + by intros code' reason' [= <- <-].
  - eexists _, _, _. split; [reflexivity|].
    repeat split; try done.
    eexists. split; [reflexivity|].
    code_listed.
Qed.

Lemma same_settings_refl a : same_settings a a.
Proof. by repeat split. Qed.

Lemma same_settings_trans a b c :
  same_settings a b → same_settings b c → same_settings a c.
Proof. unfold same_settings. intuition congruence. Qed.

Lemma same_settings_request a b key params http_method data :
  same_settings a b →
  command_request urlencode a key params http_method data
  = command_request urlencode b key params http_method data.
Proof.
  unfold same_settings, command_request, base_url, _create_ssl_context.
  intros (-> & _ & _ & -> & -> & ->). reflexivity.
Qed.

(** [_make_request] after [_get_api_key] has answered [key]. *)
Lemma make_request_with_key params http_method data self w key self1 w1 :
  get_key self w = (Returns key, self1, w1) →
  ∃ r self' w',
    make_request params http_method data self w = (r, self', w')
    ∧ Client.sent w'
      = (Client.sent w1
         ++ [command_request urlencode self1 key params http_method data])%list
    ∧ Client.api_key self' = Client.api_key self1
    ∧ same_settings self' self1
    ∧ match urlopen (Client.sent w1)
              (command_request urlencode self1 key params http_method data) with
      | Net.Body xml =>
          match parse_xml_response fromstring xml with
          | Ok parsed => r = Returns parsed
          | Raise e => r = Fails (PyExn e)
          end
      | Net.HTTPError code reason =>
          r = Fails (PyExn (Panos (http_error code reason)))
      | Net.URLError reason =>
          r = Fails (PyExn (Panos (connection_error
                                     (Net.error_text (Net.URLError reason))
                                     (Client.host self1))))
      end.
Proof.
  intros Hkey. unfold _make_request. rewrite Hkey.
  pose proof (client_log_facts Debug
                (request_line (param_set "key" key params)) self1 w1) as Hlog.
  destruct (client_log utcnow Debug _ self1 w1) as [self2 w2].
  destruct Hlog as (Hsent & Hk & Hset).
  assert (Hreq : match nonempty_text data with
                 | Some body =>
                     {| Net.url := base_url self1 +:+ "/api/?"
                                   +:+ urlencode (param_set "key" key params);
                        Net.method := http_method; Net.data := Some body;
                        Net.headers :=
                          [("Content-Type",
                            "application/x-www-form-urlencoded")];
                        Net.timeout := Client.timeout self2;
                        Net.ssl_context := _create_ssl_context self2 |}
                 | None =>
                     {| Net.url := base_url self1 +:+ "/api/?"
                                   +:+ urlencode (param_set "key" key params);
                        Net.method := http_method; Net.data := None;
                        Net.headers := [];
                        Net.timeout := Client.timeout self2;
                        Net.ssl_context := _create_ssl_context self2 |}
                 end = command_request urlencode self1 key params http_method data).
  { destruct Hset as (_ & _ & _ & Hv & Ht & _).
    unfold command_request, _create_ssl_context. rewrite Hv, Ht.
    by destruct (nonempty_text data). }
  cbv zeta. rewrite Hreq.
  set (req := command_request urlencode self1 key params http_method data).
  unfold send. rewrite Hsent.
  destruct (urlopen (Client.sent w1) req) as [xml|code reason|reason].
  - destruct (parse_xml_response fromstring xml) as [parsed|e].
    + pose proof (client_log_facts Debug
                    ("API response status: " +:+ status parsed) self2
                    {| Client.sent := (Client.sent w1 ++ [req])%list;
                       Client.ticks := Client.ticks w2 |}) as Hlog.
      destruct (client_log utcnow Debug _ self2 _) as [self3 w3].
      destruct Hlog as (Hsent3 & Hk3 & Hset3).
      eexists _, _, _. split; [reflexivity|].
      split; [exact Hsent3|]. split; [congruence|].
      split; [by eapply same_settings_trans|done].
    + eexists _, _, _. split; [reflexivity|]. by split; [|split; [|split]].
  - eexists _, _, _. split; [reflexivity|]. by split; [|split; [|split]].
  - eexists _, _, _. split; [reflexivity|].
    split; [done|]. split; [done|]. split; [done|].
    by rewrite (proj1 Hset).
Qed.

(** How a request can fail, and that it does not start without
    credentials. *)
Lemma make_request_failures (params : list (string * pyvalue))
    (http_method : string) (data : option string)
    (self self' : Client.t) (w w' : Client.world) (r : attempt Response) :
  make_request params http_method data self w = (r, self', w') →
  (∀ e, r = Fails e → request_failure e)
  ∧ (truthy (Client.api_key self) = false →
     missing (Client.username self) || missing (Client.password self) = true →
     r = Fails (PyExn (Panos auth_missing)) ∧ self' = self ∧ w' = w).
Proof.
  intros Hrun.
  assert (Hcode : ∀ pe code, error_code pe = Some code →
                    code ∈ request_error_codes →
                    request_failure (PyExn (Panos pe))).
  { intros pe code H1 H2. simpl. eauto. }
  assert (Hsent : ∀ key s1 w1,
            get_key self w = (Returns key, s1, w1) →
            ∀ e, r = Fails e → request_failure e).
  { intros key s1 w1 Hr e ->.
    destruct (make_request_with_key params http_method data _ _ _ _ _ Hr)
      as (r1 & s2 & w2 & Hrun1 & _ & _ & _ & Hout).
    rewrite Hrun1 in Hrun. injection Hrun as -> _ _.
    destruct (urlopen _ _) as [xml|code reason|reason].
    - destruct (parse_xml_response fromstring xml) eqn:Hp; [done|].
      injection Hout as ->. by eapply parse_xml_response_failure.
    - injection Hout as ->. eapply (Hcode _ "HTTP_ERROR"); [done|].
      code_listed.
    - injection Hout as ->. eapply (Hcode _ "CONNECTION_ERROR"); [done|].
      code_listed. }
  destruct (get_key_cases self w)
    as [(Hk & Hr)|[(Hk & Hc & Hr)|(Hk & Hc & r0 & s0 & w0 & Hr & _ & _ & Hres)]].
  - split; [by eapply Hsent|congruence].
  - unfold _make_request in Hrun. rewrite Hr in Hrun.
    injection Hrun as <- <- <-. split; [|done].
    intros e [= <-]. eapply (Hcode _ "AUTH_MISSING"); [done|]. code_listed.
  - split; [|congruence]. destruct r0 as [key|e0]; [by eapply Hsent|].
    destruct Hres as (_ & Hf & _).
    unfold _make_request in Hrun. rewrite Hr in Hrun.
    injection Hrun as <- _ _. by intros e [= <-].
Qed.



End ApiClientFacts.



(** ** Connectivity test and device directory *)

Section ClientLookupFacts.

Variable fromstring : string → string + Element.
Variable urlencode : list (string * pyvalue) → string.
Variable urlopen : list Net.request → Net.request → Net.outcome.
Variable utcnow : nat → string.


End ClientLookupFacts.


Lemma optional_map_get (d : gmap string pyvalue) (key : string) :
  optional_map d key → ∃ m, default (PyDict ∅) (d !! key) = PyDict m.
Proof.
  unfold optional_map. destruct (d !! key) as [[| | |m]|]; simpl; eauto;
    done.
Qed.

Lemma device_ok_hostname (d : gmap string pyvalue) (h : string) :
  device_hostname d = Some h →
  py_get (PyDict d) "hostname" (PyStr "") = Ok (PyStr h).
Proof.
  unfold device_hostname. simpl.
  destruct (d !! "hostname") as [[| | |]|]; simpl; congruence.
Qed.

(** What the lookups return for a well-shaped entry. *)
Lemma device_ok_info (d : gmap string pyvalue) (hostname : pyvalue) :
  device_ok d →
  ∃ serial info,
    device_serial (PyDict d) = Ok serial
    ∧ device_info hostname serial (PyDict d) = Ok info
    ∧ Device.hostname info = hostname
    ∧ Device.serial info = serial
    ∧ Device.raw info = PyDict d.
Proof.
  intros (_ & Hattr & Hha & Hpeer).
  destruct (optional_map_get d "@attributes" Hattr) as [attrs Ha].
  destruct (optional_map_get d "ha" Hha) as [ha Hh].
  assert (Hp : ∃ peer, default (PyDict ∅) (ha !! "peer") = PyDict peer).
  { unfold optional_map in Hha.
    destruct (d !! "ha") as [[| | |ha']|] eqn:Hd; simpl in Hh; try done.
    - injection Hh as <-. by apply optional_map_get.
    - injection Hh as <-. rewrite lookup_empty. by eexists. }
  destruct Hp as [peer Hp].
  unfold device_serial, device_info. simpl. rewrite Ha, Hh. simpl.
  rewrite Hp. simpl. eauto 10.
Qed.

Lemma search_by_name_step (device_name : string)
    (d : gmap string pyvalue) (rest : list pyvalue) (h : string) :
  device_ok d → device_hostname d = Some h →
  ∃ info,
    Device.hostname info = PyStr h ∧ Device.raw info = PyDict d
    ∧ search_by_name device_name (PyDict d :: rest)
      = if String.eqb (lower h) (lower device_name) then Ok info
        else search_by_name device_name rest.
Proof.
  intros Hok Hh.
  destruct (device_ok_info d (PyStr h) Hok)
    as (serial & info & Hs & Hi & Hhost & _ & Hraw).
  exists info. split; [done|]. split; [done|].
  cbn [search_by_name]. rewrite (device_ok_hostname d h Hh).
  cbn [bind py_lower]. destruct (String.eqb (lower h) (lower device_name));
    [|done].
  by rewrite Hs.
Qed.

(** Lookup by name over well-shaped entries.  It answers an entry of the
    list whose hostname is the name but for the case of letters, and the
    first such entry; it raises DEVICE_NOT_FOUND exactly when no entry has
    that name, and raises nothing else.  A single entry, which the normalizer
    hands over as a map and not as a list, is looked up like a list of one.
    A response that is no success raises DEVICE_LOOKUP_FAILED whatever it
    lists. *)
Theorem device_by_name_finds_first (device_name : string)
    (ds : list (gmap string pyvalue)) (d0 : gmap string pyvalue)
    (response : Response) :
  Forall device_ok ds →
  (∀ info,
     device_by_name (devices_response (PyList (PyDict <$> ds))) device_name
     = Returns info →
     ∃ i d h,
       ds !! i = Some d ∧ Device.raw info = PyDict d
       ∧ Device.hostname info = PyStr h ∧ lower h = lower device_name
       ∧ ∀ j d', (j < i)%nat → ds !! j = Some d' → ¬ named device_name d')
  ∧ (device_by_name (devices_response (PyList (PyDict <$> ds))) device_name
     = Fails (PyExn (Panos (device_not_found_by_name device_name)))
     ↔ ∀ d, d ∈ ds → ¬ named device_name d)
  ∧ ((∃ info, device_by_name (devices_response (PyList (PyDict <$> ds)))
                device_name = Returns info)
     ∨ device_by_name (devices_response (PyList (PyDict <$> ds))) device_name
       = Fails (PyExn (Panos (device_not_found_by_name device_name))))
  ∧ device_by_name (devices_response (PyDict d0)) device_name
    = device_by_name (devices_response (PyList [PyDict d0])) device_name
  ∧ (success response = false →
     device_by_name response device_name
     = Fails (PanosDetailed device_lookup_failed "response" response)).
Proof.
  intros Hok.
  assert (Hrun : ∀ entries,
            device_by_name (devices_response (PyList entries)) device_name
            = lift (search_by_name device_name entries)).
  { intros entries. unfold device_by_name, devices_response, response_with,
      device_entries. simpl.
    rewrite lookup_singleton_eq. simpl. by rewrite lookup_singleton_eq. }
  rewrite !Hrun.
  split; [|split; [|split; [|split]]].
  - induction Hok as [|d ds Hd Hds IH]; intros info; [done|].
    destruct Hd as [[h Hh] Hrest].
    destruct (search_by_name_step device_name d (PyDict <$> ds) h)
      as (info0 & Hhost & Hraw & Hstep); [by split; [eexists|]|done|].
    rewrite fmap_cons, Hstep.
    destruct (String.eqb_spec (lower h) (lower device_name)) as [Heq|Hne].
    + intros [= <-]. exists 0%nat, d, h. repeat split; try done.
      intros j d' Hj. lia.
    + intros Hfound. destruct (IH info Hfound)
        as (i & d1 & h1 & Hi & Hr1 & Hh1 & Hl1 & Hfirst).
      exists (S i), d1, h1. repeat split; try done.
      intros [|j] d' Hj Hd'.
      * injection Hd' as <-. intros (h' & Hh' & Hl'). congruence.
      * apply (Hfirst j d'); [lia|done].
  - induction Hok as [|d ds Hd Hds IH].
    + split; [by intros _ d Hd%elem_of_nil|done].
    + destruct Hd as [[h Hh] Hrest].
      destruct (search_by_name_step device_name d (PyDict <$> ds) h)
        as (info0 & Hhost & Hraw & Hstep); [by split; [eexists|]|done|].
      rewrite fmap_cons, Hstep.
      destruct (String.eqb_spec (lower h) (lower device_name)) as [Heq|Hne].
      * split; [done|]. intros Hnone. exfalso.
        apply (Hnone d); [by left|]. by exists h.
      * rewrite IH. split.
        -- intros Hnone d' [->|Hin]%elem_of_cons; [|by apply Hnone].
           intros (h' & Hh' & Hl'). congruence.
        -- intros Hnone d' Hin. apply Hnone. by right.
  - induction Hok as [|d ds Hd Hds IH]; [by right|].
    destruct Hd as [[h Hh] Hrest].
    destruct (search_by_name_step device_name d (PyDict <$> ds) h)
      as (info0 & Hhost & Hraw & Hstep); [by split; [eexists|]|done|].
    rewrite fmap_cons, Hstep.
    destruct (String.eqb (lower h) (lower device_name)); [|exact IH].
    left. by eexists.
  - unfold device_by_name, devices_response, response_with, device_entries.
    simpl. rewrite lookup_singleton_eq. simpl.
    by rewrite lookup_singleton_eq.
  - intros Hno. unfold device_by_name. by rewrite Hno.
Qed.

Lemma device_by_name_finds_first_witness :
  ∃ info i d h,
    device_by_name
      (devices_response
         (PyList (PyDict <$> [sample_device "FW-Edge-01" "0071";
                              sample_device "fw-edge-01" "0072"])))
      "fw-EDGE-01" = Returns info
    ∧ [sample_device "FW-Edge-01" "0071"; sample_device "fw-edge-01" "0072"]
        !! i = Some d
    ∧ Device.raw info = PyDict d
    ∧ Device.hostname info = PyStr h ∧ lower h = lower "fw-EDGE-01"
    ∧ ∀ j d', (j < i)%nat →
        [sample_device "FW-Edge-01" "0071"; sample_device "fw-edge-01" "0072"]
          !! j = Some d' → ¬ named "fw-EDGE-01" d'.
Proof.
  assert (Hok : ∀ n s, device_ok (sample_device n s)).
  { intros n s. unfold device_ok, optional_map, device_hostname,
      sample_device.
    rewrite lookup_insert_eq.
    rewrite !lookup_insert_ne, lookup_singleton_eq by done.
    rewrite lookup_singleton_ne by done. eauto. }
  assert (Hfound : ∃ info,
            device_by_name
              (devices_response
                 (PyList (PyDict <$> [sample_device "FW-Edge-01" "0071";
                                      sample_device "fw-edge-01" "0072"])))
              "fw-EDGE-01" = Returns info).
  { vm_compute. eexists. reflexivity. }
  destruct Hfound as [info Hinfo].
  destruct (proj1 (device_by_name_finds_first "fw-EDGE-01"
                     [sample_device "FW-Edge-01" "0071";
                      sample_device "fw-edge-01" "0072"]
                     ∅ (response_with PyNone)
                     (Forall_cons_2 _ _ _ (Hok _ _)
                        (Forall_cons_2 _ _ _ (Hok _ _) (Forall_nil_2 _))))
              info Hinfo)
    as (i & d & h & H).
  exists info, i, d, h. split; [exact Hinfo|exact H].
Defined.

Lemma parse_panos_version_spec_witness :
  is_Some (parse_panos_version " 10.2.9-h1-c3 ").
Proof.
  apply (proj2 (parse_panos_version_spec " 10.2.9-h1-c3 ")).
  exists (mkMatch "10" "2" "9" (Some "1") (Some "3")).
  split; [|vm_compute; reflexivity].
  repeat split; discriminate.
Defined.

Lemma sanitize_filename_safe_witness :
  first_char (sanitize_filename "_fw 01_") ≠ Some "_"%char
  ∧ last_char (sanitize_filename "_fw 01_") ≠ Some "_"%char.
Proof.
  split.
  - apply (proj1 (proj2 (proj2 (sanitize_filename_safe "_fw 01_")))).
  - apply (proj1 (proj2 (proj2 (proj2 (sanitize_filename_safe "_fw 01_"))))).
Defined.

(** ** Address and host name validation *)

Lemma char_between_digit (lo hi c : ascii) :
  (48 ≤ N_of_ascii lo)%N → (N_of_ascii hi ≤ 57)%N →
  char_between lo hi c = true →
  char_between "0" "9" c = true.
Proof.
  unfold char_between. intros Hlo Hhi [H1 H2]%andb_true_iff.
  apply N.leb_le in H1, H2. apply andb_true_iff.
  split; apply N.leb_le; simpl; lia.
Qed.

Lemma digit_is_label_char (c : ascii) :
  char_between "0" "9" c = true →
  is_label_char c = true ∧ c ≠ "-"%char ∧ is_digit c = true.
Proof.
  intros Hc. split; [|split].
  - unfold is_label_char. rewrite Hc. by rewrite !orb_true_r.
  - intros ->. done.
  - exact Hc.
Qed.

Lemma octet_is_label (s : string) :
  octet_text s = true →
  label_text s = true ∧ (1 ≤ String.length s ≤ 3)%nat.
Proof.
  assert (Hd : ∀ lo hi c, (48 ≤ N_of_ascii lo)%N → (N_of_ascii hi ≤ 57)%N →
                 char_between lo hi c = true →
                 is_label_char c = true ∧ c ≠ "-"%char).
  { intros lo hi c Hlo Hhi Hc.
    destruct (digit_is_label_char c (char_between_digit lo hi c Hlo Hhi Hc))
      as (? & ? & _). done. }
  assert (H2 : is_label_char "2" = true ∧ "2"%char ≠ "-"%char) by done.
  assert (H5 : is_label_char "5" = true ∧ "5"%char ≠ "-"%char) by done.
  assert (Hlabel : ∀ t, string_forall is_label_char t = true →
                        (1 ≤ String.length t ≤ 3)%nat →
                        first_char t ≠ Some "-"%char →
                        last_char t ≠ Some "-"%char →
                        label_text t = true).
  { intros t Hall Hlen Hfirst Hlast. unfold label_text.
    rewrite Hall, !bool_decide_eq_false_2 by done.
    destruct (Nat.leb_spec 1 (String.length t)); [|lia].
    destruct (Nat.leb_spec (String.length t) 63); [done|lia]. }
  destruct s as [|a [|b [|c [|e s]]]]; try done; unfold octet_text.
  - intros Ha%(Hd "0"%char "9"%char); [|simpl; lia..].
    split; [|simpl; lia]. apply Hlabel; simpl; try lia.
    + by rewrite (proj1 Ha).
    + intros [= ->]. by destruct Ha.
    + intros [= ->]. by destruct Ha.
  - intros [Ha%(Hd "0"%char "9"%char) Hb%(Hd "0"%char "9"%char)]%andb_true_iff;
      [|simpl; lia..].
    split; [|simpl; lia]. apply Hlabel; simpl; try lia.
    + by rewrite (proj1 Ha), (proj1 Hb).
    + intros [= ->]. by destruct Ha.
    + intros [= ->]. by destruct Hb.
  - intros Hoct.
    assert (Habc : (is_label_char a = true ∧ a ≠ "-"%char)
                   ∧ (is_label_char b = true ∧ b ≠ "-"%char)
                   ∧ (is_label_char c = true ∧ c ≠ "-"%char)).
    { apply orb_true_iff in Hoct as [Hoct|Hoct];
        [apply orb_true_iff in Hoct as [Hoct|Hoct]|];
        apply andb_true_iff in Hoct as [Hab Hc];
        apply andb_true_iff in Hab as [Ha Hb].
      - apply Ascii.eqb_eq in Ha as ->. apply Ascii.eqb_eq in Hb as ->.
        repeat split; try done; eapply (Hd "0"%char "5"%char);
          try exact Hc; simpl; lia.
      - apply Ascii.eqb_eq in Ha as ->.
        repeat split; try done.
        + eapply (Hd "0"%char "4"%char); try exact Hb; simpl; lia.
        + eapply (Hd "0"%char "4"%char); try exact Hb; simpl; lia.
        + eapply (Hd "0"%char "9"%char); try exact Hc; simpl; lia.
        + eapply (Hd "0"%char "9"%char); try exact Hc; simpl; lia.
      - repeat split.
        + eapply (Hd "0"%char "1"%char); try exact Ha; simpl; lia.
        + eapply (Hd "0"%char "1"%char); try exact Ha; simpl; lia.
        + eapply (Hd "0"%char "9"%char); try exact Hb; simpl; lia.
        + eapply (Hd "0"%char "9"%char); try exact Hb; simpl; lia.
        + eapply (Hd "0"%char "9"%char); try exact Hc; simpl; lia.
        + eapply (Hd "0"%char "9"%char); try exact Hc; simpl; lia. }
    destruct Habc as ((Ha & Ha') & (Hb & Hb') & (Hc & Hc')).
    split; [|simpl; lia]. apply Hlabel; simpl; try lia.
    + by rewrite Ha, Hb, Hc.
    + congruence.
    + congruence.
Qed.

(** The characters of a string and of its parts number the same, dots
    apart. *)
Lemma split_dots_length (s : string) :
  foldr (λ part n, S (String.length part + n)) 0%nat (split_dots s)
  = S (String.length s).
Proof.
  induction s as [|c s IH]; [done|]. simpl.
  destruct (Ascii.eqb c "."); simpl; [by rewrite IH|].
  destruct (split_dots s) as [|part parts]; [done|].
  simpl in *. lia.
Qed.

Lemma split_dots_forall (P : ascii → bool) (s : string) :
  forallb (string_forall P) (split_dots s)
  = string_forall (λ c, P c || Ascii.eqb c ".") s.
Proof.
  induction s as [|c s IH]; [done|]. simpl.
  destruct (Ascii.eqb c ".") eqn:Hc; simpl.
  - by rewrite IH, orb_true_r.
  - rewrite orb_false_r, <- IH.
    destruct (split_dots s) as [|part parts]; simpl;
      [by rewrite !andb_true_r|by rewrite andb_assoc].
Qed.

Lemma split_dots_first (s : string) :
  ∃ part parts, split_dots s = part :: parts
                ∧ (part ≠ "" → first_char s = first_char part).
Proof.
  destruct s as [|c s]; [by eexists _, _|]. simpl.
  destruct (Ascii.eqb c "."); [by eexists _, _|].
  destruct (split_dots s); by eexists _, _.
Qed.

Lemma forallb_weaken {A} (P Q : A → bool) (l : list A) :
  (∀ x, P x = true → Q x = true) →
  forallb P l = true → forallb Q l = true.
Proof.
  intros HPQ. induction l as [|x l IH]; [done|]. simpl.
  intros [Hx Hl]%andb_true_iff. by rewrite (HPQ x Hx), (IH Hl).
Qed.

Lemma ip_is_hostname (value : string) :
  ip_match value = true → hostname_match value = true.
Proof.
  unfold ip_match, hostname_match. cbv zeta.
  set (body := chomp value).
  intros [Hlen Hoct]%andb_true_iff. apply Nat.eqb_eq in Hlen.
  pose proof (split_dots_length body) as Hsum.
  assert (Hlabels : forallb label_text (split_dots body) = true).
  { eapply forallb_weaken; [|exact Hoct]. intros s Hs.
    by destruct (octet_is_label s Hs). }
  rewrite Hlabels.
  destruct (split_dots body) as [|p1 [|p2 [|p3 [|p4 [|p5 ps]]]]];
    try done.
  simpl in Hoct, Hsum.
  repeat match type of Hoct with
  | (_ && _ = true) => apply andb_true_iff in Hoct as [?%octet_is_label Hoct]
  end.
  destruct (Nat.leb_spec 1 (String.length body)); [|lia].
  destruct (Nat.leb_spec (String.length body) 253); [done|lia].
Qed.

Lemma chomp_fixed (s : string) :
  last_char s ≠ Some (ascii_of_nat 10) → chomp s = s.
Proof.
  induction s as [|c s IH]; [done|]. simpl.
  destruct s as [|c' s'].
  - intros Hc. destruct (Ascii.eqb_spec c (ascii_of_nat 10)); congruence.
  - intros Hlast. by rewrite IH.
Qed.

Lemma chomp_newline (s : string) :
  last_char s ≠ Some (ascii_of_nat 10) → chomp (s +:+ newline) = s.
Proof.
  induction s as [|c s IH]; [done|]. intros Hlast.
  change (String c s +:+ newline) with (String c (s +:+ newline)).
  simpl chomp. destruct s as [|c' s'].
  - done.
  - change (String c' s' +:+ newline) with (String c' (s' +:+ newline)).
    change (String c' (s' +:+ newline))
      with (String c' s' +:+ newline). by rewrite IH.
Qed.

Lemma last_char_app (a : string) (c : ascii) (r : string) :
  last_char (a +:+ String c r) = last_char (String c r).
Proof.
  induction a as [|x a IH]; [done|].
  change (String x a +:+ String c r) with (String x (a +:+ String c r)).
  simpl last_char at 1. rewrite IH.
  by destruct a.
Qed.

Lemma last_char_digits (d : string) :
  d ≠ "" → digits_only d = true →
  ∃ c, last_char d = Some c ∧ is_digit c = true.
Proof.
  induction d as [|x d IH]; [done|]. intros _ Hd. simpl in Hd.
  apply andb_true_iff in Hd as [Hx Hd].
  destruct d as [|y d']; [by exists x|].
  destruct (IH ltac:(done) Hd) as (c & Hc & Hdc). by exists c.
Qed.

Lemma split_dots_no_dot (d : string) :
  digits_only d = true → split_dots d = [d].
Proof.
  induction d as [|x d IH]; [done|]. simpl.
  intros [Hx Hd]%andb_true_iff.
  destruct (Ascii.eqb_spec x ".") as [->|_]; [done|].
  by rewrite (IH Hd).
Qed.

Lemma split_dots_app (d r : string) :
  digits_only d = true →
  split_dots (d +:+ String "." r) = d :: split_dots r.
Proof.
  induction d as [|x d IH]; [done|].
  intros [Hx Hd]%andb_true_iff.
  change (String x d +:+ String "." r) with (String x (d +:+ String "." r)).
  simpl split_dots. rewrite (IH Hd).
  destruct (Ascii.eqb_spec x ".") as [->|_]; done.
Qed.

Lemma short_number_label (s : string) :
  short_number s = true →
  label_text s = true ∧ digits_only s = true ∧ s ≠ ""
  ∧ (String.length s ≤ 3)%nat.
Proof.
  unfold short_number.
  intros [[Hlo Hhi]%andb_true_iff Hd]%andb_true_iff.
  apply Nat.leb_le in Hlo, Hhi.
  assert (Hne : s ≠ "") by (intros ->; simpl in Hlo; lia).
  split; [|done].
  assert (Hall : string_forall is_label_char s = true).
  { clear -Hd. induction s as [|c s IH]; [done|]. simpl in *.
    apply andb_true_iff in Hd as [Hc Hd].
    by rewrite (proj1 (digit_is_label_char c Hc)), IH. }
  unfold label_text. rewrite Hall.
  destruct (Nat.leb_spec 1 (String.length s)); [|lia].
  destruct (Nat.leb_spec (String.length s) 63); [|lia].
  rewrite !bool_decide_eq_false_2; [done| |].
  - destruct (last_char_digits s Hne Hd) as (c & -> & Hc).
    intros [= ->]. done.
  - destruct s as [|c s]; [done|]. simpl in Hd.
    apply andb_true_iff in Hd as [Hc _]. intros [= ->]. done.
Qed.

(** The address test adds nothing to the host name test: every string the
    address pattern accepts, the host name pattern accepts as well, so the
    validator is the host name test on non-empty input; and it accepts every
    dotted group of four numbers of one to three digits, whatever their
    value, such as 999.999.999.999. *)
Theorem validate_ip_test_is_redundant (value a b c d : string) :
  (ip_match value = true → hostname_match value = true)
  ∧ validate_ip_or_hostname value
    = negb (String.eqb value "") && hostname_match value
  ∧ (short_number a = true → short_number b = true →
     short_number c = true → short_number d = true →
     validate_ip_or_hostname (dotted a b c d) = true).
Proof.
  split; [apply ip_is_hostname|]. split.
  - destruct value as [|x s]; [done|]. unfold validate_ip_or_hostname.
    simpl negb. simpl andb.
    destruct (ip_match (String x s)) eqn:Hip; [|done].
    by rewrite (ip_is_hostname _ Hip).
  - intros (La & Da & Na & Ha)%short_number_label
           (Lb & Db & Nb & Hb)%short_number_label
           (Lc & Dc & Nc & Hc)%short_number_label
           (Ld & Dd & Nd & Hd)%short_number_label.
    assert (Hhost : hostname_match (dotted a b c d) = true).
    { unfold hostname_match. cbv zeta.
      assert (Hchomp : chomp (dotted a b c d) = dotted a b c d).
      { apply chomp_fixed. unfold dotted.
        change (a +:+ "." +:+ b +:+ "." +:+ c +:+ "." +:+ d)
          with (a +:+ String "." (b +:+ String "." (c +:+ String "." d))).
        rewrite last_char_app.
        change (last_char (String "." (b +:+ String "." (c +:+ String "." d))))
          with (last_char (("." +:+ b) +:+ String "." (c +:+ String "." d))).
        rewrite last_char_app.
        change (last_char (String "." (c +:+ String "." d)))
          with (last_char (("." +:+ c) +:+ String "." d)).
        rewrite last_char_app.
        destruct (last_char_digits d Nd Dd) as (x & Hx & Hdx).
        destruct d as [|y d']; [done|].
        change (last_char (String "." (String y d')))
          with (last_char (String y d')).
        rewrite Hx. intros [= ->]. done. }
      rewrite Hchomp.
      pose proof (split_dots_length (dotted a b c d)) as Hsum.
      assert (Hsplit : split_dots (dotted a b c d) = [a; b; c; d]).
      { unfold dotted.
        change (a +:+ "." +:+ b +:+ "." +:+ c +:+ "." +:+ d)
          with (a +:+ String "." (b +:+ String "." (c +:+ String "." d))).
        by rewrite !split_dots_app, split_dots_no_dot. }
      rewrite Hsplit in *. simpl in Hsum. simpl forallb.
      rewrite La, Lb, Lc, Ld.
      assert (1 ≤ String.length a)%nat by (destruct a; [done|simpl; lia]).
      destruct (Nat.leb_spec 1 (String.length (dotted a b c d))); [|lia].
      destruct (Nat.leb_spec (String.length (dotted a b c d)) 253);
        [done|lia]. }
    unfold validate_ip_or_hostname.
    destruct (dotted a b c d) eqn:Hdot; [by destruct a|].
    by rewrite Hhost, orb_true_r.
Qed.

Lemma validate_ip_test_is_redundant_witness :
  validate_ip_or_hostname (dotted "999" "999" "999" "999") = true.
Proof.
  apply (proj2 (proj2 (validate_ip_test_is_redundant "" "999" "999" "999" "999")));
    reflexivity.
Defined.

Lemma chomp_cases (s : string) :
  s = chomp s ∨ s = chomp s +:+ newline.
Proof.
  induction s as [|c s IH]; [by left|]. simpl.
  destruct s as [|c' s'].
  - destruct (Ascii.eqb_spec c (ascii_of_nat 10)) as [->|_]; [by right|by left].
  - destruct IH as [IH|IH]; [left|right].
    + by rewrite <- IH.
    + change (String c (chomp (String c' s')) +:+ newline)
        with (String c (chomp (String c' s') +:+ newline)).
      by rewrite <- IH.
Qed.

(** Whatever the validator accepts is, up to one final newline, a text of
    1 to 253 letters, digits, hyphens and dots of ASCII that starts with a
    letter or a digit; the final newline itself is let through. *)
Theorem validate_accepts_only_host_text (value : string) :
  validate_ip_or_hostname value = true →
  string_forall is_host_char (chomp value) = true
  ∧ (1 ≤ String.length (chomp value) ≤ 253)%nat
  ∧ (∃ c, first_char (chomp value) = Some c
          ∧ is_label_char c = true ∧ c ≠ "-"%char)
  ∧ (value = chomp value ∨ value = chomp value +:+ newline).
Proof.
  intros Hvalid.
  assert (Hhost : hostname_match value = true).
  { destruct value as [|x s]; [done|]. unfold validate_ip_or_hostname in Hvalid.
    apply orb_true_iff in Hvalid as [Hip|Hhost]; [|done].
    by apply ip_is_hostname. }
  clear Hvalid. unfold hostname_match in Hhost. cbv zeta in Hhost.
  set (body := chomp value) in *.
  apply andb_true_iff in Hhost as [[Hlo Hhi]%andb_true_iff Hparts].
  apply Nat.leb_le in Hlo, Hhi.
  assert (Hchars : forallb (string_forall is_label_char) (split_dots body)
                   = true).
  { eapply forallb_weaken; [|exact Hparts]. intros s. unfold label_text.
    by intros [[[_ Hs]%andb_true_iff _]%andb_true_iff _]%andb_true_iff. }
  rewrite split_dots_forall in Hchars.
  split; [exact Hchars|]. split; [lia|]. split; [|apply chomp_cases].
  destruct (split_dots_first body) as (part & parts & Hsplit & Hfirst).
  rewrite Hsplit in Hparts. simpl in Hparts.
  apply andb_true_iff in Hparts as [Hpart _]. unfold label_text in Hpart.
  apply andb_true_iff in Hpart as [Hpart _].
  apply andb_true_iff in Hpart as [Hpart Hdash%negb_true_iff].
  apply andb_true_iff in Hpart as [Hpart Hall].
  apply andb_true_iff in Hpart as [Hlen _]. apply Nat.leb_le in Hlen.
  apply bool_decide_eq_false in Hdash.
  destruct part as [|c part]; [simpl in Hlen; lia|].
  rewrite Hfirst by done. exists c. simpl in Hall, Hdash.
  apply andb_true_iff in Hall as [Hc _].
  split; [done|]. split; [done|]. congruence.
Qed.

Lemma validate_accepts_only_host_text_witness :
  string_forall is_host_char "fw-01.example.com" = true
  ∧ value_of_newline_host = "fw-01.example.com" +:+ newline.
Proof.
  pose proof (validate_accepts_only_host_text value_of_newline_host eq_refl)
    as (Hchars & _ & _ & _).
  split; [exact Hchars|reflexivity].
Defined.

(** A final newline makes no difference to the validator: a text that does
    not end in a newline is accepted with one appended exactly when it is
    accepted without. *)
Theorem validate_ignores_final_newline (value : string) :
  last_char value ≠ Some (ascii_of_nat 10) →
  validate_ip_or_hostname (value +:+ newline)
  = validate_ip_or_hostname value.
Proof.
  intros Hlast. destruct value as [|c s]; [done|].
  unfold validate_ip_or_hostname.
  change (String c s +:+ newline) with (String c (s +:+ newline)).
  change (String c (s +:+ newline)) with (String c s +:+ newline) at 1 2.
  unfold ip_match, hostname_match.
  change (String c (s +:+ newline)) with (String c s +:+ newline).
  by rewrite (chomp_newline _ Hlast), (chomp_fixed _ Hlast).
Qed.

Lemma validate_ignores_final_newline_witness :
  validate_ip_or_hostname ("10.0.0.1" +:+ newline) = true.
Proof.
  rewrite (validate_ignores_final_newline "10.0.0.1"); [reflexivity|].
  intros H. discriminate H.
Defined.

(** ** Lookup by serial number *)

(** One pass of either loop over a well-shaped entry. *)
Lemma device_ok_steps (d : gmap string pyvalue) :
  device_ok d →
  ∃ h serial info,
    device_hostname d = Some h
    ∧ device_serial (PyDict d) = Ok serial
    ∧ Device.hostname info = PyStr h
    ∧ Device.serial info = serial
    ∧ Device.raw info = PyDict d
    ∧ (∀ device_name rest,
         search_by_name device_name (PyDict d :: rest)
         = if String.eqb (lower h) (lower device_name) then Ok info
           else search_by_name device_name rest)
    ∧ (∀ wanted rest,
         search_by_serial wanted (PyDict d :: rest)
         = if is_str serial wanted then Ok info
           else search_by_serial wanted rest).
Proof.
  intros Hok. destruct (proj1 Hok) as [h Hh].
  destruct (device_ok_info d (PyStr h) Hok)
    as (serial & info & Hs & Hi & Hhost & Hser & Hraw).
  exists h, serial, info. repeat split; try done.
  - intros device_name rest. cbn [search_by_name].
    rewrite (device_ok_hostname d h Hh). cbn [bind py_lower].
    destruct (String.eqb (lower h) (lower device_name)); [|done].
    by rewrite Hs.
  - intros wanted rest. cbn [search_by_serial]. rewrite Hs. cbn [bind].
    destruct (is_str serial wanted); [|done].
    by rewrite (device_ok_hostname d h Hh).
Qed.

Lemma device_lookups_run (entries : list pyvalue) (key : string) :
  device_by_name (devices_response (PyList entries)) key
  = lift (search_by_name key entries)
  ∧ device_by_serial (devices_response (PyList entries)) key
    = lift (search_by_serial key entries).
Proof.
  unfold device_by_name, device_by_serial, devices_response, response_with,
    device_entries. simpl.
  rewrite lookup_singleton_eq. simpl. by rewrite lookup_singleton_eq.
Qed.

(** The serial number a lookup by name answers leads back to a device: the
    lookup by that serial number succeeds, and answers the first entry of
    the list that carries it, which is the very same answer when no earlier
    entry has the same serial number; the serial number of an entry is the
    [name] attribute when the entry has one, whatever its [serial] child
    says. *)
Theorem serial_lookup_after_name_lookup (device_name wanted : string)
    (ds : list (gmap string pyvalue)) (info : Device.info) :
  Forall device_ok ds →
  device_by_name (devices_response (PyList (PyDict <$> ds))) device_name
  = Returns info →
  Device.serial info = PyStr wanted →
  ∃ info' i d,
    device_by_serial (devices_response (PyList (PyDict <$> ds))) wanted
    = Returns info'
    ∧ Device.serial info' = PyStr wanted
    ∧ ds !! i = Some d ∧ Device.raw info' = PyDict d
    ∧ (∀ j d', (j < i)%nat → ds !! j = Some d' →
               device_serial (PyDict d') ≠ Ok (PyStr wanted))
    ∧ (Device.raw info' = Device.raw info → info' = info)
    ∧ (∀ attrs name, d !! "@attributes" = Some (PyDict attrs) →
                     attrs !! "name" = Some name → name = PyStr wanted).
Proof.
  intros Hok Hname Hserial.
  rewrite (proj1 (device_lookups_run _ _)) in Hname.
  rewrite (proj2 (device_lookups_run _ _)).
  assert (Hsource : ∃ d0, d0 ∈ ds ∧ Device.raw info = PyDict d0
                          ∧ device_serial (PyDict d0) = Ok (PyStr wanted)
                          ∧ ∀ rest, search_by_serial wanted (PyDict d0 :: rest)
                                    = Ok info).
  { clear -Hok Hname Hserial.
    induction Hok as [|d ds Hd Hds IH]; [done|].
    destruct (device_ok_steps d Hd)
      as (h & serial & info0 & Hh & Hs & Hhost & Hser & Hraw & Hn & Hw).
    rewrite fmap_cons, Hn in Hname.
    destruct (String.eqb (lower h) (lower device_name)).
    - injection Hname as <-. exists d. split; [by left|]. split; [done|].
      rewrite Hserial in Hser. subst serial. split; [done|].
      intros rest. rewrite Hw. simpl. by rewrite String.eqb_refl.
    - destruct (IH Hname) as (d0 & Hin & Hrest). exists d0.
      split; [by right|done]. }
  destruct Hsource as (d0 & Hin & Hraw0 & Hs0 & Hstep0).
  clear Hname.
  induction Hok as [|d ds Hd Hds IH]; [by apply elem_of_nil in Hin|].
  destruct (device_ok_steps d Hd)
    as (h & serial & info1 & Hh & Hs & Hhost & Hser & Hraw & Hn & Hw).
  rewrite fmap_cons, Hw.
  destruct (is_str serial wanted) eqn:Hstr.
  - assert (Hsw : serial = PyStr wanted).
    { destruct serial as [|s| |]; try done. simpl in Hstr.
      by apply String.eqb_eq in Hstr as ->. }
    exists info1, 0%nat, d. simpl. split; [done|]. split; [congruence|].
    split; [done|]. split; [done|]. split; [intros j d' Hj; lia|]. split.
    + rewrite Hraw, Hraw0. intros [= <-].
      specialize (Hstep0 []). rewrite Hw, Hstr in Hstep0. congruence.
    + intros attrs name Hattrs Hnm. rewrite Hsw in Hs.
      unfold device_serial in Hs. simpl in Hs. rewrite Hattrs in Hs.
      simpl in Hs. rewrite Hnm in Hs. simpl in Hs. congruence.
  - assert (Hin' : d0 ∈ ds).
    { apply elem_of_cons in Hin as [->|Hin]; [|done].
      rewrite Hs0 in Hs. injection Hs as <-. simpl in Hstr.
      by rewrite String.eqb_refl in Hstr. }
    destruct (IH Hin') as (info' & i & d' & Hrun & Hser' & Hi & Hraw' & Hfirst
                           & Hsame & Hattr).
    exists info', (S i), d'. simpl. split; [done|]. split; [done|].
    split; [done|]. split; [done|]. split; [|done].
    intros [|j] d1 Hj Hd1.
    + injection Hd1 as <-. rewrite Hs. intros [= ->]. simpl in Hstr.
      by rewrite String.eqb_refl in Hstr.
    + apply (Hfirst j d1); [lia|done].
Qed.

Lemma serial_lookup_after_name_lookup_witness :
  ∃ info info',
    device_by_name
      (devices_response
         (PyList (PyDict <$> [sample_device "fw-core-01" "0071";
                              sample_device "fw-edge-01" "0072"])))
      "FW-EDGE-01" = Returns info
    ∧ device_by_serial
        (devices_response
           (PyList (PyDict <$> [sample_device "fw-core-01" "0071";
                                sample_device "fw-edge-01" "0072"])))
        "0072" = Returns info'
    ∧ Device.serial info' = PyStr "0072".
Proof.
  assert (Hok : ∀ n s, device_ok (sample_device n s)).
  { intros n s. unfold device_ok, optional_map, device_hostname,
      sample_device.
    rewrite lookup_insert_eq.
    rewrite !lookup_insert_ne, lookup_singleton_eq by done.
    rewrite lookup_singleton_ne by done. eauto. }
  assert (Hfound : ∃ info,
            device_by_name
              (devices_response
                 (PyList (PyDict <$> [sample_device "fw-core-01" "0071";
                                      sample_device "fw-edge-01" "0072"])))
              "FW-EDGE-01" = Returns info
            ∧ Device.serial info = PyStr "0072").
  { vm_compute. eexists. split; reflexivity. }
  destruct Hfound as (info & Hinfo & Hserial).
  destruct (serial_lookup_after_name_lookup "FW-EDGE-01" "0072"
              [sample_device "fw-core-01" "0071";
               sample_device "fw-edge-01" "0072"] info
              (Forall_cons_2 _ _ _ (Hok _ _)
                 (Forall_cons_2 _ _ _ (Hok _ _) (Forall_nil_2 _)))
              Hinfo Hserial)
    as (info' & i & d & Hrun & Hser & _).
  exists info, info'. split; [exact Hinfo|]. split; [exact Hrun|exact Hser].
Defined.
